(** * parkrun-parser: a shallow embedding of the scraper, the store and the reports

    The Go program fetches parkrun result pages, extracts the rows, stores
    them in SQLite and prints aggregate reports.  This file embeds

    - [parser.go]  : [timeToSeconds], [parseEventDate], [scrapeEvent],
                     [ParseResults];
    - [db.go]      : [CreateTables], [StoreEvent], [StoreResults],
                     [GetNextEventNumber], [ClearLocationData];
    - [reports.go] : [GetTopParticipants], [GetMedianTimesByAgeCategory],
                     [GetLocationStats], [PrintReports],
                     [PrintComparisonReport], [secondsToTime];
    - [main.go]    : the ingest loop of [parseAndStoreResults] and the
                     dispatch of [main] on the arguments.

    Go's [int] is the 64-bit signed integer, written as [Z] with its
    wrap-around; Go strings are byte strings ([string]); SQL tables are
    lists of rows in rowid order; Go maps are [gmap]s. *)

From Stdlib Require Import ZArith String Ascii List Lia DecimalString DecimalPos.
From stdpp Require Import base tactics option list gmap strings sorting.

Local Open Scope string_scope.
Local Open Scope Z_scope.

(* ===================================================================== *)
(** * Part I: definitions *)
(* ===================================================================== *)

(** ** Go's [int] *)

Module GoInt.

Definition min_int : Z := - 2 ^ 63.
Definition max_int : Z := 2 ^ 63 - 1.

(** Two's complement wrap-around of a mathematical integer. *)
Definition wrap (z : Z) : Z := (z + 2 ^ 63) mod 2 ^ 64 - 2 ^ 63.

Definition in_range (z : Z) : bool := (min_int <=? z) && (z <=? max_int).

Definition add (a b : Z) : Z := wrap (a + b).
Definition mul (a b : Z) : Z := wrap (a * b).
(** [/] and [%] truncate toward zero; the one quotient that does not fit,
    [min_int / -1], is [min_int]. *)
Definition quot (a b : Z) : Z :=
  if (a =? min_int) && (b =? -1) then min_int else Z.quot a b.
Definition rem (a b : Z) : Z := Z.rem a b.

End GoInt.

(** ** The pieces of Go's [strings], [strconv], [fmt] and [sort] that the
    program calls *)

Module GoStrings.

(** [strings.Split(s, sep)] for a one-byte separator (the program splits
    on ":" and on " "): always at least one piece. *)
Fixpoint Split (s : string) (sep : ascii) : list string :=
  match s with
  | EmptyString => [EmptyString]
  | String c s' =>
      if Ascii.eqb c sep then EmptyString :: Split s' sep
      else match Split s' sep with
           | [] => [String c EmptyString]
           | p :: ps => String c p :: ps
           end
  end.

(** [strings.Contains(s, substr)]. *)
Fixpoint Contains (s substr : string) : bool :=
  String.prefix substr s ||
  match s with
  | EmptyString => false
  | String _ s' => Contains s' substr
  end.

(** White space of [strings.TrimSpace] on ASCII text:
    '\t', '\n', '\v', '\f', '\r', ' '. *)
Definition is_space (c : ascii) : bool :=
  let n := N_of_ascii c in
  ((9 <=? n) && (n <=? 13))%N || (n =? 32)%N.

Fixpoint TrimLeft (s : string) : string :=
  match s with
  | String c s' => if is_space c then TrimLeft s' else s
  | EmptyString => EmptyString
  end.

Fixpoint TrimRight (s : string) : string :=
  match s with
  | EmptyString => EmptyString
  | String c s' =>
      match TrimRight s' with
      | EmptyString => if is_space c then EmptyString else String c EmptyString
      | t => String c t
      end
  end.

Definition TrimSpace (s : string) : string := TrimRight (TrimLeft s).

(** [s[:n]]: a slice expression panics when [n] exceeds [len(s)]. *)
Definition slice_to (s : string) (n : nat) : option string :=
  if (n <=? String.length s)%nat then Some (String.substring 0 n s) else None.

End GoStrings.

Module Strconv.

Inductive NumError := ErrSyntax | ErrRange.

Definition is_digit (c : ascii) : bool :=
  let n := N_of_ascii c in ((48 <=? n) && (n <=? 57))%N.

Definition digit_value (c : ascii) : Z := Z.of_N (N_of_ascii c) - 48.

(** Value of a run of decimal digits, [None] when another byte occurs. *)
Fixpoint digits (acc : Z) (s : string) : option Z :=
  match s with
  | EmptyString => Some acc
  | String c s' =>
      if is_digit c then digits (acc * 10 + digit_value c) s' else None
  end.

(** [strconv.Atoi]: an optional sign and decimal digits.  Go returns a
    value together with the error: 0 on a syntax error, the nearest
    bound on a range error. *)
Definition Atoi (s : string) : Z * option NumError :=
  let '(neg, body) :=
    match s with
    | String "+"%char r => (false, r)
    | String "-"%char r => (true, r)
    | _ => (false, s)
    end in
  match body with
  | EmptyString => (0, Some ErrSyntax)
  | _ =>
      match digits 0 body with
      | None => (0, Some ErrSyntax)
      | Some v =>
          let n := if neg then - v else v in
          if GoInt.in_range n then (n, None)
          else (if neg then GoInt.min_int else GoInt.max_int, Some ErrRange)
      end
  end.

End Strconv.

Module Fmt.

(** The verb [%d]. *)
Definition d (z : Z) : string := NilZero.string_of_int (Z.to_int z).

(** The verb [%02d]: zero padding to width two, the sign counted. *)
Definition d02 (z : Z) : string :=
  if (0 <=? z) && (z <? 10) then "0" ++ d z else d z.

End Fmt.

(** ** parser.go: records and errors *)

(** [time.Time] as the program uses it: a calendar date at midnight UTC.
    The zero value is 1 January of year 1. *)
Record Time := { Year : Z; Month : Z; Day : Z }.

Definition zeroTime : Time := {| Year := 1; Month := 1; Day := 1 |}.

Record Result := {
  Position : Z;
  Name : string;
  Time_ : string;       (* field [Time]: the raw time string *)
  TimeSeconds : Z;
  AgeGrade : string;
  AgeCategory : string;
  Note : string;
  TotalRuns : Z;
  EventID : Z
}.

Record Event := {
  EventNumber : Z;
  LocationID : Z;
  Date : Time;
  URL : string
}.

Record HTTPError := { StatusCode : Z; Message : string }.

(** A Go [error] value: either the typed [*HTTPError] or a plain error
    carrying its message (the text of a wrapped cause is left out). *)
Inductive error :=
| ErrHTTP (e : HTTPError)
| Errorf (msg : string).

(** ** parser.go: [timeToSeconds] *)

Definition timeToSeconds (timeStr : string) : Z + error :=
  if String.eqb timeStr "" || String.eqb timeStr "Unknown" then inl 0
  else
    let parts := GoStrings.Split timeStr ":"%char in
    match parts with
    | [p0; p1] =>
        match Strconv.Atoi p0 with
        | (_, Some _) => inr (Errorf "invalid minutes")
        | (minutes, None) =>
            match Strconv.Atoi p1 with
            | (_, Some _) => inr (Errorf "invalid seconds")
            | (seconds, None) =>
                inl (GoInt.add (GoInt.mul minutes 60) seconds)
            end
        end
    | [p0; p1; p2] =>
        match Strconv.Atoi p0 with
        | (_, Some _) => inr (Errorf "invalid hours")
        | (hours, None) =>
            match Strconv.Atoi p1 with
            | (_, Some _) => inr (Errorf "invalid minutes")
            | (minutes, None) =>
                match Strconv.Atoi p2 with
                | (_, Some _) => inr (Errorf "invalid seconds")
                | (seconds, None) =>
                    inl (GoInt.add
                           (GoInt.add (GoInt.mul hours 3600) (GoInt.mul minutes 60))
                           seconds)
                end
            end
        end
    | _ => inr (Errorf "invalid time format")
    end.

(** ** reports.go: [secondsToTime] *)

Definition secondsToTime (seconds : Z) : string :=
  if seconds =? 0 then "Unknown"
  else
    let hours := GoInt.quot seconds 3600 in
    let minutes := GoInt.quot (GoInt.rem seconds 3600) 60 in
    let secs := GoInt.rem seconds 60 in
    if 0 <? hours
    then Fmt.d hours ++ ":" ++ Fmt.d02 minutes ++ ":" ++ Fmt.d02 secs
    else Fmt.d minutes ++ ":" ++ Fmt.d02 secs.

(** ** Go's [time.Parse] for the layouts of [parseEventDate]

    A layout is a sequence of the reference elements "02" (two-digit day),
    "2" (day), "01" (two-digit month), "1" (month), "2006" (year) and "06"
    (two-digit year) separated by literal text. *)

Module GoTime.

Inductive Chunk :=
| stdZeroDay | stdDay | stdZeroMonth | stdNumMonth | stdLongYear | stdYear
| literal (c : ascii).

(** The chunks of the three layouts the program passes. *)
Definition chunks (layout : string) : option (list Chunk) :=
  let slash := literal "/"%char in
  if String.eqb layout "02/01/2006"
  then Some [stdZeroDay; slash; stdZeroMonth; slash; stdLongYear]
  else if String.eqb layout "2/1/06"
  then Some [stdDay; slash; stdNumMonth; slash; stdYear]
  else if String.eqb layout "2/1/2006"
  then Some [stdDay; slash; stdNumMonth; slash; stdLongYear]
  else None.

(** [getnum]: one or two digits; exactly two when [fixed]. *)
Definition getnum (s : string) (fixed : bool) : option (Z * string) :=
  match s with
  | String c0 s0 =>
      if Strconv.is_digit c0 then
        match s0 with
        | String c1 s1 =>
            if Strconv.is_digit c1
            then Some (Strconv.digit_value c0 * 10 + Strconv.digit_value c1, s1)
            else if fixed then None else Some (Strconv.digit_value c0, s0)
        | EmptyString => if fixed then None else Some (Strconv.digit_value c0, s0)
        end
      else None
  | EmptyString => None
  end.

(** The package's own [atoi]: a sign, then digits only. *)
Definition atoi (p : string) : option Z :=
  let '(neg, body) :=
    match p with
    | String "+"%char r => (false, r)
    | String "-"%char r => (true, r)
    | _ => (false, p)
    end in
  match body with
  | EmptyString => None
  | _ => match Strconv.digits 0 body with
         | Some v => Some (if neg then - v else v)
         | None => None
         end
  end.

Definition take_prefix (n : nat) (s : string) : option (string * string) :=
  if (n <=? String.length s)%nat
  then Some (String.substring 0 n s, String.substring n (String.length s - n) s)
  else None.

Definition isLeap (year : Z) : bool :=
  (year mod 4 =? 0) && (negb (year mod 100 =? 0) || (year mod 400 =? 0)).

Definition daysIn (month year : Z) : Z :=
  if month =? 2 then (if isLeap year then 29 else 28)
  else if (month =? 4) || (month =? 6) || (month =? 9) || (month =? 11) then 30
  else 31.

(** The parsing loop: [d], [m], [y] are the fields read so far. *)
Fixpoint parse_chunks (cs : list Chunk) (value : string) (d m y : Z)
  : option Time :=
  match cs with
  | [] =>
      match value with
      | EmptyString =>
          if (d <? 1) || (daysIn m y <? d) then None
          else Some {| Year := y; Month := m; Day := d |}
      | _ => None                      (* extra text *)
      end
  | literal c :: cs' =>
      match value with
      | String c' v' => if Ascii.eqb c c' then parse_chunks cs' v' d m y else None
      | EmptyString => None
      end
  | stdZeroDay :: cs' =>
      match getnum value true with
      | Some (n, v') => parse_chunks cs' v' n m y
      | None => None
      end
  | stdDay :: cs' =>
      match getnum value false with
      | Some (n, v') => parse_chunks cs' v' n m y
      | None => None
      end
  | stdZeroMonth :: cs' =>
      match getnum value true with
      | Some (n, v') =>
          if (n <=? 0) || (12 <? n) then None else parse_chunks cs' v' d n y
      | None => None
      end
  | stdNumMonth :: cs' =>
      match getnum value false with
      | Some (n, v') =>
          if (n <=? 0) || (12 <? n) then None else parse_chunks cs' v' d n y
      | None => None
      end
  | stdLongYear :: cs' =>
      match value with
      | String c0 _ =>
          if Strconv.is_digit c0 then
            match take_prefix 4 value with
            | Some (p, v') =>
                match atoi p with
                | Some n => parse_chunks cs' v' d m n
                | None => None
                end
            | None => None
            end
          else None
      | EmptyString => None
      end
  | stdYear :: cs' =>
      match take_prefix 2 value with
      | Some (p, v') =>
          match atoi p with
          | Some n => parse_chunks cs' v' d m (if 69 <=? n then n + 1900 else n + 2000)
          | None => None
          end
      | None => None
      end
  end.

(** [time.Parse(layout, value)]; [None] stands for the parse error. *)
Definition Parse (layout value : string) : option Time :=
  match chunks layout with
  | Some cs => parse_chunks cs value 1 1 0
  | None => None
  end.

End GoTime.

(** ** parser.go: [parseEventDate] *)

Definition parseEventDate (dateText : string) : Time + error :=
  let dateText := GoStrings.TrimSpace dateText in
  let formats := ["02/01/2006"; "2/1/06"; "2/1/2006"] in
  let fix try (fs : list string) : Time + error :=
    match fs with
    | [] => inr (Errorf "parsing time")
    | format :: fs' =>
        match GoTime.Parse format dateText with
        | Some date => inl date
        | None => try fs'
        end
    end in
  try formats.

(** ** The fetched page, as the selectors of [scrapeEvent] see it *)

(** One [.Results-table-row] element: its data attributes ([None] when the
    attribute is absent), the text of [.Results-table-td--time .compact]
    and the text of the first [.detailed] element. *)
Record Row := {
  data_position : option string;
  data_name : option string;
  data_agegroup : option string;
  time_compact : string;
  detailed : string;
  data_agegrade : option string;
  data_achievement : option string
}.

(** The parsed document: the text of [.Results-header .format-date] and the
    result rows in document order. *)
Record Document := { format_date : string; table_rows : list Row }.

(** What one GET request meets. *)
Inductive HTTPExchange :=
| RequestInvalid                       (* http.NewRequest fails *)
| TransportFailed                      (* client.Do fails: DNS, connect, timeout *)
| Responded (status : Z) (body : option Document).
                                       (* [None]: the body cannot be read *)

Definition AttrOr (attr : option string) (defaultValue : string) : string :=
  match attr with Some v => v | None => defaultValue end.

(** Log lines and pauses, in the order they happen. *)
Inductive LogArg := IntArg (z : Z) | StrArg (s : string).

Inductive Effect :=
| Logged (format : string) (args : list LogArg)
| Slept (seconds : Z)
| Requested (url : string)             (* a GET request went out *)
| Executed (stmt : string) (ok : bool). (* a call into the SQLite driver *)

(** The pauses and the requests among some effects. *)
Definition sleeps (es : list Effect) : list Z :=
  omap (fun e => match e with Slept s => Some s | _ => None end) es.

Definition requests (es : list Effect) : list string :=
  omap (fun e => match e with Requested u => Some u | _ => None end) es.

(** ** parser.go: [scrapeEvent] and [ParseResults] *)

(** The variables the row callback of [resultRows.Each] closes over. *)
Record Scraped := {
  results_ : list Result;
  processedRows : Z;
  skippedRows : Z;
  warnings : list Effect
}.

(** The callback, applied to one row. *)
Definition scrapeRow (acc : Scraped) (s : Row) : Scraped :=
  let position := fst (Strconv.Atoi (AttrOr (data_position s) "0")) in
  let name := AttrOr (data_name s) "" in
  let ageGroup := AttrOr (data_agegroup s) "" in
  let timeCell := time_compact s in
  let runsText := detailed s in
  let totalRuns :=
    if GoStrings.Contains runsText "parkrun"
    then fst (Strconv.Atoi (hd "" (GoStrings.Split runsText " "%char)))
    else 0 in
  let ageGrade := AttrOr (data_agegrade s) "" in
  let achievement := AttrOr (data_achievement s) "" in
  let time := GoStrings.TrimSpace timeCell in
  let parsed :=
    if negb (String.eqb name "Unknown") then timeToSeconds time else inl 0 in
  match parsed with
  | inr _ =>
      {| results_ := results_ acc;
         processedRows := processedRows acc;
         skippedRows := GoInt.add (skippedRows acc) 1;
         warnings := (warnings acc ++
           [Logged "Warning: Could not parse time for position %d: %v"
              [IntArg position]])%list |}
  | inl timeSeconds =>
      let result :=
        {| Position := position; Name := name; Time_ := time;
           TimeSeconds := timeSeconds; AgeGrade := ageGrade;
           AgeCategory := ageGroup; Note := achievement;
           TotalRuns := totalRuns; EventID := 0 |} in
      {| results_ := (results_ acc ++ [result])%list;
         processedRows := GoInt.add (processedRows acc) 1;
         skippedRows := skippedRows acc;
         warnings := warnings acc |}
  end.

Definition scrapeRows (rs : list Row) : Scraped :=
  fold_left scrapeRow rs
    {| results_ := []; processedRows := 0; skippedRows := 0; warnings := [] |}.

(** [scrapeEvent] returns its triple and writes log lines. *)
Definition scrapeEvent (url : string) (eventNumber : Z) (x : HTTPExchange)
  : ((Event * list Result) + error) * list Effect :=
  match x with
  | RequestInvalid => (inr (Errorf "failed to create request"), [])
  | TransportFailed =>
      (inr (Errorf "failed to make HTTP request"), [Requested url])
  | Responded status body =>
      if 400 <=? status
      then (inr (ErrHTTP {| StatusCode := status; Message := "HTTP error" |}),
            [Requested url])
      else
        match body with
        | None => (inr (Errorf "failed to parse HTML"), [Requested url])
        | Some doc =>
            let dateText := format_date doc in
            let log1 :=
              [Requested url; Logged "Found date text: %s" [StrArg dateText]] in
            let '(eventDate, log2) :=
              match parseEventDate dateText with
              | inl t => (t, [])
              | inr _ =>
                  (zeroTime,
                   [Logged "Warning: Could not parse date for event %d: %v"
                      [IntArg eventNumber]])
              end in
            let event :=
              {| EventNumber := eventNumber; LocationID := 0;
                 Date := eventDate; URL := url |} in
            let sc := scrapeRows (table_rows doc) in
            (inl (event, results_ sc),
             (log1 ++ log2 ++ warnings sc ++
              [Logged "Processed %d rows, skipped %d invalid rows"
                 [IntArg (processedRows sc); IntArg (skippedRows sc)]])%list)
        end
  end.

Definition ParseResults (urlSlug : string) (eventNumber : Z) (x : HTTPExchange)
  : ((Event * list Result) + error) * list Effect :=
  let url :=
    "https://www.parkrun.com.au/" ++ urlSlug ++ "/results/" ++
    Fmt.d eventNumber ++ "/" in
  scrapeEvent url eventNumber x.

(** ** The SQLite database

    The three tables of [CreateTables], each a list of rows in rowid
    order.  Columns declared [NOT NULL] hold values, the others options
    ([None] is SQL's NULL).  The [date] column holds the timestamp that
    [StoreEvent] wrote.  All three tables are [AUTOINCREMENT]: SQLite keeps,
    in [sqlite_sequence], the largest rowid each table ever had.  Foreign
    keys are declared but not enforced (SQLite's default). *)

Record LocationRow := {
  l_id : Z; l_slug : string; l_name : option string; l_country : string
}.

Record EventRow := {
  e_id : Z; e_event_number : Z; e_location_id : Z; e_date : Time; e_url : string
}.

Record ResultRow := {
  r_id : Z; r_position : Z; r_name : string; r_time_seconds : option Z;
  r_age_grade : option string; r_age_category : option string;
  r_note : option string; r_total_runs : option Z; r_event_id : option Z
}.

Record Database := {
  locations : list LocationRow;
  events : list EventRow;
  results : list ResultRow;
  seq_locations : Z;
  seq_events : Z;
  seq_results : Z
}.

Definition empty_db : Database :=
  {| locations := []; events := []; results := [];
     seq_locations := 0; seq_events := 0; seq_results := 0 |}.

Module SQL.

(** The rowid an [AUTOINCREMENT] table gives its next row: one more than
    the largest it ever had; the insert fails once that is exhausted. *)
Definition next_rowid (seq : Z) (ids : list Z) : option Z :=
  let largest := fold_right Z.max seq ids in
  if largest <? GoInt.max_int then Some (largest + 1) else None.

(** [MAX(...)]: NULL over no rows. *)
Definition MAX (zs : list Z) : option Z :=
  match zs with
  | [] => None
  | z :: zs' => Some (fold_right Z.max z zs')
  end.

Definition COALESCE (v : option Z) (dflt : Z) : Z :=
  match v with Some z => z | None => dflt end.

(** [LIMIT n]: a negative limit is no limit. *)
Definition LIMIT {A} (n : Z) (l : list A) : list A :=
  if n <? 0 then l else firstn (Z.to_nat n) l.

(** [INSERT OR REPLACE INTO events (event_number, location_id, date, url)]:
    the rows that violate [UNIQUE(event_number, location_id)] are deleted,
    then the new row is inserted under a fresh rowid. *)
Definition insert_or_replace_event (ev : Event) (d : Database)
  : option (Z * Database) :=
  match next_rowid (seq_events d) (map e_id (events d)) with
  | None => None
  | Some id =>
      let row :=
        {| e_id := id; e_event_number := EventNumber ev;
           e_location_id := LocationID ev; e_date := Date ev;
           e_url := URL ev |} in
      let kept :=
        List.filter
          (fun e => negb ((e_event_number e =? EventNumber ev)
                          && (e_location_id e =? LocationID ev)))
          (events d) in
      Some (id,
            {| locations := locations d; events := (kept ++ [row])%list;
               results := results d; seq_locations := seq_locations d;
               seq_events := id; seq_results := seq_results d |})
  end.

(** [INSERT OR REPLACE INTO results (position, ..., event_id)], with the
    same treatment of [UNIQUE(position, event_id)]. *)
Definition insert_or_replace_result
    (position : Z) (name : string) (timeSeconds : option Z)
    (ageGrade ageCategory note : string) (totalRuns eventID : Z)
    (d : Database) : option Database :=
  match next_rowid (seq_results d) (map r_id (results d)) with
  | None => None
  | Some id =>
      let row :=
        {| r_id := id; r_position := position; r_name := name;
           r_time_seconds := timeSeconds; r_age_grade := Some ageGrade;
           r_age_category := Some ageCategory; r_note := Some note;
           r_total_runs := Some totalRuns; r_event_id := Some eventID |} in
      let kept :=
        List.filter
          (fun r => negb ((r_position r =? position)
                          && match r_event_id r with
                             | Some e => e =? eventID
                             | None => false
                             end))
          (results d) in
      Some {| locations := locations d; events := events d;
              results := (kept ++ [row])%list;
              seq_locations := seq_locations d;
              seq_events := seq_events d; seq_results := id |}
  end.

(** [INSERT OR IGNORE INTO locations (slug, country) ... RETURNING id]:
    no row comes back when the slug is taken. *)
Definition insert_or_ignore_location (slug country : string) (d : Database)
  : option (Z * Database) :=
  if existsb (fun l => String.eqb (l_slug l) slug) (locations d) then None
  else
    match next_rowid (seq_locations d) (map l_id (locations d)) with
    | None => None
    | Some id =>
        let row :=
          {| l_id := id; l_slug := slug; l_name := None; l_country := country |} in
        Some (id,
              {| locations := (locations d ++ [row])%list; events := events d;
                 results := results d; seq_locations := id;
                 seq_events := seq_events d; seq_results := seq_results d |})
    end.

(** [SELECT id FROM locations WHERE slug = ?], first row. *)
Definition select_location_id (slug : string) (d : Database) : option Z :=
  match List.filter (fun l => String.eqb (l_slug l) slug) (locations d) with
  | l :: _ => Some (l_id l)
  | [] => None
  end.

(** [SELECT id FROM events WHERE location_id = ?]. *)
Definition event_ids_of (locationID : Z) (d : Database) : list Z :=
  map e_id (List.filter (fun e => e_location_id e =? locationID) (events d)).

Definition mem (z : Z) (zs : list Z) : bool := existsb (Z.eqb z) zs.

(** [DELETE FROM results WHERE event_id IN (SELECT id FROM events WHERE
    location_id = ?)]. *)
Definition delete_results_of (locationID : Z) (d : Database) : Database :=
  let ids := event_ids_of locationID d in
  {| locations := locations d; events := events d;
     results :=
       List.filter
         (fun r => negb match r_event_id r with
                        | Some e => mem e ids
                        | None => false
                        end)
         (results d);
     seq_locations := seq_locations d; seq_events := seq_events d;
     seq_results := seq_results d |}.

(** [DELETE FROM events WHERE location_id = ?]. *)
Definition delete_events_of (locationID : Z) (d : Database) : Database :=
  {| locations := locations d;
     events := List.filter (fun e => negb (e_location_id e =? locationID)) (events d);
     results := results d;
     seq_locations := seq_locations d; seq_events := seq_events d;
     seq_results := seq_results d |}.

(** [DELETE FROM locations WHERE id = ?]. *)
Definition delete_location (locationID : Z) (d : Database) : Database :=
  {| locations := List.filter (fun l => negb (l_id l =? locationID)) (locations d);
     events := events d; results := results d;
     seq_locations := seq_locations d; seq_events := seq_events d;
     seq_results := seq_results d |}.

(** [FROM results r JOIN events e ON r.event_id = e.id WHERE
    e.location_id = ?]. *)
Definition results_at (locationID : Z) (d : Database)
  : list (ResultRow * EventRow) :=
  r ← results d;
  e ← List.filter (fun e => e_location_id e =? locationID) (events d);
  if match r_event_id r with Some i => i =? e_id e | None => false end
  then [(r, e)] else [].

End SQL.

(** ** The process state and its monad

    [db] is the committed content of [parkrun.db]; [faults] tells, for the
    driver calls to come, which ones fail (disk, lock, I/O), none once the
    list is used up; [trace] collects what the process did.  A computation
    ends in a value or in [log.Fatal]. *)

Record World := { db : Database; faults : list bool; trace : list Effect }.

Inductive Outcome (A : Type) :=
| Ok (a : A)
| Fatal (msg : string).
Arguments Ok {A} a.
Arguments Fatal {A} msg.

Definition M (A : Type) : Type := World -> Outcome A * World.

Definition ret {A} (a : A) : M A := fun w => (Ok a, w).

Definition bind {A B} (m : M A) (k : A -> M B) : M B :=
  fun w =>
    match m w with
    | (Ok a, w') => k a w'
    | (Fatal msg, w') => (Fatal msg, w')
    end.

Declare Scope go_scope.
Delimit Scope go_scope with go.
Notation "x <- m ;; k" := (bind m (fun x => k))
  (at level 20, m at level 99, k at level 200, only parsing) : go_scope.
Notation "m ;; k" := (bind m (fun _ => k))
  (at level 100, k at level 200, only parsing, right associativity) : go_scope.
Local Open Scope go_scope.

Definition log_Fatal {A} (msg : string) : M A := fun w => (Fatal msg, w).

Definition emit (es : list Effect) : M unit :=
  fun w => (Ok tt, {| db := db w; faults := faults w;
                      trace := (trace w ++ es)%list |}).

Definition log_Printf (format : string) (args : list LogArg) : M unit :=
  emit [Logged format args].

Definition time_Sleep (seconds : Z) : M unit := emit [Slept seconds].

Definition get_db : M Database := fun w => (Ok (db w), w).

Definition put_db (d : Database) : M unit :=
  fun w => (Ok tt, {| db := d; faults := faults w; trace := trace w |}).

(** One call into the driver: [true] when it fails. *)
Definition driver_call (stmt : string) : M bool :=
  fun w =>
    match faults w with
    | [] => (Ok false, {| db := db w; faults := [];
                          trace := (trace w ++ [Executed stmt true])%list |})
    | failed :: fs =>
        (Ok failed, {| db := db w; faults := fs;
                       trace := (trace w ++ [Executed stmt (negb failed)])%list |})
    end.

(** ** db.go *)

Definition CreateTables : M unit :=
  let fix each (queries : list string) : M unit :=
    match queries with
    | [] => ret tt
    | query :: qs =>
        failed <- driver_call query ;;
        if failed then log_Fatal "Failed to create table:" else each qs
    end in
  each ["CREATE TABLE IF NOT EXISTS locations";
        "CREATE TABLE IF NOT EXISTS events";
        "CREATE TABLE IF NOT EXISTS results"] ;;
  log_Printf "Database tables ready" [].

Definition StoreEvent (event : Event) : M (Z + error) :=
  failed <- driver_call "INSERT OR REPLACE INTO events" ;;
  if failed then ret (inr (Errorf "exec"))
  else
    d <- get_db ;;
    match SQL.insert_or_replace_event event d with
    | None => ret (inr (Errorf "database or disk is full"))
    | Some (id, d') => put_db d' ;; ret (inl id)
    end.

(** The [for ... range results] loop of [StoreResults] with its two
    counters. *)
Fixpoint storeEach (rs : list Result) (eventID : Z)
    (successCount errorCount : Z) : M (Z * Z) :=
  match rs with
  | [] => ret (successCount, errorCount)
  | result :: rs' =>
      let timeSeconds :=
        if 0 <? TimeSeconds result then Some (TimeSeconds result) else None in
      failed <- driver_call "INSERT OR REPLACE INTO results" ;;
      d <- get_db ;;
      match (if failed then None
             else SQL.insert_or_replace_result
                    (Position result) (Name result) timeSeconds
                    (AgeGrade result) (AgeCategory result) (Note result)
                    (TotalRuns result) eventID d) with
      | None =>
          log_Printf "Error storing result for position %d: %v"
            [IntArg (Position result)] ;;
          storeEach rs' eventID successCount (GoInt.add errorCount 1)
      | Some d' =>
          put_db d' ;;
          storeEach rs' eventID (GoInt.add successCount 1) errorCount
      end
  end.

Definition StoreResults (results : list Result) (eventID : Z) : M unit :=
  counts <- storeEach results eventID 0 0 ;;
  log_Printf "Database storage complete: %d successful, %d failed"
    [IntArg (fst counts); IntArg (snd counts)].

Definition GetNextEventNumber (locationID : Z) : M Z :=
  failed <- driver_call "SELECT COALESCE(MAX(event_number), 0) FROM events" ;;
  if failed then
    log_Printf "Error getting last event number: %v, starting from 1" [] ;;
    ret 1
  else
    d <- get_db ;;
    let eventID :=
      SQL.COALESCE
        (SQL.MAX (map e_event_number
                    (List.filter (fun e => e_location_id e =? locationID)
                       (events d))))
        0 in
    ret (GoInt.add eventID 1).

(** The transaction works on [tx], a copy that replaces [db] on commit and
    is dropped on rollback (a failed commit is rolled back by the driver). *)
Definition ClearLocationData (urlSlug : string) : M (option error) :=
  failed <- driver_call "SELECT id FROM locations WHERE slug = ?" ;;
  if failed then ret (Some (Errorf "error finding location"))
  else
    d <- get_db ;;
    match SQL.select_location_id urlSlug d with
    | None => ret None                                  (* sql.ErrNoRows *)
    | Some locationID =>
        failed <- driver_call "BEGIN" ;;
        if failed then ret (Some (Errorf "error starting transaction"))
        else
          let tx := d in
          failed <- driver_call "DELETE FROM results WHERE event_id IN (...)" ;;
          if failed then
            emit [Executed "ROLLBACK" true] ;;
            ret (Some (Errorf "error deleting results"))
          else
            let tx := SQL.delete_results_of locationID tx in
            failed <- driver_call "DELETE FROM events WHERE location_id = ?" ;;
            if failed then
              emit [Executed "ROLLBACK" true] ;;
              ret (Some (Errorf "error deleting events"))
            else
              let tx := SQL.delete_events_of locationID tx in
              failed <- driver_call "DELETE FROM locations WHERE id = ?" ;;
              if failed then
                emit [Executed "ROLLBACK" true] ;;
                ret (Some (Errorf "error deleting location"))
              else
                let tx := SQL.delete_location locationID tx in
                failed <- driver_call "COMMIT" ;;
                if failed then ret (Some (Errorf "error committing transaction"))
                else put_db tx ;; ret None
    end.

(** ** Go's [sort] *)

Module GoSort.

(** Go compares strings byte by byte. *)
Definition str_le (a b : string) : Prop := String.leb a b = true.

#[global] Instance str_le_dec a b : Decision (str_le a b).
Proof. unfold str_le. apply _. Defined.

(** Orders on rows by one of their columns. *)
Definition by_key {A} (key : A -> string) (a b : A) : Prop :=
  str_le (key a) (key b).

#[global] Instance by_key_dec {A} (key : A -> string) a b :
  Decision (by_key key a b).
Proof. unfold by_key. apply _. Defined.

Definition by_count_desc {A} (a b : A * Z) : Prop := snd b <= snd a.

#[global] Instance by_count_desc_dec {A} (a b : A * Z) :
  Decision (by_count_desc a b).
Proof. unfold by_count_desc. apply _. Defined.

(** [sort.Ints] and [sort.Strings]: the slice in increasing order. *)
Definition Ints (a : list Z) : list Z := merge_sort Z.le a.
Definition Strings (a : list string) : list string := merge_sort str_le a.

End GoSort.

(** ** reports.go

    The report functions only read.  They are embedded as functions of the
    database content; a failing read, which makes them return an error, is
    not among the cases below. *)

(** [RunnerStat]: its fields [Name] and [TotalRuns]; the queries leave the
    other fields at their zero values. *)
Record RunnerStat := { Name_ : string; TotalRuns_ : Z }.

Record TimeStats := { Category : string; Median : string; Count : Z }.

(** How a report function ends: it returns its value, returns an error, or
    the Go runtime panics. *)
Inductive Run (A : Type) :=
| Done (a : A)
| Failed (err : error)
| Panicked.
Arguments Done {A} a.
Arguments Failed {A} err.
Arguments Panicked {A}.

(** [COUNT( * ) ... GROUP BY key]: the distinct keys with the number of rows
    of each. *)
Definition group_count `{EqDecision K} (keys : list K) : list (K * Z) :=
  map (fun k => (k, Z.of_nat (length (List.filter (fun k' => bool_decide (k' = k)) keys))))
      (remove_dups keys).

(** [GetTopParticipants].  Where run counts tie, SQLite is free in the
    order; here the sort of the model settles it. *)
Definition GetTopParticipants (d : Database) (locationID : Z) (limit : Z)
  : list RunnerStat :=
  let rows :=
    List.filter (fun re => negb (String.eqb (r_name (fst re)) "Unknown"))
      (SQL.results_at locationID d) in
  let groups := group_count (map (fun re => r_name (fst re)) rows) in
  let ordered := merge_sort GoSort.by_count_desc groups in
  map (fun g => {| Name_ := fst g; TotalRuns_ := snd g |}) (SQL.LIMIT limit ordered).

(** The rows of the median query:
    [SELECT age_category, time_seconds ... WHERE e.location_id = ? AND
     time_seconds > 0 AND age_category != '' ORDER BY age_category]. *)
Definition median_rows (d : Database) (locationID : Z) : list (string * Z) :=
  let selected :=
    re ← SQL.results_at locationID d;
    match r_age_category (fst re), r_time_seconds (fst re) with
    | Some category, Some timeSeconds =>
        if (0 <? timeSeconds) && negb (String.eqb category "")
        then [(category, timeSeconds)] else []
    | _, _ => []
    end in
  merge_sort (GoSort.by_key fst) selected.

(** [categoryTimes[category] = append(categoryTimes[category], timeSeconds)]. *)
Definition append_time (m : gmap string (list Z)) (row : string * Z)
  : gmap string (list Z) :=
  <[fst row := (default [] (m !! fst row) ++ [snd row])%list]> m.

(** The median of one category: [times] is indexed only under [n > 0]. *)
Definition median_of (times : list Z) : Z :=
  let times := GoSort.Ints times in
  let n := Z.of_nat (length times) in
  if (GoInt.rem n 2 =? 0) && (0 <? n)
  then GoInt.quot
         (GoInt.add (nth (Z.to_nat (GoInt.quot n 2 - 1)) times 0)
                    (nth (Z.to_nat (GoInt.quot n 2)) times 0))
         2
  else if 0 <? n then nth (Z.to_nat (GoInt.quot n 2)) times 0
  else 0.

Definition GetMedianTimesByAgeCategory (d : Database) (locationID : Z)
  : list TimeStats :=
  let categoryTimes := fold_left append_time (median_rows d locationID) ∅ in
  let stats :=
    map (fun ct : string * list Z =>
           {| Category := fst ct;
              Median := secondsToTime (median_of (snd ct));
              Count := Z.of_nat (length (snd ct)) |})
        (map_to_list categoryTimes) in
  merge_sort (GoSort.by_key Category) stats.

(** The values [GetLocationStats] puts into its map.  The dates of the
    biggest and the smallest event, which SQLite picks freely among ties,
    are left out; the average is kept as the pair (participants, events). *)
Record LocationStats := {
  first_event : Time;
  last_event : Time;
  biggest_event_count : Z;
  smallest_event_count : Z;
  total_events : Z;
  total_runners : Z;
  avg_participants : Z * Z
}.

Definition Time_leb (a b : Time) : bool :=
  (Year a <? Year b)
  || ((Year a =? Year b)
      && ((Month a <? Month b) || ((Month a =? Month b) && (Day a <=? Day b)))).

Definition Time_min (a b : Time) : Time := if Time_leb a b then a else b.
Definition Time_max (a b : Time) : Time := if Time_leb a b then b else a.

(** [SELECT COUNT(DISTINCT name) FROM results r JOIN events e ON
    r.event_id = e.id WHERE e.location_id = ?]. *)
Definition count_distinct_names (d : Database) (locationID : Z) : Z :=
  Z.of_nat
    (length (remove_dups (map (fun re => r_name (fst re))
                            (SQL.results_at locationID d)))).

Definition GetLocationStats (d : Database) (locationID : Z)
  : LocationStats + error :=
  let evs := List.filter (fun e => e_location_id e =? locationID) (events d) in
  match map e_date evs with
  | [] => inr (Errorf "event dates error")        (* MIN(date) is NULL *)
  | t :: ts =>
      let firstEvent := fold_right Time_min t ts in
      let lastEvent := fold_right Time_max t ts in
      let counts :=
        map snd (group_count (map (fun re => e_id (snd re))
                                (SQL.results_at locationID d))) in
      match counts with
      | [] => inr (Errorf "biggest event error")  (* sql.ErrNoRows *)
      | c :: cs =>
          inl {| first_event := firstEvent;
                 last_event := lastEvent;
                 biggest_event_count := fold_right Z.max c cs;
                 smallest_event_count := fold_right Z.min c cs;
                 total_events := Z.of_nat (length evs);
                 total_runners := count_distinct_names d locationID;
                 avg_participants :=
                   (fold_right Z.add 0 counts, Z.of_nat (length counts)) |}
      end
  end.

Definition calculateMedianTime (times : list string) : string :=
  match times with
  | [] => "N/A"
  | _ =>
      let times := GoSort.Strings times in
      nth (Nat.div (length times) 2) times ""
  end.

Definition GetAvailableLocations (d : Database) : list string :=
  GoSort.Strings (map l_slug (locations d)).

(** The bucket of a category; [None] is the panic of [Category[:2]]. *)
Definition groupName_of (category : string) : option string :=
  match GoStrings.slice_to category 2 with
  | None => None
  | Some prefix =>
      Some (if String.eqb prefix "JM" || String.eqb prefix "JW" then "Juniors"
            else if String.eqb prefix "SM" || String.eqb prefix "VM" then "Men"
            else if String.eqb prefix "SW" || String.eqb prefix "VW" then "Women"
            else "Other")
  end.

(** The two maps of the grouping loop of [PrintReports]. *)
Record Grouping := {
  groups : gmap string (list TimeStats);
  groupTimes : gmap string (list string)
}.

Definition group_step (acc : option Grouping) (stat : TimeStats)
  : option Grouping :=
  match acc with
  | None => None
  | Some g =>
      match groupName_of (Category stat) with
      | None => None
      | Some groupName =>
          Some {| groups :=
                    <[groupName :=
                        (default [] (groups g !! groupName) ++ [stat])%list]>
                      (groups g);
                  groupTimes :=
                    <[groupName :=
                        (default [] (groupTimes g !! groupName) ++
                         replicate (Z.to_nat (Count stat)) (Median stat))%list]>
                      (groupTimes g) |}
      end
  end.

(** What [PrintReports] prints: the summary, the top ten, and per group its
    name, its overall median and its categories. *)
Record Report := {
  rep_stats : LocationStats;
  rep_runners : list RunnerStat;
  rep_groups : list (string * string * list TimeStats)
}.

Definition PrintReports (d : Database) (locationSlug : string) : Run Report :=
  match SQL.select_location_id locationSlug d with
  | None =>
      let locations := GetAvailableLocations d in
      let msg :=
        "Location '" ++ locationSlug ++ "' not found in database. Available locations:" in
      Failed (Errorf
                match locations with
                | [] => msg ++ " No locations found. Try parsing some data first."
                | _ => fold_left (fun m loc => m ++ " " ++ loc) locations msg
                end)
  | Some locationID =>
      match GetLocationStats d locationID with
      | inr err => Failed err
      | inl stats =>
          let runners := GetTopParticipants d locationID 10 in
          let times := GetMedianTimesByAgeCategory d locationID in
          match fold_left group_step times
                  (Some {| groups := ∅; groupTimes := ∅ |}) with
          | None => Panicked
          | Some g =>
              let groupOrder := ["Juniors"; "Men"; "Women"; "Other"] in
              Done {| rep_stats := stats;
                      rep_runners := runners;
                      rep_groups :=
                        groupName ← groupOrder;
                        match groups g !! groupName with
                        | Some (s :: ss) =>
                            [(groupName,
                              calculateMedianTime
                                (default [] (groupTimes g !! groupName)),
                              s :: ss)]
                        | _ => []
                        end |}
          end
      end
  end.

(** [getLocationStats]: the stats together with the location id. *)
Definition getLocationStats (d : Database) (locationSlug : string)
  : (LocationStats * Z) + error :=
  match SQL.select_location_id locationSlug d with
  | None => inr (Errorf "location not found")
  | Some locationID =>
      match GetLocationStats d locationID with
      | inr err => inr err
      | inl stats => inl (stats, locationID)
      end
  end.

(** The four slices of the comparison's grouping loop. *)
Record Buckets := {
  juniors : list string; males : list string;
  females : list string; others : list string
}.

Definition bucket_step (acc : option Buckets) (cat : string) : option Buckets :=
  match acc with
  | None => None
  | Some b =>
      match GoStrings.slice_to cat 2 with
      | None => None
      | Some prefix =>
          Some
            (if String.eqb prefix "JM" || String.eqb prefix "JW"
             then {| juniors := (juniors b ++ [cat])%list; males := males b;
                     females := females b; others := others b |}
             else if String.eqb prefix "SM" || String.eqb prefix "VM"
             then {| juniors := juniors b; males := (males b ++ [cat])%list;
                     females := females b; others := others b |}
             else if String.eqb prefix "SW" || String.eqb prefix "VW"
             then {| juniors := juniors b; males := males b;
                     females := (females b ++ [cat])%list; others := others b |}
             else {| juniors := juniors b; males := males b;
                     females := females b; others := (others b ++ [cat])%list |})
      end
  end.

(** [printCategoryComparisons]: a line per category, "N/A" where a side
    has no such category. *)
Definition printCategoryComparisons (categories : list string)
    (medians1 medians2 : gmap string TimeStats) : list (string * string * string) :=
  map (fun cat =>
         match medians1 !! cat, medians2 !! cat with
         | Some t1, Some t2 => (cat, Median t1, Median t2)
         | Some t1, None => (cat, Median t1, "N/A")
         | None, Some t2 => (cat, "N/A", Median t2)
         | None, None => (cat, "N/A", "")  (* zero [TimeStats] *)
         end)
      categories.

Record Comparison := {
  cmp_stats1 : LocationStats;
  cmp_stats2 : LocationStats;
  cmp_sections : list (string * list (string * string * string))
}.

Definition PrintComparisonReport (d : Database) (location1 location2 : string)
  : Run Comparison :=
  match getLocationStats d location1 with
  | inr err => Failed err
  | inl (stats1, id1) =>
      match getLocationStats d location2 with
      | inr err => Failed err
      | inl (stats2, id2) =>
          let times1 := GetMedianTimesByAgeCategory d id1 in
          let times2 := GetMedianTimesByAgeCategory d id2 in
          let medians1 : gmap string TimeStats :=
            fold_left (fun m t => <[Category t := t]> m) times1 ∅ in
          let medians2 : gmap string TimeStats :=
            fold_left (fun m t => <[Category t := t]> m) times2 ∅ in
          let categories : gset string :=
            list_to_set (map Category times1 ++ map Category times2)%list in
          match fold_left bucket_step (elements categories)
                  (Some {| juniors := []; males := [];
                           females := []; others := [] |}) with
          | None => Panicked
          | Some b =>
              let section (title : string) (cats : list string) :=
                match cats with
                | [] => []
                | _ => [(title,
                         printCategoryComparisons (GoSort.Strings cats)
                           medians1 medians2)]
                end in
              Done {| cmp_stats1 := stats1;
                      cmp_stats2 := stats2;
                      cmp_sections :=
                        (section "Juniors:" (juniors b) ++
                         section "Males:" (males b) ++
                         section "Females:" (females b) ++
                         section "Others:" (others b))%list |}
          end
      end
  end.

(** ** main.go: [parseAndStoreResults] *)

(** The variables of the ingest loop. *)
Record LoopState := { eventID : Z; consecutiveErrors : Z }.

(** How one pass through the loop body leaves it. *)
Inductive Control := Continue | Break | Return.

(** Durations in seconds. *)
Definition waitBetweenRequests : Z := 5.
Definition rateLimitBackoff : Z := 180.
Definition maxConsecutiveErrors : Z := 3.

(** The path of an error that is neither 405 nor 425. *)
Definition countError (st : LoopState) : M (Control * LoopState) :=
  let st :=
    {| eventID := eventID st;
       consecutiveErrors := GoInt.add (consecutiveErrors st) 1 |} in
  if maxConsecutiveErrors <=? consecutiveErrors st then
    log_Printf "Reached %d consecutive errors. Stopping."
      [IntArg maxConsecutiveErrors] ;;
    ret (Break, st)
  else
    time_Sleep waitBetweenRequests ;;
    ret (Continue, st).

(** One pass through the body of the [for] loop; [x] is what the GET of
    this pass meets. *)
Definition loopBody (urlSlug : string) (locationID : Z) (x : HTTPExchange)
    (st : LoopState) : M (Control * LoopState) :=
  let '(fetched, logs) := ParseResults urlSlug (eventID st) x in
  emit logs ;;
  match fetched with
  | inr err =>
      log_Printf "Error processing event %d: %v" [IntArg (eventID st)] ;;
      match err with
      | ErrHTTP httpErr =>
          if StatusCode httpErr =? 405 then
            log_Printf "Rate limited, waiting %d seconds before retry..."
              [IntArg rateLimitBackoff] ;;
            time_Sleep rateLimitBackoff ;;
            ret (Continue, st)
          else if StatusCode httpErr =? 425 then
            log_Printf "Reached end of events (425 error). Scraping complete." [] ;;
            ret (Return, st)
          else countError st
      | Errorf _ => countError st
      end
  | inl (event, results) =>
      let event :=
        {| EventNumber := EventNumber event; LocationID := locationID;
           Date := Date event; URL := URL event |} in
      let st := {| eventID := eventID st; consecutiveErrors := 0 |} in
      stored <- StoreEvent event ;;
      match stored with
      | inr err =>
          log_Printf "Error storing event %d: %v" [IntArg (eventID st)] ;;
          ret (Continue, st)
      | inl dbEventID =>
          (if (0 <? length results)%nat then StoreResults results dbEventID
           else ret tt) ;;
          let st :=
            {| eventID := GoInt.add (eventID st) 1;
               consecutiveErrors := consecutiveErrors st |} in
          time_Sleep waitBetweenRequests ;;
          ret (Continue, st)
      end
  end.

(** How the loop stands when the answers [xs] are used up or it has left:
    it returned from the function, it broke out, or it waits for the answer
    to its next request. *)
Inductive LoopEnd :=
| Returned (st : LoopState)
| Broke (st : LoopState)
| Waiting (st : LoopState).

Fixpoint ingestLoop (urlSlug : string) (locationID : Z)
    (xs : list HTTPExchange) (st : LoopState) : M LoopEnd :=
  match xs with
  | [] => ret (Waiting st)
  | x :: xs' =>
      cs <- loopBody urlSlug locationID x st ;;
      match fst cs with
      | Continue => ingestLoop urlSlug locationID xs' (snd cs)
      | Break => ret (Broke (snd cs))
      | Return => ret (Returned (snd cs))
      end
  end.

Definition parseAndStoreResults (urlSlug : string) (clearData : bool)
    (xs : list HTTPExchange) : M LoopEnd :=
  failed <- driver_call "sql.Open" ;;
  if failed then log_Fatal "Failed to connect to database:"
  else
    log_Printf "Successfully connected to database" [] ;;
    CreateTables ;;
    (if clearData then
       err <- ClearLocationData urlSlug ;;
       match err with
       | Some _ => log_Fatal "Failed to clear existing data:"
       | None => log_Printf "Cleared existing data for %s" [StrArg urlSlug]
       end
     else ret tt) ;;
    failed <- driver_call "INSERT OR IGNORE INTO locations RETURNING id" ;;
    d <- get_db ;;
    locationID <-
      match (if failed then None
             else SQL.insert_or_ignore_location urlSlug "AUS" d) with
      | Some (id, d') => put_db d' ;; ret id
      | None =>
          failed <- driver_call "SELECT id FROM locations WHERE slug = ?" ;;
          match (if failed then None else SQL.select_location_id urlSlug d) with
          | Some id => ret id
          | None => log_Fatal "Failed to get location ID:"
          end
      end ;;
    log_Printf "Using location ID: %d" [IntArg locationID] ;;
    eventID0 <- GetNextEventNumber locationID ;;
    log_Printf "Starting from event number: %d" [IntArg eventID0] ;;
    ended <- ingestLoop urlSlug locationID xs
               {| eventID := eventID0; consecutiveErrors := 0 |} ;;
    match ended with
    | Broke st =>
        log_Printf "Scraping complete. Processed up to event %d"
          [IntArg (GoInt.add (eventID st) (-1))] ;;
        ret ended
    | _ => ret ended
    end.

(** ** main.go: [main]

    The arguments of the process decide what runs.  The [parse] command
    has one flag, the boolean [clear], read by Go's [flag] package with
    [flag.ExitOnError]. *)

Module GoFlag.

(** [strconv.ParseBool]. *)
Definition ParseBool (str : string) : option bool :=
  if existsb (String.eqb str) ["1"; "t"; "T"; "TRUE"; "true"; "True"]
  then Some true
  else if existsb (String.eqb str) ["0"; "f"; "F"; "FALSE"; "false"; "False"]
  then Some false
  else None.

(** The text before the first '=' and the text after it. *)
Fixpoint cut_value (s : string) : string * option string :=
  match s with
  | EmptyString => (EmptyString, None)
  | String c r =>
      if Ascii.eqb c "=" then (EmptyString, Some r)
      else let '(n, v) := cut_value r in (String c n, v)
  end.

(** What [parseOne] makes of the next argument: it is no flag and stays,
    it is the terminator "--", it sets the flag, or the process exits (2
    on a bad flag; 0 after -h or -help, as Go does since 1.15). *)
Inductive Step :=
| NoFlag
| Terminator
| Flag (clear : bool)
| Exit (code : Z).

Definition parseOne (s : string) : Step :=
  match s with
  | String "-"%char (String c1 r1) =>
      if Ascii.eqb c1 "-" && String.eqb r1 "" then Terminator
      else
        match (if Ascii.eqb c1 "-" then r1 else String c1 r1) with
        | EmptyString => Exit 2
        | String c r =>
            if Ascii.eqb c "-" || Ascii.eqb c "=" then Exit 2
            else
              let '(n, value) := cut_value r in
              let name := String c n in
              if String.eqb name "clear" then
                match value with
                | None => Flag true
                | Some v =>
                    match ParseBool v with
                    | Some b => Flag b
                    | None => Exit 2
                    end
                end
              else if String.eqb name "help" || String.eqb name "h" then Exit 0
              else Exit 2
        end
  | _ => NoFlag
  end.

(** [FlagSet.Parse]: the value of the flag and the arguments left, or the
    exit code. *)
Fixpoint Parse (args : list string) (clear : bool) : (bool * list string) + Z :=
  match args with
  | [] => inl (clear, [])
  | s :: rest =>
      match parseOne s with
      | NoFlag => inl (clear, args)
      | Terminator => inl (clear, rest)
      | Flag clear' => Parse rest clear'
      | Exit code => inr code
      end
  end.

End GoFlag.

(** What [main] goes on to do. *)
Inductive Action :=
| PrintUsage                                (* printUsage(); os.Exit(1) *)
| Exited (code : Z)                         (* the flag package ended the process *)
| RunParse (urlSlug : string) (clearData : bool)
| RunReport (urlSlug : string)
| RunCompare (location1 location2 : string).

Definition main (args : list string) : Action :=
  match args with
  | _ :: command :: rest =>
      if String.eqb command "parse" then
        match GoFlag.Parse rest false with
        | inr code => Exited code
        | inl (_, []) => PrintUsage
        | inl (clearData, urlSlug :: _) => RunParse urlSlug clearData
        end
      else if String.eqb command "report" then
        match rest with
        | [] => PrintUsage
        | urlSlug :: _ => RunReport urlSlug
        end
      else if String.eqb command "compare" then
        match rest with
        | [location1; location2] => RunCompare location1 location2
        | _ => PrintUsage
        end
      else PrintUsage
  | _ => PrintUsage
  end.

(** ** Predicates of the properties and the databases, pages and events of
    the examples *)

(** A page with three rows whose positions are "abc", absent and "-3". *)
Definition page_with_bad_positions : Document :=
  {| format_date := "01/01/2023";
     table_rows :=
       [ {| data_position := Some "abc"; data_name := Some "Runner X";
            data_agegroup := Some "VM35-39"; time_compact := "20:00";
            detailed := "12 parkruns"; data_agegrade := Some "60.00";
            data_achievement := Some "" |};
         {| data_position := None; data_name := Some "Unknown";
            data_agegroup := None; time_compact := "";
            detailed := ""; data_agegrade := None;
            data_achievement := None |};
         {| data_position := Some "-3"; data_name := Some "Runner Y";
            data_agegroup := Some "SW30-34"; time_compact := " 21:00 ";
            detailed := "3 parkruns"; data_agegrade := Some "55.00";
            data_achievement := Some "" |} ] |}.

(** Event 1 of location 1 and its single result. *)
Definition event_1 : Event :=
  {| EventNumber := 1; LocationID := 1;
     Date := {| Year := 2023; Month := 1; Day := 1 |};
     URL := "https://www.parkrun.com.au/bushy/results/1/" |}.

Definition results_1 : list Result :=
  [ {| Position := 1; Name := "Runner A"; Time_ := "20:00";
       TimeSeconds := 1200; AgeGrade := "65.5%"; AgeCategory := "VM35-39";
       Note := ""; TotalRuns := 10; EventID := 0 |} ].

(** [StoreEvent] followed by [StoreResults] under the returned id, as the
    ingest loop calls them. *)
Definition store (event : Event) (rs : list Result) : M unit :=
  stored <- StoreEvent event ;;
  match stored with
  | inl dbEventID => StoreResults rs dbEventID
  | inr _ => ret tt
  end.

(** The database after the location 'bushy' was inserted, no driver
    failure ahead. *)
Definition fresh_world : World :=
  {| db := {| locations :=
                [ {| l_id := 1; l_slug := "bushy"; l_name := None;
                     l_country := "AUS" |} ];
              events := []; results := [];
              seq_locations := 1; seq_events := 0; seq_results := 0 |};
     faults := []; trace := [] |}.

(** Event 1 stored once, and stored a second time. *)
Definition stored_once : World := snd (store event_1 results_1 fresh_world).
Definition stored_twice : World := snd (store event_1 results_1 stored_once).

(** A location with two events, each with Runner A and an anonymous
    entrant. *)
Definition db_with_placeholder : Database :=
  let unknown id ev :=
    {| r_id := id; r_position := 2; r_name := "Unknown";
       r_time_seconds := None; r_age_grade := Some ""; r_age_category := Some "";
       r_note := Some ""; r_total_runs := Some 0; r_event_id := Some ev |} in
  let runner id ev :=
    {| r_id := id; r_position := 1; r_name := "Runner A";
       r_time_seconds := Some 1200; r_age_grade := Some "65.5%";
       r_age_category := Some "VM35-39"; r_note := Some "";
       r_total_runs := Some 10; r_event_id := Some ev |} in
  {| locations :=
       [ {| l_id := 1; l_slug := "bushy"; l_name := None; l_country := "AUS" |} ];
     events :=
       [ {| e_id := 1; e_event_number := 1; e_location_id := 1;
            e_date := {| Year := 2023; Month := 1; Day := 1 |}; e_url := "u1" |};
         {| e_id := 2; e_event_number := 2; e_location_id := 1;
            e_date := {| Year := 2023; Month := 1; Day := 8 |}; e_url := "u2" |} ];
     results := [runner 1 1; unknown 2 1; runner 3 2; unknown 4 2];
     seq_locations := 1; seq_events := 2; seq_results := 4 |}.

(** Event 2 of location 1. *)
Definition event_2 : Event :=
  {| EventNumber := 2; LocationID := 1;
     Date := {| Year := 2023; Month := 1; Day := 8 |};
     URL := "https://www.parkrun.com.au/bushy/results/2/" |}.

(** The three deletes, in the order of the transaction. *)
Definition cleared (locationID : Z) (d : Database) : Database :=
  SQL.delete_location locationID
    (SQL.delete_events_of locationID (SQL.delete_results_of locationID d)).

(** The driver calls of a clearing that meets no failure. *)
Definition clear_calls : list Effect :=
  [ Executed "SELECT id FROM locations WHERE slug = ?" true;
    Executed "BEGIN" true;
    Executed "DELETE FROM results WHERE event_id IN (...)" true;
    Executed "DELETE FROM events WHERE location_id = ?" true;
    Executed "DELETE FROM locations WHERE id = ?" true;
    Executed "COMMIT" true ].

(** A computation that always yields a value and only appends quiet
    effects (no pause, no request) to the trace. *)
Definition quiet {A} (m : M A) : Prop :=
  forall w, exists a w' es,
    m w = (Ok a, w') /\ trace w' = (trace w ++ es)%list /\
    sleeps es = [] /\ requests es = [].

(** The event as the loop hands it to [StoreEvent]. *)
Definition withLocation (event : Event) (locationID : Z) : Event :=
  {| EventNumber := EventNumber event; LocationID := locationID;
     Date := Date event; URL := URL event |}.

(** [StoreEvent] succeeds in [w]: the driver call does not fail and the
    table has a rowid left. *)
Definition stores (event : Event) (w : World) : Prop :=
  hd false (faults w) = false /\
  exists id d', SQL.insert_or_replace_event event (db w) = Some (id, d').

(** The page of an event with one finisher. *)
Definition page_1 : Document :=
  {| format_date := "01/01/2023";
     table_rows :=
       [ {| data_position := Some "1"; data_name := Some "Runner A";
            data_agegroup := Some "VM35-39"; time_compact := "20:00";
            detailed := "10 parkruns"; data_agegrade := Some "65.50";
            data_achievement := Some "" |} ] |}.

(** The times of a location's timed results in one category, in table
    order. *)
Definition times_of (d : Database) (locationID : Z) (category : string)
  : list Z :=
  omap (fun re : ResultRow * EventRow =>
          match r_age_category (fst re), r_time_seconds (fst re) with
          | Some c, Some t =>
              if String.eqb c category && (0 <? t) then Some t else None
          | _, _ => None
          end)
       (SQL.results_at locationID d).

(** The second column of the rows whose first column is [c]. *)
Definition pick (c : string) (rows : list (string * Z)) : list Z :=
  map snd (List.filter (fun row => String.eqb (fst row) c) rows).

(** A timed result of the location in a non-empty category. *)
Definition timed_in (d : Database) (locationID : Z) (category : string) : Prop :=
  exists re t,
    In re (SQL.results_at locationID d) /\
    r_age_category (fst re) = Some category /\
    r_time_seconds (fst re) = Some t /\ 0 < t.

(** Every stored non-empty category has at least two bytes. *)
Definition categories_sliceable (d : Database) : Prop :=
  forall r c, In r (results d) -> r_age_category r = Some c -> c <> "" ->
              (2 <= String.length c)%nat.

(** A location whose only result in a one-character category has no time,
    and the same location with that result timed. *)
Definition db_short_category (timeSeconds : option Z) : Database :=
  {| locations :=
       [ {| l_id := 1; l_slug := "bushy"; l_name := None; l_country := "AUS" |} ];
     events :=
       [ {| e_id := 1; e_event_number := 1; e_location_id := 1;
            e_date := {| Year := 2023; Month := 1; Day := 1 |}; e_url := "u1" |} ];
     results :=
       [ {| r_id := 1; r_position := 1; r_name := "Runner A";
            r_time_seconds := Some 1200; r_age_grade := Some "65.5%";
            r_age_category := Some "VM35-39"; r_note := Some "";
            r_total_runs := Some 10; r_event_id := Some 1 |};
         {| r_id := 2; r_position := 2; r_name := "Runner B";
            r_time_seconds := timeSeconds; r_age_grade := Some "";
            r_age_category := Some "M"; r_note := Some "";
            r_total_runs := Some 1; r_event_id := Some 1 |} ];
     seq_locations := 1; seq_events := 1; seq_results := 2 |}.

(** A date of the calendar, years 0 to 9999. *)
Definition valid_date (t : Time) : Prop :=
  0 <= Year t <= 9999 /\ 1 <= Month t <= 12 /\
  1 <= Day t <= GoTime.daysIn (Month t) (Year t).

(** The columns of the two composite [UNIQUE] constraints; a NULL event id
    conflicts with nothing. *)
Definition result_key (r : ResultRow) : option (Z * Z) :=
  match r_event_id r with
  | Some e => Some (r_position r, e)
  | None => None
  end.

Definition event_key (e : EventRow) : Z * Z := (e_event_number e, e_location_id e).

(** The constraints [CreateTables] declares, foreign keys apart: the
    primary keys, [UNIQUE] on the slug, on (event_number, location_id) and
    on (position, event_id), and the [AUTOINCREMENT] sequences at or above
    every rowid. *)
Definition schema (d : Database) : Prop :=
  NoDup (map l_id (locations d)) /\ NoDup (map l_slug (locations d)) /\
  NoDup (map e_id (events d)) /\ NoDup (map event_key (events d)) /\
  NoDup (map r_id (results d)) /\ NoDup (omap result_key (results d)) /\
  (forall l, In l (locations d) -> l_id l <= seq_locations d) /\
  (forall e, In e (events d) -> e_id e <= seq_events d) /\
  (forall r, In r (results d) -> r_id r <= seq_results d).

(** A computation that keeps a property of the database, however it ends. *)
Definition preserves {A} (P : Database -> Prop) (m : M A) : Prop :=
  forall w, P (db w) -> P (db (snd (m w))).

(** No stored time is zero or negative: the column holds NULL instead. *)
Definition times_positive (d : Database) : Prop :=
  forall r t, In r (results d) -> r_time_seconds r = Some t -> 0 < t.

(** The largest event number stored for a location, 0 when it has none:
    [COALESCE(MAX(event_number), 0)]. *)
Definition last_event_number (d : Database) (locationID : Z) : Z :=
  SQL.COALESCE
    (SQL.MAX (map e_event_number
                (List.filter (fun e => e_location_id e =? locationID) (events d))))
    0.

(** The loop variables at the end of the loop. *)
Definition final_state (ended : LoopEnd) : LoopState :=
  match ended with Returned st | Broke st | Waiting st => st end.

(** The row [StoreResults] writes for a result under an event id. *)
Definition row_of (result : Result) (eventID : Z) (r : ResultRow) : Prop :=
  r_position r = Position result /\ r_name r = Name result /\
  r_time_seconds r =
    (if 0 <? TimeSeconds result then Some (TimeSeconds result) else None) /\
  r_age_grade r = Some (AgeGrade result) /\
  r_age_category r = Some (AgeCategory result) /\
  r_note r = Some (Note result) /\ r_total_runs r = Some (TotalRuns result) /\
  r_event_id r = Some eventID.

(** The rows at a position of an event, and the rows of an event. *)
Definition at_position (position eventID : Z) (r : ResultRow) : bool :=
  (r_position r =? position)
  && match r_event_id r with Some e => e =? eventID | None => false end.

Definition of_event (eventID : Z) (r : ResultRow) : bool :=
  match r_event_id r with Some e => e =? eventID | None => false end.

(** The number of result rows of a location's events under a name:
    [COUNT( * )] of the group of that name. *)
Definition runs_of (d : Database) (locationID : Z) (name : string) : Z :=
  Z.of_nat
    (length (List.filter (fun re => String.eqb (r_name (fst re)) name)
               (SQL.results_at locationID d))).

(** The answers that make a pass of the loop fail: HTTP 405, and every
    other failure but HTTP 425 (no request, no response, a status of 400 or
    more, an unreadable body), which the loop counts. *)
Definition rate_limited (x : HTTPExchange) : bool :=
  match x with
  | Responded status _ => status =? 405
  | _ => false
  end.

Definition counted_failure (x : HTTPExchange) : bool :=
  match x with
  | RequestInvalid | TransportFailed => true
  | Responded status body =>
      if 400 <=? status then negb (status =? 405) && negb (status =? 425)
      else match body with None => true | Some _ => false end
  end.

(** The statistics of a listing that fall into a group of [PrintReports],
    and the median strings of a group, each as often as its category has
    results. *)
Definition in_group (groupName : string) (stat : TimeStats) : bool :=
  match groupName_of (Category stat) with
  | Some name => String.eqb name groupName
  | None => false
  end.

Definition group_times (stats : list TimeStats) : list string :=
  stat ← stats; replicate (Z.to_nat (Count stat)) (Median stat).

(** The section of the comparison a category falls into; [None] is the
    panic of [cat[:2]]. *)
Definition section_of (cat : string) : option string :=
  match GoStrings.slice_to cat 2 with
  | None => None
  | Some prefix =>
      Some (if String.eqb prefix "JM" || String.eqb prefix "JW" then "Juniors:"
            else if String.eqb prefix "SM" || String.eqb prefix "VM" then "Males:"
            else if String.eqb prefix "SW" || String.eqb prefix "VW" then "Females:"
            else "Others:")
  end.

Definition in_section (title cat : string) : bool :=
  match section_of cat with
  | Some t => String.eqb t title
  | None => false
  end.

(** The slice of a section. *)
Definition bucket (b : Buckets) (title : string) : list string :=
  if String.eqb title "Juniors:" then juniors b
  else if String.eqb title "Males:" then males b
  else if String.eqb title "Females:" then females b
  else if String.eqb title "Others:" then others b
  else [].

(** The median a listing shows for a category, "N/A" when it has none. *)
Definition median_shown (times : list TimeStats) (cat : string) : string :=
  match List.find (fun t => String.eqb (Category t) cat) times with
  | Some t => Median t
  | None => "N/A"
  end.

(** Two locations with one event each: Runner A (VM35-39) ran at the
    first, Runner B (SW30-34) and Runner C (VM35-39) at the second. *)
Definition db_two_locations : Database :=
  let result id position name time category ev :=
    {| r_id := id; r_position := position; r_name := name;
       r_time_seconds := Some time; r_age_grade := Some "";
       r_age_category := Some category; r_note := Some "";
       r_total_runs := Some 1; r_event_id := Some ev |} in
  {| locations :=
       [ {| l_id := 1; l_slug := "bushy"; l_name := None; l_country := "AUS" |};
         {| l_id := 2; l_slug := "albert"; l_name := None; l_country := "AUS" |} ];
     events :=
       [ {| e_id := 1; e_event_number := 1; e_location_id := 1;
            e_date := {| Year := 2023; Month := 1; Day := 1 |}; e_url := "u1" |};
         {| e_id := 2; e_event_number := 1; e_location_id := 2;
            e_date := {| Year := 2023; Month := 1; Day := 7 |}; e_url := "u2" |} ];
     results :=
       [ result 1 1 "Runner A" 1200 "VM35-39" 1;
         result 2 1 "Runner B" 1300 "SW30-34" 2;
         result 3 2 "Runner C" 1400 "VM35-39" 2 ];
     seq_locations := 2; seq_events := 2; seq_results := 3 |}.

(** An argument that the flag package takes for a flag: a '-' and at least
    one more byte. *)
Definition flag_like (s : string) : bool :=
  match s with
  | String "-"%char (String _ _) => true
  | _ => false
  end.

(* ===================================================================== *)
(** * Part II: properties *)
(* ===================================================================== *)

(** ** Values computed by the embedding *)

Example timeToSeconds_mmss : timeToSeconds "23:45" = inl 1425.
Proof. reflexivity. Qed.
Example timeToSeconds_hmmss : timeToSeconds "1:23:45" = inl 5025.
Proof. reflexivity. Qed.
Example timeToSeconds_neg : timeToSeconds "-5:30" = inl (-270).
Proof. reflexivity. Qed.
Example secondsToTime_1190 : secondsToTime 1190 = "19:50".
Proof. reflexivity. Qed.
Example secondsToTime_3725 : secondsToTime 3725 = "1:02:05".
Proof. reflexivity. Qed.

Example parseEventDate_ddmmyyyy :
  parseEventDate "25/12/2023" = inl {| Year := 2023; Month := 12; Day := 25 |}.
Proof. reflexivity. Qed.
Example parseEventDate_dmyy :
  parseEventDate "5/6/23" = inl {| Year := 2023; Month := 6; Day := 5 |}.
Proof. reflexivity. Qed.
Example parseEventDate_iso : parseEventDate "2023-12-25" = inr (Errorf "parsing time").
Proof. reflexivity. Qed.


(** ** Go's [int] *)

Lemma wrap_in_range z :
  GoInt.min_int <= z <= GoInt.max_int -> GoInt.wrap z = z.
Proof.
  unfold GoInt.wrap, GoInt.min_int, GoInt.max_int. intros H.
  rewrite Z.mod_small; lia.
Qed.

Lemma add_exact a b :
  GoInt.min_int <= a + b <= GoInt.max_int -> GoInt.add a b = a + b.
Proof. apply wrap_in_range. Qed.

Lemma mul_exact a b :
  GoInt.min_int <= a * b <= GoInt.max_int -> GoInt.mul a b = a * b.
Proof. apply wrap_in_range. Qed.

Lemma quot_2 a : 0 <= a -> GoInt.quot a 2 = a / 2.
Proof.
  intros H. unfold GoInt.quot.
  replace (2 =? -1) with false by reflexivity.
  rewrite andb_false_r. apply Z.quot_div_nonneg; lia.
Qed.

(** ** [strings.Split] and [strconv.Atoi] *)

Lemma Split_nonempty s sep : GoStrings.Split s sep <> [].
Proof. destruct s as [|c s]; simpl; [done|]. by repeat case_match. Qed.

(** What [Atoi] accepts: an optional sign, then at least one digit and
    digits only, the value within the range of [int]. *)
Lemma Atoi_accepts s n :
  Strconv.Atoi s = (n, None) <->
  exists neg body v,
    (s = body /\ neg = false /\
       (forall r, body <> String "+"%char r) /\ (forall r, body <> String "-"%char r)
     \/ s = String "+"%char body /\ neg = false
     \/ s = String "-"%char body /\ neg = true) /\
    body <> "" /\ Strconv.digits 0 body = Some v /\
    n = (if neg then - v else v) /\ GoInt.in_range n = true.
Proof.
  unfold Strconv.Atoi. split.
  - intros H.
    destruct s as [|c r]; [discriminate|].
    destruct (Ascii.eqb_spec c "+"%char) as [->|Hp];
      [|destruct (Ascii.eqb_spec c "-"%char) as [->|Hm]].
    + destruct r as [|c' r']; [discriminate|].
      destruct (Strconv.digits 0 (String c' r')) as [v|] eqn:Hd; [|discriminate].
      destruct (GoInt.in_range v) eqn:Hr; [|discriminate].
      exists false, (String c' r'), v. simplify_eq. naive_solver.
    + destruct r as [|c' r']; [discriminate|].
      destruct (Strconv.digits 0 (String c' r')) as [v|] eqn:Hd; [|discriminate].
      destruct (GoInt.in_range (- v)) eqn:Hr; [|discriminate].
      exists true, (String c' r'), v. simplify_eq. naive_solver.
    + assert (Hs : (let '(neg, body) :=
                  match String c r with
                  | String "+"%char r0 => (false, r0)
                  | String "-"%char r0 => (true, r0)
                  | _ => (false, String c r)
                  end in (neg, body)) = (false, String c r)).
      { destruct c as [[] [] [] [] [] [] [] []]; try reflexivity;
          exfalso; (by apply Hp) || (by apply Hm). }
      revert H.
      destruct (match String c r with
                | String "+"%char r0 => (false, r0)
                | String "-"%char r0 => (true, r0)
                | _ => (false, String c r)
                end) as [neg body].
      injection Hs as -> ->. intros H.
      destruct (Strconv.digits 0 (String c r)) as [v|] eqn:Hd; [|discriminate].
      destruct (GoInt.in_range v) eqn:Hr; [|discriminate].
      exists false, (String c r), v. simplify_eq.
      split; [left; repeat split; congruence|done].
  - intros (neg & body & v & Hs & Hb & Hd & -> & Hr).
    destruct Hs as [(-> & -> & Hnp & Hnm)|[(-> & ->)|(-> & ->)]].
    + destruct body as [|c r]; [done|].
      assert (Hs : match String c r with
                  | String "+"%char r0 => (false, r0)
                  | String "-"%char r0 => (true, r0)
                  | _ => (false, String c r)
                  end = (false, String c r)).
      { destruct c as [[] [] [] [] [] [] [] []]; try reflexivity;
          exfalso; (by apply (Hnp r)) || (by apply (Hnm r)). }
      rewrite Hs, Hd, Hr. done.
    + destruct body; [done|]. by rewrite Hd, Hr.
    + destruct body; [done|]. by rewrite Hd, Hr.
Qed.

(** ** parser.go: [timeToSeconds] *)

Lemma timeToSeconds_split timeStr :
  timeStr <> "" -> timeStr <> "Unknown" ->
  timeToSeconds timeStr =
    match GoStrings.Split timeStr ":"%char with
    | [p0; p1] =>
        match Strconv.Atoi p0, Strconv.Atoi p1 with
        | (_, Some _), _ => inr (Errorf "invalid minutes")
        | (_, None), (_, Some _) => inr (Errorf "invalid seconds")
        | (minutes, None), (seconds, None) =>
            inl (GoInt.add (GoInt.mul minutes 60) seconds)
        end
    | [p0; p1; p2] =>
        match Strconv.Atoi p0, Strconv.Atoi p1, Strconv.Atoi p2 with
        | (_, Some _), _, _ => inr (Errorf "invalid hours")
        | (_, None), (_, Some _), _ => inr (Errorf "invalid minutes")
        | (_, None), (_, None), (_, Some _) => inr (Errorf "invalid seconds")
        | (hours, None), (minutes, None), (seconds, None) =>
            inl (GoInt.add
                   (GoInt.add (GoInt.mul hours 3600) (GoInt.mul minutes 60))
                   seconds)
        end
    | _ => inr (Errorf "invalid time format")
    end.
Proof.
  intros H1 H2. unfold timeToSeconds.
  destruct (String.eqb_spec timeStr ""); [done|].
  destruct (String.eqb_spec timeStr "Unknown"); [done|]. simpl.
  repeat case_match; simplify_eq; reflexivity.
Qed.

Lemma Split_two_not_placeholder timeStr ps :
  GoStrings.Split timeStr ":"%char = ps -> (2 <= length ps)%nat ->
  timeStr <> "" /\ timeStr <> "Unknown".
Proof.
  intros Hs Hl. split; intros ->; vm_compute in Hs; subst ps; simpl in Hl; lia.
Qed.

(** C5: for a two-segment input whose segments are non-negative integers
    [timeToSeconds] returns minutes*60+seconds, for a three-segment one
    hours*3600+minutes*60+seconds (Go's [int] arithmetic, which is the exact
    sum whenever that fits 64 bits); "23:45" gives 1425, "1:23:45" gives
    5025; the empty string and "Unknown" give 0 without an error. *)
Theorem timeToSeconds_computes :
  (forall timeStr p0 p1 minutes seconds,
      GoStrings.Split timeStr ":"%char = [p0; p1] ->
      Strconv.Atoi p0 = (minutes, None) -> 0 <= minutes ->
      Strconv.Atoi p1 = (seconds, None) -> 0 <= seconds ->
      timeToSeconds timeStr = inl (GoInt.add (GoInt.mul minutes 60) seconds) /\
      (minutes * 60 + seconds <= GoInt.max_int ->
       timeToSeconds timeStr = inl (minutes * 60 + seconds))) /\
  (forall timeStr p0 p1 p2 hours minutes seconds,
      GoStrings.Split timeStr ":"%char = [p0; p1; p2] ->
      Strconv.Atoi p0 = (hours, None) -> 0 <= hours ->
      Strconv.Atoi p1 = (minutes, None) -> 0 <= minutes ->
      Strconv.Atoi p2 = (seconds, None) -> 0 <= seconds ->
      timeToSeconds timeStr =
        inl (GoInt.add (GoInt.add (GoInt.mul hours 3600) (GoInt.mul minutes 60))
               seconds) /\
      (hours * 3600 + minutes * 60 + seconds <= GoInt.max_int ->
       timeToSeconds timeStr = inl (hours * 3600 + minutes * 60 + seconds))) /\
  timeToSeconds "23:45" = inl 1425 /\
  timeToSeconds "1:23:45" = inl 5025 /\
  timeToSeconds "" = inl 0 /\
  timeToSeconds "Unknown" = inl 0.
Proof.
  split; [|split; [|by vm_compute]].
  - intros timeStr p0 p1 minutes seconds Hs H0 Hm H1 Hsec.
    destruct (Split_two_not_placeholder timeStr _ Hs) as [Ha Hb]; [simpl; lia|].
    rewrite (timeToSeconds_split _ Ha Hb), Hs, H0, H1.
    split; [done|]. intros Hfit. f_equal.
    assert (GoInt.min_int <= 0) by (by vm_compute).
    rewrite mul_exact by lia. apply add_exact. lia.
  - intros timeStr p0 p1 p2 hours minutes seconds Hs H0 Hh H1 Hm H2 Hsec.
    destruct (Split_two_not_placeholder timeStr _ Hs) as [Ha Hb]; [simpl; lia|].
    rewrite (timeToSeconds_split _ Ha Hb), Hs, H0, H1, H2.
    split; [done|]. intros Hfit. f_equal.
    assert (GoInt.min_int <= 0) by (by vm_compute).
    rewrite !mul_exact by lia. rewrite (add_exact (hours * 3600)) by lia.
    apply add_exact. lia.
Qed.

Lemma timeToSeconds_computes_witness :
  timeToSeconds "07:05" = inl 425 /\ timeToSeconds "2:00:01" = inl 7201.
Proof.
  destruct timeToSeconds_computes as (H2 & H3 & _).
  split.
  - apply (H2 "07:05" "07" "05" 7 5); [reflexivity | reflexivity | lia
                                       | reflexivity | lia | by vm_compute].
  - apply (H3 "2:00:01" "2" "00" "01" 2 0 1);
      [reflexivity | reflexivity | lia | reflexivity | lia | reflexivity | lia
      | by vm_compute].
Defined.

(** C6, as the code has it: [timeToSeconds] fails exactly on the inputs
    other than "", "Unknown" and the strings of two or three
    colon-separated segments that [strconv.Atoi] all accepts (an optional
    sign and decimal digits within [int]); so it fails on a wrong segment
    count ("23:45:67:89") and on a non-numeric segment ("ab:cd"). *)
Theorem timeToSeconds_fails_iff timeStr :
  ((exists e, timeToSeconds timeStr = inr e) <->
   timeStr <> "" /\ timeStr <> "Unknown" /\
   ~ (let parts := GoStrings.Split timeStr ":"%char in
      (length parts = 2%nat \/ length parts = 3%nat) /\
      Forall (fun p => snd (Strconv.Atoi p) = None) parts)) /\
  (exists e, timeToSeconds "23:45:67:89" = inr e) /\
  (exists e, timeToSeconds "ab:cd" = inr e).
Proof.
  split; [|split; eexists; by vm_compute].
  split.
  - intros [e He].
    assert (Ha : timeStr <> "") by (intros ->; discriminate).
    assert (Hb : timeStr <> "Unknown") by (intros ->; discriminate).
    split; [done|split; [done|]].
    rewrite (timeToSeconds_split _ Ha Hb) in He. simpl.
    intros [Hl Hf]. revert He.
    destruct (GoStrings.Split timeStr ":"%char) as [|p0 [|p1 [|p2 [|p3 ps]]]];
      simpl in Hl; try lia.
    + inversion Hf as [|? ? A0 Hf1]; inversion Hf1 as [|? ? A1 _]; subst.
      destruct (Strconv.Atoi p0) as [? []], (Strconv.Atoi p1) as [? []];
        by simpl in *.
    + inversion Hf as [|? ? A0 Hf1]; inversion Hf1 as [|? ? A1 Hf2];
        inversion Hf2 as [|? ? A2 _]; subst.
      destruct (Strconv.Atoi p0) as [? []], (Strconv.Atoi p1) as [? []],
        (Strconv.Atoi p2) as [? []]; by simpl in *.
  - intros (Ha & Hb & Hn). rewrite (timeToSeconds_split _ Ha Hb).
    simpl in Hn.
    destruct (GoStrings.Split timeStr ":"%char) as [|p0 [|p1 [|p2 [|p3 ps]]]];
      try by eexists.
    + destruct (Strconv.Atoi p0) as [? []] eqn:H0; [by eexists|].
      destruct (Strconv.Atoi p1) as [? []] eqn:H1; [by eexists|].
      exfalso. apply Hn. split; [by left|].
      repeat constructor; by rewrite ?H0, ?H1.
    + destruct (Strconv.Atoi p0) as [? []] eqn:H0; [by eexists|].
      destruct (Strconv.Atoi p1) as [? []] eqn:H1; [by eexists|].
      destruct (Strconv.Atoi p2) as [? []] eqn:H2; [by eexists|].
      exfalso. apply Hn. split; [by right|].
      repeat constructor; by rewrite ?H0, ?H1, ?H2.
Qed.

(** C6 as stated fails: a negative segment is accepted, not rejected. *)
Lemma timeToSeconds_accepts_negative_segment :
  Strconv.Atoi "-5" = (-5, None) /\
  timeToSeconds "-5:30" = inl (-270) /\
  ~ (exists e, timeToSeconds "-5:30" = inr e).
Proof. split; [|split]; [by vm_compute..|]. intros [e He]. discriminate. Qed.

(** ** parser.go: [scrapeEvent] *)

(** What the row callback does with a row: it is dropped exactly when the
    entrant is named and the time does not convert. *)
Lemma scrapeRow_kept acc s :
  let name := AttrOr (data_name s) "" in
  let time := GoStrings.TrimSpace (time_compact s) in
  (name = "Unknown" \/ exists t, timeToSeconds time = inl t) ->
  length (results_ (scrapeRow acc s)) = S (length (results_ acc)) /\
  skippedRows (scrapeRow acc s) = skippedRows acc.
Proof.
  intros name time H. unfold scrapeRow. fold name. fold time.
  destruct (String.eqb_spec name "Unknown") as [E|E]; simpl.
  - rewrite length_app. simpl. split; [lia|done].
  - destruct H as [H|[t Ht]]; [done|]. rewrite Ht. simpl.
    rewrite length_app. simpl. split; [lia|done].
Qed.

(** C4 at a page whose rows carry the positions "abc", none and "-3":
    none is a positive integer, yet all three rows are returned (with
    positions 0, 0 and -3) and the skipped tally stays 0. *)
Lemma scrapeEvent_keeps_rows_without_position :
  let sc := scrapeRows (table_rows page_with_bad_positions) in
  map Position (results_ sc) = [0; 0; -3] /\
  processedRows sc = 3 /\ skippedRows sc = 0 /\
  exists ev rs log,
    scrapeEvent "https://www.parkrun.com.au/bushy/results/1/" 1
      (Responded 200 (Some page_with_bad_positions)) = (inl (ev, rs), log) /\
    map Position rs = [0; 0; -3] /\
    In (Logged "Processed %d rows, skipped %d invalid rows" [IntArg 3; IntArg 0]) log.
Proof.
  repeat split; try by vm_compute.
  eexists _, _, _. split; [by vm_compute|]. split; [reflexivity|].
  simpl. tauto.
Qed.

(** ** db.go: storing an event twice *)

(** C2 at the database that holds event 1 of location 1 with one result:
    storing the same event and the same result again gives the event a new
    rowid (1 becomes 2) and inserts the result a second time under the new
    event id, the old row staying behind: the results table grows from one
    row to two. *)
Lemma StoreEvent_again_duplicates_results :
  map e_id (events (db stored_once)) = [1] /\
  map (fun r => (r_id r, r_position r, r_event_id r)) (results (db stored_once))
    = [(1, 1, Some 1)] /\
  map e_id (events (db stored_twice)) = [2] /\
  map (fun r => (r_id r, r_position r, r_event_id r)) (results (db stored_twice))
    = [(1, 1, Some 1); (2, 1, Some 2)] /\
  length (results (db stored_twice)) <> length (results (db stored_once)) /\
  events (db stored_twice) <> events (db stored_once).
Proof.
  split; [by vm_compute|]. split; [by vm_compute|].
  split; [by vm_compute|]. split; [by vm_compute|].
  split; vm_compute; intros H; [discriminate|by inversion H].
Qed.

(** ** reports.go: the placeholder name in the aggregations *)

Lemma group_count_keys `{EqDecision K} (keys : list K) k n :
  In (k, n) (group_count keys) -> In k keys.
Proof.
  unfold group_count. rewrite in_map_iff. intros (k' & [= <- _] & Hin).
  apply list_elem_of_In. apply list_elem_of_In in Hin.
  by apply elem_of_remove_dups.
Qed.

Lemma LIMIT_In {A} n (l : list A) x : In x (SQL.LIMIT n l) -> In x l.
Proof.
  unfold SQL.LIMIT. destruct (n <? 0); [done|].
  intros H. rewrite <- (firstn_skipn (Z.to_nat n) l). apply in_or_app. by left.
Qed.

(** The top-participants query never lists the placeholder name. *)
Lemma GetTopParticipants_excludes_Unknown d locationID limit stat :
  In stat (GetTopParticipants d locationID limit) -> Name_ stat <> "Unknown".
Proof.
  unfold GetTopParticipants. rewrite in_map_iff.
  intros ([name n] & <- & Hin). simpl.
  apply LIMIT_In in Hin. apply list_elem_of_In in Hin.
  rewrite merge_sort_Permutation in Hin. apply list_elem_of_In in Hin.
  apply group_count_keys in Hin. rewrite in_map_iff in Hin.
  destruct Hin as (re & <- & Hre). apply filter_In in Hre as [_ Hre].
  destruct (String.eqb_spec (r_name re.1) "Unknown"); [discriminate|done].
Qed.

(** C9 at a location whose two events each have "Runner A" and one
    "Unknown" entrant: the top participants are Runner A alone, but the
    summary counts two distinct runners, the placeholder being one. *)
Lemma GetLocationStats_counts_Unknown :
  GetTopParticipants db_with_placeholder 1 10
    = [ {| Name_ := "Runner A"; TotalRuns_ := 2 |} ] /\
  exists stats,
    GetLocationStats db_with_placeholder 1 = inl stats /\
    total_runners stats = 2.
Proof. split; [by vm_compute|]. eexists. split; by vm_compute. Qed.

(** ** db.go: [GetNextEventNumber] *)

Lemma fold_max_spec (z : Z) (zs : list Z) :
  In (fold_right Z.max z zs) (z :: zs) /\
  forall n, In n (z :: zs) -> n <= fold_right Z.max z zs.
Proof.
  induction zs as [|y zs [IHin IHmax]]; simpl.
  - split; [by left|]. intros n [->|[]]. lia.
  - split.
    + destruct (Z.max_spec y (fold_right Z.max z zs)) as [[_ ->]|[_ ->]].
      * destruct IHin as [E|Hin]; [by left|by right; right].
      * by right; left.
    + intros n [->|[->|Hn]].
      * specialize (IHmax n (or_introl eq_refl)). lia.
      * lia.
      * specialize (IHmax n (or_intror Hn)). lia.
Qed.

Lemma MAX_spec zs m :
  SQL.MAX zs = Some m -> In m zs /\ forall n, In n zs -> n <= m.
Proof.
  destruct zs as [|z zs]; [discriminate|]. intros [= <-]. apply fold_max_spec.
Qed.

(** C7: [GetNextEventNumber] returns 1 plus the largest event number stored
    for the location, and 1 when the location has no events; with events 1
    and 2 stored it returns 3.  (The sum is Go's; the query failing, 1 is
    returned as well.) *)
Theorem GetNextEventNumber_next locationID w :
  let numbers :=
    map e_event_number
      (List.filter (fun e => e_location_id e =? locationID) (events (db w))) in
  (exists next w',
      GetNextEventNumber locationID w = (Ok next, w') /\ db w' = db w /\
      (hd false (faults w) = true -> next = 1) /\
      (hd false (faults w) = false ->
       (numbers = [] -> next = 1) /\
       (numbers <> [] ->
        exists m, In m numbers /\ (forall n, In n numbers -> n <= m) /\
                  next = GoInt.add 1 m /\
                  (GoInt.min_int <= m < GoInt.max_int -> next = 1 + m)))) /\
  fst (GetNextEventNumber 1 fresh_world) = Ok 1 /\
  fst (GetNextEventNumber 1
         (snd (store event_2 [] (snd (store event_1 [] fresh_world))))) = Ok 3.
Proof.
  intros numbers. split; [|split; by vm_compute].
  unfold GetNextEventNumber, bind, driver_call, get_db, ret, log_Printf, emit.
  destruct w as [d fs tr]; simpl in *.
  destruct fs as [|[] fs]; simpl.
  - eexists _, _. split; [reflexivity|]. split; [done|]. split; [done|].
    intros _. fold numbers. split.
    + intros ->. by vm_compute.
    + intros Hne. destruct (SQL.MAX numbers) as [m|] eqn:Hm.
      * destruct (MAX_spec _ _ Hm) as [Hin Hmax].
        exists m. simpl. unfold GoInt.add. rewrite (Z.add_comm m 1).
        repeat split; try done. intros Hr. apply wrap_in_range. lia.
      * by destruct numbers.
  - eexists _, _. split; [reflexivity|]. split; [done|]. split; done.
  - eexists _, _. split; [reflexivity|]. split; [done|]. split; [done|].
    intros _. fold numbers. split.
    + intros ->. by vm_compute.
    + intros Hne. destruct (SQL.MAX numbers) as [m|] eqn:Hm.
      * destruct (MAX_spec _ _ Hm) as [Hin Hmax].
        exists m. simpl. unfold GoInt.add. rewrite (Z.add_comm m 1).
        repeat split; try done. intros Hr. apply wrap_in_range. lia.
      * by destruct numbers.
Qed.

(** ** db.go: [ClearLocationData] *)

Lemma select_location_id_None slug d :
  SQL.select_location_id slug d = None <->
  forall l, In l (locations d) -> l_slug l <> slug.
Proof.
  unfold SQL.select_location_id.
  destruct (List.filter _ (locations d)) as [|l ls] eqn:Hf.
  - split; [|done]. intros _ l Hl E.
    assert (Hin : In l (List.filter (fun l => String.eqb (l_slug l) slug) (locations d))).
    { apply filter_In. split; [done|]. by apply String.eqb_eq. }
    by rewrite Hf in Hin.
  - split; [done|]. intros Hall. exfalso.
    assert (Hin : In l (List.filter (fun l => String.eqb (l_slug l) slug) (locations d)))
      by (rewrite Hf; by left).
    apply filter_In in Hin as [Hin E]. apply String.eqb_eq in E.
    by apply (Hall l).
Qed.

Lemma select_location_id_Some slug d id :
  SQL.select_location_id slug d = Some id ->
  exists l, In l (locations d) /\ l_slug l = slug /\ l_id l = id.
Proof.
  unfold SQL.select_location_id.
  destruct (List.filter _ (locations d)) as [|l ls] eqn:Hf; [done|].
  intros [= <-]. exists l.
  assert (Hin : In l (List.filter (fun l => String.eqb (l_slug l) slug) (locations d)))
    by (rewrite Hf; by left).
  apply filter_In in Hin as [Hin E]. apply String.eqb_eq in E. done.
Qed.

Lemma mem_event_ids e locationID d :
  SQL.mem e (SQL.event_ids_of locationID d) = true <->
  exists ev, In ev (events d) /\ e_location_id ev = locationID /\ e_id ev = e.
Proof.
  unfold SQL.mem, SQL.event_ids_of. rewrite existsb_exists. split.
  - intros (i & Hi & E). apply Z.eqb_eq in E. subst i.
    apply in_map_iff in Hi as (ev & <- & Hev).
    apply filter_In in Hev as [Hev El]. apply Z.eqb_eq in El. by exists ev.
  - intros (ev & Hev & El & <-). exists (e_id ev). split; [|by apply Z.eqb_eq].
    apply in_map_iff. exists ev. split; [done|].
    apply filter_In. split; [done|]. by apply Z.eqb_eq.
Qed.

Lemma cleared_spec locationID d :
  (forall r, In r (results (cleared locationID d)) <->
     In r (results d) /\
     ~ (exists ev, In ev (events d) /\ e_location_id ev = locationID /\
                   r_event_id r = Some (e_id ev))) /\
  (forall ev, In ev (events (cleared locationID d)) <->
     In ev (events d) /\ e_location_id ev <> locationID) /\
  (forall l, In l (locations (cleared locationID d)) <->
     In l (locations d) /\ l_id l <> locationID).
Proof.
  unfold cleared. simpl. split; [|split].
  - intros r. rewrite filter_In. apply and_iff_compat_l.
    destruct (r_event_id r) as [e|].
    + rewrite negb_true_iff, <- not_true_iff_false, mem_event_ids.
      split; intros H (ev & Hev & El & E); apply H; exists ev;
        repeat split; congruence.
    + split; [|done]. intros _ (ev & _ & _ & E). discriminate.
  - intros ev. rewrite filter_In. apply and_iff_compat_l.
    rewrite negb_true_iff, Z.eqb_neq. done.
  - intros l. rewrite filter_In. apply and_iff_compat_l.
    rewrite negb_true_iff, Z.eqb_neq. done.
Qed.

(** Case analysis on the outcome of the next driver call. *)
Ltac fault_step :=
  match goal with
  | |- context [match ?fs with [] => _ | _ :: _ => _ end] =>
      is_var fs; destruct fs as [|[] fs]; simpl in *
  end.

(** C8: for a stored slug [ClearLocationData] deletes, in one transaction
    and in this order, the results of the location's events, those events
    and the location row, all rows of other locations staying; when any
    driver call fails it returns an error and the database is as before;
    for a slug that is not stored it returns nil and changes nothing. *)
Theorem ClearLocationData_cascades urlSlug w :
  exists out w',
    ClearLocationData urlSlug w = (Ok out, w') /\
    match SQL.select_location_id urlSlug (db w) with
    | None =>
        (forall l, In l (locations (db w)) -> l_slug l <> urlSlug) /\
        db w' = db w /\
        (hd false (faults w) = false -> out = None)
    | Some locationID =>
        (exists l, In l (locations (db w)) /\ l_slug l = urlSlug /\
                   l_id l = locationID) /\
        (~ In true (firstn 6 (faults w)) ->
         out = None /\
         trace w' = (trace w ++ clear_calls)%list /\
         db w' = cleared locationID (db w) /\
         (forall r, In r (results (db w')) <->
            In r (results (db w)) /\
            ~ (exists ev, In ev (events (db w)) /\
                          e_location_id ev = locationID /\
                          r_event_id r = Some (e_id ev))) /\
         (forall ev, In ev (events (db w')) <->
            In ev (events (db w)) /\ e_location_id ev <> locationID) /\
         (forall l, In l (locations (db w')) <->
            In l (locations (db w)) /\ l_id l <> locationID)) /\
        (In true (firstn 6 (faults w)) -> out <> None /\ db w' = db w)
    end.
Proof.
  destruct w as [d fs tr]. simpl.
  destruct (SQL.select_location_id urlSlug d) as [locationID|] eqn:Hsel.
  - pose proof (select_location_id_Some _ _ _ Hsel) as Hl.
    pose proof (cleared_spec locationID d) as Hc.
    unfold ClearLocationData, bind, driver_call, get_db, put_db, ret, emit.
    simpl. repeat (first [fault_step | progress (rewrite Hsel; simpl)]);
      (eexists _, _; split; [reflexivity|]; simpl; split; [exact Hl|]; split;
       [ intros Hno;
         first [ by (exfalso; apply Hno; intuition congruence)
               | split; [reflexivity|];
                 split; [by rewrite <- !app_assoc|];
                 split; [reflexivity|]; exact Hc ]
       | intros Hyes;
         first [ by (exfalso; intuition congruence)
               | split; [discriminate|reflexivity] ] ]).
  - pose proof (proj1 (select_location_id_None _ _) Hsel) as Hl.
    unfold ClearLocationData, bind, driver_call, get_db, put_db, ret, emit.
    simpl. destruct fs as [|[] fs]; simpl; rewrite ?Hsel;
      (eexists _, _; split; [reflexivity|]; simpl; split; [exact Hl|];
       split; [reflexivity|]; intros; congruence).
Qed.

(** ** main.go: the ingest loop *)

Lemma sleeps_app es1 es2 : sleeps (es1 ++ es2)%list = (sleeps es1 ++ sleeps es2)%list.
Proof. apply omap_app. Qed.

Lemma requests_app es1 es2 :
  requests (es1 ++ es2)%list = (requests es1 ++ requests es2)%list.
Proof. apply omap_app. Qed.

(** Computes the pauses of a trace built from known pieces. *)
Ltac solve_sleeps :=
  unfold sleeps in *;
  repeat (rewrite omap_app || (progress simpl));
  repeat match goal with
         | H : omap _ _ = [] |- _ => rewrite H
         end;
  done.

Lemma quiet_ret {A} (a : A) : quiet (ret a).
Proof. intros w. exists a, w, []. by rewrite app_nil_r. Qed.

Lemma quiet_bind {A B} (m : M A) (k : A -> M B) :
  quiet m -> (forall a, quiet (k a)) -> quiet (bind m k).
Proof.
  intros Hm Hk w. destruct (Hm w) as (a & w1 & es1 & E1 & T1 & S1 & R1).
  destruct (Hk a w1) as (b & w2 & es2 & E2 & T2 & S2 & R2).
  exists b, w2, (es1 ++ es2)%list. unfold bind. rewrite E1, E2.
  split; [done|]. split; [by rewrite T2, T1, app_assoc|].
  by rewrite sleeps_app, requests_app, S1, S2, R1, R2.
Qed.

Lemma quiet_driver_call stmt : quiet (driver_call stmt).
Proof.
  intros [d fs tr]. unfold driver_call. simpl.
  destruct fs as [|b fs]; eexists _, _, _; (split; [reflexivity|]); done.
Qed.

Lemma quiet_log format args : quiet (log_Printf format args).
Proof. intros w. eexists _, _, _. split; [reflexivity|]. done. Qed.

Lemma quiet_get_db : quiet get_db.
Proof. intros w. exists (db w), w, []. by rewrite app_nil_r. Qed.

Lemma quiet_put_db d : quiet (put_db d).
Proof.
  intros w. eexists tt, _, []. split; [reflexivity|]. simpl.
  by rewrite app_nil_r.
Qed.

Lemma quiet_storeEach rs eventID s e : quiet (storeEach rs eventID s e).
Proof.
  revert s e. induction rs as [|r rs IH]; intros s e; simpl.
  - apply quiet_ret.
  - apply quiet_bind; [apply quiet_driver_call|]. intros failed.
    apply quiet_bind; [apply quiet_get_db|]. intros d.
    destruct (if failed then None else _).
    + apply quiet_bind; [apply quiet_put_db|]. intros _. apply IH.
    + apply quiet_bind; [apply quiet_log|]. intros _. apply IH.
Qed.

Lemma quiet_StoreResults rs eventID : quiet (StoreResults rs eventID).
Proof.
  apply quiet_bind; [apply quiet_storeEach|]. intros c. apply quiet_log.
Qed.

(** [ParseResults] never pauses. *)
Lemma scrapeRow_warnings acc s :
  sleeps (warnings acc) = [] -> sleeps (warnings (scrapeRow acc s)) = [].
Proof.
  intros H. unfold scrapeRow.
  destruct (if negb _ then _ else _); simpl; [done|].
  by rewrite sleeps_app, H.
Qed.

Lemma scrapeRows_warnings rs : sleeps (warnings (scrapeRows rs)) = [].
Proof.
  unfold scrapeRows.
  assert (H : forall acc, sleeps (warnings acc) = [] ->
                sleeps (warnings (fold_left scrapeRow rs acc)) = []).
  { induction rs as [|r rs IH]; intros acc Hacc; simpl; [done|].
    apply IH. by apply scrapeRow_warnings. }
  by apply H.
Qed.

Lemma ParseResults_no_sleep urlSlug eventNumber x :
  sleeps (snd (ParseResults urlSlug eventNumber x)) = [].
Proof.
  unfold ParseResults, scrapeEvent.
  destruct x as [| |status [doc|]]; try done.
  - destruct (400 <=? status); [done|].
    destruct (parseEventDate (format_date doc)); simpl;
      rewrite ?sleeps_app, scrapeRows_warnings; done.
  - by destruct (400 <=? status).
Qed.

(** A response with a status of 400 or more is the typed HTTP error with
    that status; a transport failure is a plain error. *)
Lemma ParseResults_status urlSlug eventNumber status body :
  400 <= status ->
  fst (ParseResults urlSlug eventNumber (Responded status body))
    = inr (ErrHTTP {| StatusCode := status; Message := "HTTP error" |}) /\
  exists msg,
    fst (ParseResults urlSlug eventNumber TransportFailed) = inr (Errorf msg).
Proof.
  intros H. unfold ParseResults, scrapeEvent.
  replace (400 <=? status) with true by (symmetry; by apply Z.leb_le).
  split; [done|by eexists].
Qed.

(** [StoreEvent] looks at the database and at the next driver outcome only. *)
Lemma StoreEvent_cases event w :
  (exists id d',
      hd false (faults w) = false /\
      SQL.insert_or_replace_event event (db w) = Some (id, d') /\
      StoreEvent event w =
        (Ok (inl id),
         {| db := d'; faults := tl (faults w);
            trace := (trace w ++ [Executed "INSERT OR REPLACE INTO events" true])%list |})) \/
  (exists err ok,
      (hd false (faults w) = true \/
       SQL.insert_or_replace_event event (db w) = None) /\
      StoreEvent event w =
        (Ok (inr err),
         {| db := db w; faults := tl (faults w);
            trace := (trace w ++ [Executed "INSERT OR REPLACE INTO events" ok])%list |})).
Proof.
  destruct w as [d fs tr].
  unfold StoreEvent, bind, driver_call, get_db, put_db, ret. simpl.
  destruct fs as [|[] fs]; simpl.
  - destruct (SQL.insert_or_replace_event event d) as [[id d']|] eqn:E.
    + left. by eexists _, _.
    + right. eexists _, _. split; [by right|done].
  - right. eexists _, _. split; [by left|done].
  - destruct (SQL.insert_or_replace_event event d) as [[id d']|] eqn:E.
    + left. by eexists _, _.
    + right. eexists _, _. split; [by right|done].
Qed.

(** One pass through the loop body, case by case. *)
Lemma loopBody_step urlSlug locationID x st w :
  let fetched := fst (ParseResults urlSlug (eventID st) x) in
  exists c st' w' es,
    loopBody urlSlug locationID x st w = (Ok (c, st'), w') /\
    trace w' = (trace w ++ es)%list /\
    (forall e, fetched = inr (ErrHTTP e) -> StatusCode e = 405 ->
       c = Continue /\ st' = st /\ db w' = db w /\
       sleeps es = [rateLimitBackoff]) /\
    (forall e, fetched = inr (ErrHTTP e) -> StatusCode e = 425 ->
       c = Return /\ st' = st /\ db w' = db w /\ sleeps es = []) /\
    (forall err, fetched = inr err ->
       (forall e, err = ErrHTTP e -> StatusCode e <> 405 /\ StatusCode e <> 425) ->
       eventID st' = eventID st /\
       consecutiveErrors st' = GoInt.add (consecutiveErrors st) 1 /\
       db w' = db w /\
       (maxConsecutiveErrors <= consecutiveErrors st' ->
        c = Break /\ sleeps es = [] /\
        In (Logged "Reached %d consecutive errors. Stopping."
              [IntArg maxConsecutiveErrors]) es) /\
       (consecutiveErrors st' < maxConsecutiveErrors ->
        c = Continue /\ sleeps es = [waitBetweenRequests])) /\
    (forall event results, fetched = inl (event, results) ->
       c = Continue /\ consecutiveErrors st' = 0 /\
       (stores (withLocation event locationID) w ->
        eventID st' = GoInt.add (eventID st) 1 /\
        sleeps es = [waitBetweenRequests]) /\
       (~ stores (withLocation event locationID) w ->
        eventID st' = eventID st /\ sleeps es = [] /\ db w' = db w)).
Proof.
  intros fetched. subst fetched. unfold ingestLoop. fold ingestLoop.
  unfold loopBody.
  pose proof (ParseResults_no_sleep urlSlug (eventID st) x) as Hlogs.
  destruct (ParseResults urlSlug (eventID st) x) as [fetched logs].
  simpl in Hlogs |- *.
  destruct fetched as [[event results]|[e|msg]].
  - (* the fetch succeeded *)
    fold (withLocation event locationID).
    unfold bind at 1 2. unfold emit at 1. simpl.
    set (w1 := {| db := db w; faults := faults w;
                  trace := (trace w ++ logs)%list |}).
    assert (Hst : stores (withLocation event locationID) w1 <->
                  stores (withLocation event locationID) w) by done.
    destruct (StoreEvent_cases (withLocation event locationID) w1)
      as [(id & d' & Hf & Hi & E)|(err & ok & Hwhy & E)].
    + unfold bind at 1. rewrite E.
      set (w2 := {| db := d'; faults := tl (faults w1);
                    trace := (trace w1 ++
                      [Executed "INSERT OR REPLACE INTO events" true])%list |}).
      assert (Hq : exists w3 es3,
                 (if (0 <? length results)%nat
                  then StoreResults results id else ret tt) w2 = (Ok tt, w3) /\
                 trace w3 = (trace w2 ++ es3)%list /\ sleeps es3 = []).
      { destruct (0 <? length results)%nat.
        - destruct (quiet_StoreResults results id w2)
            as ([] & w3 & es3 & E3 & T3 & S3 & _). by exists w3, es3.
        - exists w2, []. split; [reflexivity|]. by rewrite app_nil_r. }
      destruct Hq as (w3 & es3 & E3 & T3 & S3).
      unfold bind. rewrite E3. unfold time_Sleep, emit, ret. simpl.
      eexists _, _, _, (logs ++ [Executed "INSERT OR REPLACE INTO events" true]
                         ++ es3 ++ [Slept waitBetweenRequests])%list.
      split; [reflexivity|]. simpl.
      split; [rewrite T3; subst w2 w1; simpl; by rewrite <- !app_assoc|].
      split; [intros ? [=]|]. split; [intros ? [=]|]. split; [intros ? [=]|].
      intros ev rs [= <- <-]. split; [done|]. split; [done|]. split.
      * intros _. split; [done|].
        solve_sleeps.
      * intros Hn. exfalso. apply Hn, Hst. split; [done|]. by eexists _, _.
    + unfold bind at 1. rewrite E. unfold bind, log_Printf, emit, ret. simpl.
      eexists _, _, _, (logs ++ [Executed "INSERT OR REPLACE INTO events" ok]
                         ++ [Logged "Error storing event %d: %v"
                               [IntArg (eventID st)]])%list.
      split; [reflexivity|]. simpl.
      split; [by rewrite <- !app_assoc|].
      split; [intros ? [=]|]. split; [intros ? [=]|]. split; [intros ? [=]|].
      intros ev rs [= <- <-]. split; [done|]. split; [done|]. split.
      * intros Hs. exfalso. apply Hst in Hs. destruct Hs as (Hf & id & d' & Hi).
        destruct Hwhy as [Hw|Hw]; congruence.
      * intros _. split; [done|]. split; [|done].
        solve_sleeps.
  - (* an HTTP error *)
    unfold bind at 1 2. unfold emit at 1, log_Printf at 1, emit at 1. simpl.
    destruct (StatusCode e =? 405) eqn:E405; [|destruct (StatusCode e =? 425) eqn:E425].
    + apply Z.eqb_eq in E405.
      unfold bind, log_Printf, time_Sleep, emit, ret. simpl.
      eexists _, _, _, (logs ++ [Logged "Error processing event %d: %v"
                                   [IntArg (eventID st)]]
                         ++ [Logged "Rate limited, waiting %d seconds before retry..."
                               [IntArg rateLimitBackoff]]
                         ++ [Slept rateLimitBackoff])%list.
      split; [reflexivity|]. simpl.
      split; [by rewrite <- !app_assoc|].
      split; [|split; [intros e' [= <-] H; lia|split]].
      * intros e' [= <-] _. repeat split; try done.
        solve_sleeps.
      * intros err [= <-] H. destruct (H e eq_refl). lia.
      * intros ? ? [=].
    + apply Z.eqb_eq in E425. apply Z.eqb_neq in E405.
      unfold bind, log_Printf, emit, ret. simpl.
      eexists _, _, _, (logs ++ [Logged "Error processing event %d: %v"
                                   [IntArg (eventID st)]]
                         ++ [Logged "Reached end of events (425 error). Scraping complete."
                               []])%list.
      split; [reflexivity|]. simpl.
      split; [by rewrite <- !app_assoc|].
      split; [intros e' [= <-] H; lia|split; [|split]].
      * intros e' [= <-] _. repeat split; try done.
        solve_sleeps.
      * intros err [= <-] H. destruct (H e eq_refl). lia.
      * intros ? ? [=].
    + apply Z.eqb_neq in E405. apply Z.eqb_neq in E425.
      unfold countError. simpl.
      destruct (maxConsecutiveErrors <=? GoInt.add (consecutiveErrors st) 1) eqn:Emax;
        unfold bind, log_Printf, time_Sleep, emit, ret; simpl.
      * apply Z.leb_le in Emax.
        eexists _, _, _, (logs ++ [Logged "Error processing event %d: %v"
                                     [IntArg (eventID st)]]
                           ++ [Logged "Reached %d consecutive errors. Stopping."
                                 [IntArg maxConsecutiveErrors]])%list.
        split; [reflexivity|]. simpl.
        split; [by rewrite <- !app_assoc|].
        split; [intros e' [= <-] H; lia|]. split; [intros e' [= <-] H; lia|].
        split; [|intros ? ? [=]].
        intros err _ _. repeat split; try done; try lia.
        -- solve_sleeps.
        -- apply in_or_app. right. simpl. tauto.
      * apply Z.leb_gt in Emax.
        eexists _, _, _, (logs ++ [Logged "Error processing event %d: %v"
                                     [IntArg (eventID st)]]
                           ++ [Slept waitBetweenRequests])%list.
        split; [reflexivity|]. simpl.
        split; [by rewrite <- !app_assoc|].
        split; [intros e' [= <-] H; lia|]. split; [intros e' [= <-] H; lia|].
        split; [|intros ? ? [=]].
        intros err _ _. repeat split; try done; try lia.
        solve_sleeps.
  - (* another error *)
    unfold bind at 1 2. unfold emit at 1, log_Printf at 1, emit at 1. simpl.
    unfold countError. simpl.
    destruct (maxConsecutiveErrors <=? GoInt.add (consecutiveErrors st) 1) eqn:Emax;
      unfold bind, log_Printf, time_Sleep, emit, ret; simpl.
    + apply Z.leb_le in Emax.
      eexists _, _, _, (logs ++ [Logged "Error processing event %d: %v"
                                   [IntArg (eventID st)]]
                         ++ [Logged "Reached %d consecutive errors. Stopping."
                               [IntArg maxConsecutiveErrors]])%list.
      split; [reflexivity|]. simpl.
      split; [by rewrite <- !app_assoc|].
      split; [intros ? [=]|]. split; [intros ? [=]|].
      split; [|intros ? ? [=]].
      intros err _ _. repeat split; try done; try lia.
      * solve_sleeps.
      * apply in_or_app. right. simpl. tauto.
    + apply Z.leb_gt in Emax.
      eexists _, _, _, (logs ++ [Logged "Error processing event %d: %v"
                                   [IntArg (eventID st)]]
                         ++ [Slept waitBetweenRequests])%list.
      split; [reflexivity|]. simpl.
      split; [by rewrite <- !app_assoc|].
      split; [intros ? [=]|]. split; [intros ? [=]|].
      split; [|intros ? ? [=]].
      intros err _ _. repeat split; try done; try lia.
      solve_sleeps.
Qed.

(** C1, as the code has it.  One pass of the loop, [fetched] being what
    [ParseResults] returns for the current event number:
    - HTTP 405: pause [rateLimitBackoff] and go round again with the same
      event number and the same error counter;
    - HTTP 425: return, whatever answers would follow;
    - any other error: the counter goes up by one; at 3 the loop breaks
      with the notice, below 3 it pauses and goes round with the same event
      number;
    - success: the counter becomes 0; the event number goes up by one when
      [StoreEvent] succeeds and stays when it fails. *)
Theorem loopBody_transitions urlSlug locationID x st w :
  let fetched := fst (ParseResults urlSlug (eventID st) x) in
  exists c st' w' es,
    loopBody urlSlug locationID x st w = (Ok (c, st'), w') /\
    trace w' = (trace w ++ es)%list /\
    (forall e, fetched = inr (ErrHTTP e) -> StatusCode e = 405 ->
       c = Continue /\ st' = st /\ db w' = db w /\
       sleeps es = [rateLimitBackoff] /\
       forall xs, ingestLoop urlSlug locationID (x :: xs) st w
                  = ingestLoop urlSlug locationID xs st w') /\
    (forall e, fetched = inr (ErrHTTP e) -> StatusCode e = 425 ->
       c = Return /\ st' = st /\ db w' = db w /\ sleeps es = [] /\
       forall xs, ingestLoop urlSlug locationID (x :: xs) st w
                  = (Ok (Returned st), w')) /\
    (forall err, fetched = inr err ->
       (forall e, err = ErrHTTP e -> StatusCode e <> 405 /\ StatusCode e <> 425) ->
       eventID st' = eventID st /\
       consecutiveErrors st' = GoInt.add (consecutiveErrors st) 1 /\
       db w' = db w /\
       (maxConsecutiveErrors <= consecutiveErrors st' ->
        c = Break /\ sleeps es = [] /\
        In (Logged "Reached %d consecutive errors. Stopping."
              [IntArg maxConsecutiveErrors]) es /\
        forall xs, ingestLoop urlSlug locationID (x :: xs) st w
                   = (Ok (Broke st'), w')) /\
       (consecutiveErrors st' < maxConsecutiveErrors ->
        c = Continue /\ sleeps es = [waitBetweenRequests] /\
        forall xs, ingestLoop urlSlug locationID (x :: xs) st w
                   = ingestLoop urlSlug locationID xs st' w')) /\
    (forall event results, fetched = inl (event, results) ->
       c = Continue /\ consecutiveErrors st' = 0 /\
       (forall xs, ingestLoop urlSlug locationID (x :: xs) st w
                   = ingestLoop urlSlug locationID xs st' w') /\
       (stores (withLocation event locationID) w ->
        eventID st' = GoInt.add (eventID st) 1 /\
        sleeps es = [waitBetweenRequests]) /\
       (~ stores (withLocation event locationID) w ->
        eventID st' = eventID st /\ sleeps es = [] /\ db w' = db w)).
Proof.
  intros fetched.
  destruct (loopBody_step urlSlug locationID x st w)
    as (c & st' & w' & es & E & T & H405 & H425 & Herr & Hok).
  fold fetched in H405, H425, Herr, Hok.
  assert (Hloop : forall xs,
             ingestLoop urlSlug locationID (x :: xs) st w =
               match c with
               | Continue => ingestLoop urlSlug locationID xs st' w'
               | Break => (Ok (Broke st'), w')
               | Return => (Ok (Returned st'), w')
               end).
  { intros xs. simpl. unfold bind at 1. rewrite E. simpl. by destruct c. }
  exists c, st', w', es. split; [exact E|]. split; [exact T|].
  split; [|split; [|split]].
  - intros e He Hc. destruct (H405 e He Hc) as (-> & -> & Hd & Hs).
    split; [done|]. split; [done|]. split; [done|]. split; [done|].
    intros xs. by rewrite Hloop.
  - intros e He Hc. destruct (H425 e He Hc) as (-> & -> & Hd & Hs).
    split; [done|]. split; [done|]. split; [done|]. split; [done|].
    intros xs. by rewrite Hloop.
  - intros err He Hn. destruct (Herr err He Hn) as (He1 & He2 & Hd & Hb & Hc).
    split; [done|]. split; [done|]. split; [done|]. split.
    + intros Hmax. destruct (Hb Hmax) as (-> & Hs & Hl).
      split; [done|]. split; [done|]. split; [done|].
      intros xs. by rewrite Hloop.
    + intros Hmax. destruct (Hc Hmax) as (-> & Hs).
      split; [done|]. split; [done|]. intros xs. by rewrite Hloop.
  - intros event results He. destruct (Hok event results He) as (-> & H0 & Hs & Hn).
    split; [done|]. split; [done|]. split; [|split; [exact Hs|exact Hn]].
    intros xs. by rewrite Hloop.
Qed.

(** C1 as stated fails.  The page of event 1 is fetched and parsed, but
    the driver fails in [StoreEvent]: the counter is reset, the event
    number is still 1, and the loop goes round without a pause. *)
Lemma successful_fetch_without_advance :
  let w := {| db := db fresh_world; faults := [true]; trace := [] |} in
  let st := {| eventID := 1; consecutiveErrors := 2 |} in
  let x := Responded 200 (Some page_1) in
  (exists event rs, fst (ParseResults "bushy" 1 x) = inl (event, rs)) /\
  fst (loopBody "bushy" 1 x st w)
    = Ok (Continue, {| eventID := 1; consecutiveErrors := 0 |}) /\
  sleeps (trace (snd (loopBody "bushy" 1 x st w))) = [] /\
  GoInt.add (eventID st) 1 = 2.
Proof.
  split; [eexists _, _; by vm_compute|].
  split; [by vm_compute|]. split; by vm_compute.
Qed.

(** A rate-limited answer, then the page, then the end of the series: event
    1 is requested twice, event 2 once, and the function returns. *)
Example ingest_rate_limited_then_success :
  let run :=
    ingestLoop "bushy" 1
      [Responded 405 None; Responded 200 (Some page_1); Responded 425 None;
       Responded 200 (Some page_1)]
      {| eventID := 1; consecutiveErrors := 0 |} fresh_world in
  fst run = Ok (Returned {| eventID := 2; consecutiveErrors := 0 |}) /\
  requests (trace (snd run))
    = [ "https://www.parkrun.com.au/bushy/results/1/";
        "https://www.parkrun.com.au/bushy/results/1/";
        "https://www.parkrun.com.au/bushy/results/2/" ] /\
  sleeps (trace (snd run)) = [180; 5] /\
  map e_event_number (events (db (snd run))) = [1] /\
  map r_event_id (results (db (snd run))) = [Some 1].
Proof. repeat split; by vm_compute. Qed.

(** Three failures in a row stop the loop at the event it was trying. *)
Example ingest_three_errors :
  let run :=
    ingestLoop "bushy" 1
      [Responded 500 None; TransportFailed; Responded 404 None;
       Responded 200 (Some page_1)]
      {| eventID := 1; consecutiveErrors := 0 |} fresh_world in
  fst run = Ok (Broke {| eventID := 1; consecutiveErrors := 3 |}) /\
  sleeps (trace (snd run)) = [5; 5] /\
  length (requests (trace (snd run))) = 3%nat /\
  db (snd run) = db fresh_world.
Proof. repeat split; by vm_compute. Qed.

(** The whole of [parseAndStoreResults] on a new database. *)
Example parseAndStoreResults_run :
  let run :=
    parseAndStoreResults "bushy" false
      [Responded 200 (Some page_1); Responded 425 None]
      {| db := empty_db; faults := []; trace := [] |} in
  fst run = Ok (Returned {| eventID := 2; consecutiveErrors := 0 |}) /\
  map l_slug (locations (db (snd run))) = ["bushy"] /\
  map e_event_number (events (db (snd run))) = [1] /\
  map r_name (results (db (snd run))) = ["Runner A"].
Proof. repeat split; by vm_compute. Qed.

(** ** reports.go: [GetMedianTimesByAgeCategory] *)

Lemma pick_app c rows1 rows2 :
  pick c (rows1 ++ rows2)%list = (pick c rows1 ++ pick c rows2)%list.
Proof. unfold pick. by rewrite List.filter_app, map_app. Qed.

Lemma pick_Permutation c rows1 rows2 :
  rows1 ≡ₚ rows2 -> pick c rows1 ≡ₚ pick c rows2.
Proof.
  intros H. unfold pick. induction H; simpl.
  - done.
  - destruct (String.eqb x.1 c); simpl; by rewrite IHPermutation.
  - destruct (String.eqb x.1 c), (String.eqb y.1 c); simpl;
      try done. apply perm_swap.
  - etrans; eauto.
Qed.

Lemma fold_append_time rows (m : gmap string (list Z)) c :
  fold_left append_time rows m !! c =
    match pick c rows with
    | [] => m !! c
    | ts => Some (default [] (m !! c) ++ ts)%list
    end.
Proof.
  revert m. induction rows as [|[c' t] rows IH]; intros m; simpl; [done|].
  rewrite IH. unfold append_time, pick. simpl.
  destruct (String.eqb_spec c' c) as [->|Hne]; simpl.
  - rewrite lookup_insert_eq. simpl.
    fold (pick c rows). destruct (pick c rows); simpl.
    + done.
    + by rewrite <- app_assoc.
  - by rewrite lookup_insert_ne.
Qed.

Lemma pick_median_rows d locationID c :
  pick c (median_rows d locationID) ≡ₚ
    (if String.eqb c "" then [] else times_of d locationID c).
Proof.
  unfold median_rows. rewrite (pick_Permutation _ _ _ (merge_sort_Permutation _ _)).
  unfold times_of.
  induction (SQL.results_at locationID d) as [|re l IH]; simpl.
  - by destruct (String.eqb c "").
  - rewrite pick_app, IH. clear IH.
    destruct (r_age_category re.1) as [c'|], (r_time_seconds re.1) as [t|];
      simpl; try (by destruct (String.eqb c "")).
    destruct (String.eqb_spec c' c) as [->|Hne]; simpl.
    + destruct (0 <? t); simpl; [|by destruct (String.eqb c "")].
      destruct (String.eqb_spec c "") as [->|Hc]; simpl; [done|].
      unfold pick. simpl. by rewrite String.eqb_refl.
    + destruct ((0 <? t) && negb (String.eqb c' "")); simpl;
        [|by destruct (String.eqb c "")].
      unfold pick. simpl. destruct (String.eqb_spec c' c); [done|]. simpl.
      by destruct (String.eqb c "").
Qed.

Lemma times_of_positive d locationID c :
  Forall (fun t => 0 < t) (times_of d locationID c).
Proof.
  unfold times_of. apply Forall_forall. intros t Ht.
  apply list_elem_of_omap in Ht as (re & _ & Hre).
  destruct (r_age_category re.1), (r_time_seconds re.1); try discriminate.
  destruct (String.eqb _ _); simpl in Hre; [|discriminate].
  destruct (0 <? z) eqn:E; [|discriminate]. injection Hre as <-.
  by apply Z.ltb_lt.
Qed.

(** The entries of the map [categoryTimes]. *)
Lemma categoryTimes_lookup d locationID c ts :
  fold_left append_time (median_rows d locationID) ∅ !! c = Some ts ->
  c <> "" /\ ts <> [] /\ ts ≡ₚ times_of d locationID c.
Proof.
  rewrite fold_append_time, lookup_empty. simpl.
  pose proof (pick_median_rows d locationID c) as Hp.
  destruct (pick c (median_rows d locationID)) as [|t ts'] eqn:E; [done|].
  intros [= <-]. destruct (String.eqb_spec c "") as [->|Hc].
  - by apply Permutation_nil_r in Hp.
  - done.
Qed.

Lemma categoryTimes_complete d locationID c :
  c <> "" -> times_of d locationID c <> [] ->
  exists ts, fold_left append_time (median_rows d locationID) ∅ !! c = Some ts.
Proof.
  intros Hc Hne. rewrite fold_append_time, lookup_empty. simpl.
  pose proof (pick_median_rows d locationID c) as Hp.
  destruct (String.eqb_spec c ""); [done|].
  destruct (pick c (median_rows d locationID)) as [|t ts'] eqn:E.
  - symmetry in Hp. by apply Permutation_nil_r in Hp.
  - by eexists.
Qed.

(** The statistics are those of the map's entries. *)
Lemma GetMedianTimesByAgeCategory_In d locationID stat :
  In stat (GetMedianTimesByAgeCategory d locationID) <->
  exists ts,
    fold_left append_time (median_rows d locationID) ∅ !! Category stat = Some ts /\
    Median stat = secondsToTime (median_of ts) /\
    Count stat = Z.of_nat (length ts).
Proof.
  unfold GetMedianTimesByAgeCategory.
  rewrite <- list_elem_of_In, merge_sort_Permutation, list_elem_of_In, in_map_iff.
  split.
  - intros ([c ts] & <- & Hin). simpl. exists ts.
    rewrite <- list_elem_of_In in Hin. by apply elem_of_map_to_list in Hin.
  - intros (ts & Hl & Hm & Hc). exists (Category stat, ts). split.
    + destruct stat; simpl in *. by rewrite Hm, Hc.
    + rewrite <- list_elem_of_In. by apply elem_of_map_to_list.
Qed.

Lemma rem_2_even (k : nat) : (GoInt.rem (Z.of_nat k) 2 =? 0) = Nat.even k.
Proof.
  unfold GoInt.rem. destruct (Nat.even k) eqn:E.
  - apply Nat.even_spec in E as [j ->]. apply Z.eqb_eq.
    Z.quot_rem_to_equations. lia.
  - apply Z.eqb_neq. assert (O : Nat.odd k = true).
    { by rewrite <- Nat.negb_even, E. }
    apply Nat.odd_spec in O as [j ->]. Z.quot_rem_to_equations. lia.
Qed.

Lemma half_index (k : nat) :
  Z.to_nat (GoInt.quot (Z.of_nat k) 2) = Nat.div k 2 /\
  Z.to_nat (GoInt.quot (Z.of_nat k) 2 - 1) = (Nat.div k 2 - 1)%nat.
Proof.
  rewrite quot_2 by lia.
  change 2 with (Z.of_nat 2). rewrite <- Nat2Z.inj_div.
  generalize (Nat.div k 2). intros j. split; lia.
Qed.

(** The median that [median_of] computes, read off the sorted times. *)
Lemma median_of_spec ts :
  ts <> [] -> Forall (fun t => 0 < t) ts ->
  exists sorted,
    sorted ≡ₚ ts /\ Sorted Z.le sorted /\
    let n := length sorted in
    (Nat.odd n = true -> median_of ts = nth (Nat.div n 2) sorted 0) /\
    (Nat.even n = true ->
     let a := nth (Nat.div n 2 - 1) sorted 0 in
     let b := nth (Nat.div n 2) sorted 0 in
     median_of ts = GoInt.quot (GoInt.add a b) 2 /\
     (a + b <= GoInt.max_int -> median_of ts = (a + b) / 2)).
Proof.
  intros Hne Hpos. exists (GoSort.Ints ts).
  assert (Hperm : GoSort.Ints ts ≡ₚ ts) by apply merge_sort_Permutation.
  split; [done|]. split; [apply (Sorted_merge_sort Z.le)|].
  unfold median_of. set (sorted := GoSort.Ints ts) in *.
  assert (Hlen : (0 < length sorted)%nat).
  { rewrite Hperm. destruct ts; [done|simpl; lia]. }
  assert (Hpos' : Forall (fun t => 0 < t) sorted) by (by rewrite Hperm).
  destruct (half_index (length sorted)) as [Hi Hi'].
  cbv zeta. rewrite rem_2_even, Hi, Hi'.
  replace (0 <? Z.of_nat (length sorted)) with true
    by (symmetry; apply Z.ltb_lt; lia).
  split.
  - intros Hodd. rewrite <- Nat.negb_even in Hodd.
    apply negb_true_iff in Hodd. by rewrite Hodd.
  - intros Heven. rewrite Heven. cbn [andb]. split; [done|]. intros Hfit.
    assert (Hlt : (Nat.div (length sorted) 2 < length sorted)%nat)
      by (apply Nat.div_lt; lia).
    assert (Ha : 0 < nth (Nat.div (length sorted) 2 - 1) sorted 0).
    { eapply (proj1 (List.Forall_forall _ _)); [exact Hpos'|]. apply nth_In. lia. }
    assert (Hb : 0 < nth (Nat.div (length sorted) 2) sorted 0).
    { eapply (proj1 (List.Forall_forall _ _)); [exact Hpos'|]. by apply nth_In. }
    assert (GoInt.min_int <= 0) by (by vm_compute).
    rewrite add_exact by lia. apply quot_2. lia.
Qed.

(** C3, as the code has it: for every category it reports, with the
    category's times sorted ascending, [GetMedianTimesByAgeCategory] gives
    the middle element when their number is odd and, when it is even, the
    sum of the two central elements divided by two in integer arithmetic,
    that is their mean rounded down to a whole second; every non-empty
    category with a timed result is reported.  Times 1180, 1190, 1200 give
    "19:50"; times 1180, 1190 give "19:45". *)
Theorem GetMedianTimesByAgeCategory_median d locationID :
  (forall stat, In stat (GetMedianTimesByAgeCategory d locationID) ->
     exists sorted,
       sorted ≡ₚ times_of d locationID (Category stat) /\
       Sorted Z.le sorted /\ sorted <> [] /\
       Count stat = Z.of_nat (length sorted) /\
       let n := length sorted in
       (Nat.odd n = true ->
        Median stat = secondsToTime (nth (Nat.div n 2) sorted 0)) /\
       (Nat.even n = true ->
        let a := nth (Nat.div n 2 - 1) sorted 0 in
        let b := nth (Nat.div n 2) sorted 0 in
        Median stat = secondsToTime (GoInt.quot (GoInt.add a b) 2) /\
        (a + b <= GoInt.max_int -> Median stat = secondsToTime ((a + b) / 2)))) /\
  (forall category, category <> "" -> times_of d locationID category <> [] ->
     exists stat, In stat (GetMedianTimesByAgeCategory d locationID) /\
                  Category stat = category) /\
  secondsToTime (median_of [1200; 1190; 1180]) = "19:50" /\
  secondsToTime (median_of [1190; 1180]) = "19:45".
Proof.
  split; [|split; [|split; by vm_compute]].
  - intros stat Hin.
    apply GetMedianTimesByAgeCategory_In in Hin as (ts & Hl & Hm & Hc).
    apply categoryTimes_lookup in Hl as (_ & Hne & Hperm).
    destruct (median_of_spec ts Hne) as (sorted & Hs & Hsorted & Hodd & Heven).
    { rewrite Hperm. apply times_of_positive. }
    exists sorted. split; [by rewrite Hs|]. split; [done|].
    split; [intros ->; by apply Permutation_nil_l in Hs|].
    split; [by rewrite Hc, Hs|].
    simpl. rewrite Hm. split.
    + intros Ho. by rewrite (Hodd Ho).
    + intros He. destruct (Heven He) as [H1 H2]. split.
      * by rewrite H1.
      * intros Hfit. by rewrite (H2 Hfit).
  - intros c Hc Hne.
    destruct (categoryTimes_complete d locationID c Hc Hne) as [ts Hts].
    exists {| Category := c; Median := secondsToTime (median_of ts);
              Count := Z.of_nat (length ts) |}.
    split; [|done]. apply GetMedianTimesByAgeCategory_In. by exists ts.
Qed.

(** C3 as stated fails: for the times 1180 and 1181 the reported median is
    1180 ("19:40"), which is not their arithmetic mean (twice the median
    is not their sum). *)
Lemma median_is_not_the_mean :
  let d :=
    {| locations := locations db_with_placeholder;
       events := events db_with_placeholder;
       results :=
         [ {| r_id := 1; r_position := 1; r_name := "Runner A";
              r_time_seconds := Some 1181; r_age_grade := Some "65.5%";
              r_age_category := Some "VM35-39"; r_note := Some "";
              r_total_runs := Some 10; r_event_id := Some 1 |};
           {| r_id := 2; r_position := 1; r_name := "Runner A";
              r_time_seconds := Some 1180; r_age_grade := Some "65.5%";
              r_age_category := Some "VM35-39"; r_note := Some "";
              r_total_runs := Some 11; r_event_id := Some 2 |} ];
       seq_locations := 1; seq_events := 2; seq_results := 2 |} in
  GetMedianTimesByAgeCategory d 1
    = [ {| Category := "VM35-39"; Median := "19:40"; Count := 2 |} ] /\
  median_of [1181; 1180] = 1180 /\
  secondsToTime 1180 = "19:40" /\
  2 * median_of [1181; 1180] <> 1180 + 1181.
Proof. repeat split; by vm_compute. Qed.

Lemma GetMedianTimesByAgeCategory_median_witness :
  exists sorted,
    sorted ≡ₚ times_of db_with_placeholder 1 "VM35-39" /\
    Sorted Z.le sorted /\ length sorted = 2%nat.
Proof.
  destruct (GetMedianTimesByAgeCategory_median db_with_placeholder 1) as [H _].
  destruct (H {| Category := "VM35-39"; Median := "20:00"; Count := 2 |})
    as (sorted & Hp & Hs & _ & Hc & _).
  { vm_compute. left. reflexivity. }
  exists sorted. split; [exact Hp|]. split; [exact Hs|].
  simpl in Hc. lia.
Defined.

(** ** reports.go: the two-character slice of the grouping loops *)

Lemma times_of_nonempty d locationID c :
  times_of d locationID c <> [] <-> timed_in d locationID c.
Proof.
  unfold times_of, timed_in. split.
  - intros H.
    destruct (omap _ (SQL.results_at locationID d)) as [|t ts] eqn:E; [done|].
    assert (Ht : t ∈ t :: ts) by left. rewrite <- E in Ht.
    apply list_elem_of_omap in Ht as (re & Hre & Hf).
    destruct (r_age_category re.1) as [c'|] eqn:Ec; [|done].
    destruct (r_time_seconds re.1) as [t'|] eqn:Et; [|done].
    destruct (String.eqb_spec c' c) as [->|]; [|done]. simpl in Hf.
    destruct (0 <? t') eqn:E0; [|done]. apply Z.ltb_lt in E0.
    exists re, t'. by rewrite <- list_elem_of_In.
  - intros (re & t & Hre & Ec & Et & Ht) H.
    assert (Hin : t ∈ omap
              (fun re : ResultRow * EventRow =>
                 match r_age_category re.1, r_time_seconds re.1 with
                 | Some c0, Some t0 =>
                     if String.eqb c0 c && (0 <? t0) then Some t0 else None
                 | _, _ => None
                 end) (SQL.results_at locationID d)).
    { apply list_elem_of_omap. exists re. split; [by apply list_elem_of_In|].
      rewrite Ec, Et, String.eqb_refl. simpl.
      by replace (0 <? t) with true by (symmetry; by apply Z.ltb_lt). }
    rewrite H in Hin. by apply elem_of_nil in Hin.
Qed.

(** The categories that [GetMedianTimesByAgeCategory] reports. *)
Lemma reported_categories d locationID c :
  In c (map Category (GetMedianTimesByAgeCategory d locationID)) <->
  c <> "" /\ timed_in d locationID c.
Proof.
  rewrite in_map_iff. split.
  - intros (stat & <- & Hin).
    apply GetMedianTimesByAgeCategory_In in Hin as (ts & Hl & _).
    apply categoryTimes_lookup in Hl as (Hc & Hne & Hp).
    split; [done|]. apply times_of_nonempty. intros E. rewrite E in Hp.
    by apply Permutation_nil_r in Hp.
  - intros [Hc Ht]. apply times_of_nonempty in Ht.
    destruct (categoryTimes_complete d locationID c Hc Ht) as [ts Hts].
    exists {| Category := c; Median := secondsToTime (median_of ts);
              Count := Z.of_nat (length ts) |}.
    split; [done|]. apply GetMedianTimesByAgeCategory_In. by exists ts.
Qed.

Lemma slice_to_None s n :
  GoStrings.slice_to s n = None <-> (String.length s < n)%nat.
Proof.
  unfold GoStrings.slice_to.
  destruct (Nat.leb_spec n (String.length s)); split; (done || lia).
Qed.

Lemma groupName_of_None c : groupName_of c = None <-> (String.length c < 2)%nat.
Proof.
  unfold groupName_of. rewrite <- slice_to_None.
  by destruct (GoStrings.slice_to c 2).
Qed.

(** The grouping loop of [PrintReports] panics exactly when a category is
    shorter than two bytes. *)
Lemma group_step_panics stats g :
  fold_left group_step stats (Some g) = None <->
  exists stat, In stat stats /\ (String.length (Category stat) < 2)%nat.
Proof.
  assert (HN : forall l, fold_left group_step l None = None)
    by (induction l; simpl; auto).
  revert g. induction stats as [|s stats IH]; intros g; simpl.
  - split; [done|]. by intros (? & [] & _).
  - destruct (groupName_of (Category s)) as [name|] eqn:E.
    + rewrite IH. split.
      * intros (stat & Hin & Hl). exists stat. split; [by right|done].
      * intros (stat & [<-|Hin] & Hl).
        -- apply groupName_of_None in Hl. congruence.
        -- by exists stat.
    + rewrite HN. split; [|done]. intros _. exists s.
      split; [by left|]. by apply groupName_of_None.
Qed.

(** So does the grouping loop of [PrintComparisonReport]. *)
Lemma bucket_step_panics cats b :
  fold_left bucket_step cats (Some b) = None <->
  exists cat, In cat cats /\ (String.length cat < 2)%nat.
Proof.
  assert (HN : forall l, fold_left bucket_step l None = None)
    by (induction l; simpl; auto).
  revert b. induction cats as [|c cats IH]; intros b; simpl.
  - split; [done|]. by intros (? & [] & _).
  - destruct (GoStrings.slice_to c 2) as [prefix|] eqn:E.
    + rewrite IH. split.
      * intros (cat & Hin & Hl). exists cat. split; [by right|done].
      * intros (cat & [<-|Hin] & Hl).
        -- apply slice_to_None in Hl. congruence.
        -- by exists cat.
    + rewrite HN. split; [|done]. intros _. exists c.
      split; [by left|]. by apply slice_to_None.
Qed.

Lemma PrintReports_panics d locationSlug :
  PrintReports d locationSlug = Panicked <->
  exists locationID stats c,
    SQL.select_location_id locationSlug d = Some locationID /\
    GetLocationStats d locationID = inl stats /\
    c <> "" /\ timed_in d locationID c /\ (String.length c < 2)%nat.
Proof.
  unfold PrintReports.
  destruct (SQL.select_location_id locationSlug d) as [id|];
    [|split; [done|by intros (? & ? & ? & ? & _)]].
  destruct (GetLocationStats d id) as [stats|err] eqn:Es;
    [|split; [done|intros (? & ? & ? & [= <-] & ? & _); congruence]].
  destruct (fold_left group_step _ _) as [g|] eqn:E.
  - split; [done|]. intros (id' & stats' & c & [= <-] & _ & Hc & Ht & Hl).
    exfalso.
    assert (Hp : fold_left group_step (GetMedianTimesByAgeCategory d id)
                   (Some {| groups := ∅; groupTimes := ∅ |}) = None).
    { apply group_step_panics.
      pose proof (proj2 (reported_categories d id c) (conj Hc Ht)) as Hin.
      apply in_map_iff in Hin as (stat & <- & Hin). by exists stat. }
    congruence.
  - split; [|done]. intros _.
    apply group_step_panics in E as (stat & Hin & Hl).
    destruct (proj1 (reported_categories d id (Category stat))) as [Hc Ht].
    { apply in_map_iff. by exists stat. }
    by exists id, stats, (Category stat).
Qed.

Lemma PrintComparisonReport_panics d location1 location2 :
  PrintComparisonReport d location1 location2 = Panicked <->
  exists id1 id2 stats1 stats2 c,
    SQL.select_location_id location1 d = Some id1 /\
    SQL.select_location_id location2 d = Some id2 /\
    GetLocationStats d id1 = inl stats1 /\
    GetLocationStats d id2 = inl stats2 /\
    c <> "" /\ (timed_in d id1 c \/ timed_in d id2 c) /\
    (String.length c < 2)%nat.
Proof.
  unfold PrintComparisonReport, getLocationStats.
  destruct (SQL.select_location_id location1 d) as [id1|];
    [|split; [done|by intros (? & ? & ? & ? & ? & ? & _)]].
  destruct (GetLocationStats d id1) as [stats1|err] eqn:Es1;
    [|split; [done|intros (? & ? & ? & ? & ? & [= <-] & ? & ? & _); congruence]].
  destruct (SQL.select_location_id location2 d) as [id2|];
    [|split; [done|by intros (? & ? & ? & ? & ? & ? & ? & _)]].
  destruct (GetLocationStats d id2) as [stats2|err] eqn:Es2;
    [|split; [done|intros (? & ? & ? & ? & ? & ? & [= <-] & ? & ? & _); congruence]].
  assert (Hcats : forall c,
             In c (elements (list_to_set
                    (map Category (GetMedianTimesByAgeCategory d id1) ++
                     map Category (GetMedianTimesByAgeCategory d id2))%list
                    : gset string)) <->
             c <> "" /\ (timed_in d id1 c \/ timed_in d id2 c)).
  { intros c.
    rewrite <- list_elem_of_In, elem_of_elements, elem_of_list_to_set,
      list_elem_of_In, in_app_iff, !reported_categories. tauto. }
  destruct (fold_left bucket_step _ _) as [b|] eqn:E.
  - split; [done|].
    intros (? & ? & ? & ? & c & [= <-] & [= <-] & _ & _ & Hc & Ht & Hl).
    exfalso.
    assert (Hp : fold_left bucket_step
                   (elements (list_to_set
                      (map Category (GetMedianTimesByAgeCategory d id1) ++
                       map Category (GetMedianTimesByAgeCategory d id2))%list
                      : gset string))
                   (Some {| juniors := []; males := [];
                            females := []; others := [] |}) = None).
    { apply bucket_step_panics. exists c. split; [|done]. by apply Hcats. }
    congruence.
  - split; [|done]. intros _.
    apply bucket_step_panics in E as (c & Hin & Hl).
    apply Hcats in Hin as [Hc Ht].
    by exists id1, id2, stats1, stats2, c.
Qed.

Lemma results_at_In locationID d re :
  In re (SQL.results_at locationID d) -> In (fst re) (results d).
Proof.
  unfold SQL.results_at. rewrite <- !list_elem_of_In.
  intros H. apply list_elem_of_bind in H as (r & H & Hr).
  apply list_elem_of_bind in H as (e & H & _).
  destruct (match r_event_id r with Some i => i =? e_id e | None => false end).
  - apply list_elem_of_singleton in H. by subst re.
  - by apply elem_of_nil in H.
Qed.

(** C10, as the code has it.  The grouping loops slice [category[:2]]
    without a length check, the categories being those the median query
    returns: the non-empty categories of the timed results of the reported
    location(s).  So the two reports do not panic when all of those have at
    least two bytes, in particular when every stored non-empty category
    has; and when a timed result of a reported location has a category of
    exactly one character and the summary queries succeed, the out-of-range
    slice is reached. *)
Theorem category_slice_safety d :
  (forall locationSlug,
      (forall locationID c,
          SQL.select_location_id locationSlug d = Some locationID ->
          timed_in d locationID c -> c <> "" -> (2 <= String.length c)%nat) ->
      PrintReports d locationSlug <> Panicked) /\
  (forall location1 location2,
      (forall id1 id2 c,
          SQL.select_location_id location1 d = Some id1 ->
          SQL.select_location_id location2 d = Some id2 ->
          timed_in d id1 c \/ timed_in d id2 c -> c <> "" ->
          (2 <= String.length c)%nat) ->
      PrintComparisonReport d location1 location2 <> Panicked) /\
  (categories_sliceable d ->
   forall location1 location2,
     PrintReports d location1 <> Panicked /\
     PrintComparisonReport d location1 location2 <> Panicked) /\
  (forall locationSlug locationID stats c,
      SQL.select_location_id locationSlug d = Some locationID ->
      GetLocationStats d locationID = inl stats ->
      timed_in d locationID c -> String.length c = 1%nat ->
      PrintReports d locationSlug = Panicked) /\
  (forall location1 location2 id1 id2 stats1 stats2 c,
      SQL.select_location_id location1 d = Some id1 ->
      SQL.select_location_id location2 d = Some id2 ->
      GetLocationStats d id1 = inl stats1 ->
      GetLocationStats d id2 = inl stats2 ->
      timed_in d id1 c \/ timed_in d id2 c -> String.length c = 1%nat ->
      PrintComparisonReport d location1 location2 = Panicked).
Proof.
  assert (S1 : forall locationSlug,
             (forall locationID c,
                 SQL.select_location_id locationSlug d = Some locationID ->
                 timed_in d locationID c -> c <> "" ->
                 (2 <= String.length c)%nat) ->
             PrintReports d locationSlug <> Panicked).
  { intros slug Hok Hp.
    apply PrintReports_panics in Hp as (id & stats & c & Hsel & _ & Hc & Ht & Hl).
    specialize (Hok id c Hsel Ht Hc). lia. }
  assert (S2 : forall location1 location2,
             (forall id1 id2 c,
                 SQL.select_location_id location1 d = Some id1 ->
                 SQL.select_location_id location2 d = Some id2 ->
                 timed_in d id1 c \/ timed_in d id2 c -> c <> "" ->
                 (2 <= String.length c)%nat) ->
             PrintComparisonReport d location1 location2 <> Panicked).
  { intros l1 l2 Hok Hp.
    apply PrintComparisonReport_panics in Hp
      as (id1 & id2 & s1 & s2 & c & H1 & H2 & _ & _ & Hc & Ht & Hl).
    specialize (Hok id1 id2 c H1 H2 Ht Hc). lia. }
  assert (G : categories_sliceable d ->
              forall id c, timed_in d id c -> c <> "" ->
                           (2 <= String.length c)%nat).
  { intros Hall id c (re & t & Hre & Hc & _) Hne.
    apply (Hall (fst re) c); [by eapply results_at_In|done|done]. }
  split; [exact S1|]. split; [exact S2|]. split; [|split].
  - intros Hall l1 l2. split.
    + apply S1. intros id c _. by apply G.
    + apply S2. intros id1 id2 c _ _ [H|H]; by apply (G Hall _ _ H).
  - intros slug id stats c Hsel Hs Ht Hl. apply PrintReports_panics.
    exists id, stats, c. repeat split; try done; [|lia].
    intros ->. simpl in Hl. lia.
  - intros l1 l2 id1 id2 s1 s2 c H1 H2 Hs1 Hs2 Ht Hl.
    apply PrintComparisonReport_panics.
    exists id1, id2, s1, s2, c. repeat split; try done; [|lia].
    intros ->. simpl in Hl. lia.
Qed.

Lemma category_slice_safety_witness :
  PrintReports (db_short_category None) "bushy" <> Panicked /\
  PrintReports (db_short_category (Some 1500)) "bushy" = Panicked /\
  PrintComparisonReport (db_short_category (Some 1500)) "bushy" "bushy" = Panicked.
Proof.
  split; [|split].
  - destruct (category_slice_safety (db_short_category None)) as (H & _).
    apply H. intros id c [= <-] (re & t & Hre & Hc & Ht & Hpos) Hne.
    vm_compute in Hre. destruct Hre as [<-|[<-|[]]]; simpl in *.
    + injection Hc as <-. simpl. lia.
    + discriminate.
  - destruct (category_slice_safety (db_short_category (Some 1500)))
      as (_ & _ & _ & H & _).
    eapply (H "bushy" 1 _ "M"); [reflexivity|by vm_compute| |reflexivity].
    apply times_of_nonempty. vm_compute. discriminate.
  - destruct (category_slice_safety (db_short_category (Some 1500)))
      as (_ & _ & _ & _ & H).
    eapply (H "bushy" "bushy" 1 1 _ _ "M");
      [reflexivity|reflexivity|by vm_compute|by vm_compute| |reflexivity].
    left. apply times_of_nonempty. vm_compute. discriminate.
Defined.

(** C10 as stated fails: the database stores a one-character category
    ("M", on a result without a time), yet both reports complete. *)
Lemma short_category_without_time_is_harmless :
  let d := db_short_category None in
  ~ categories_sliceable d /\
  (exists r, In r (results d) /\ r_age_category r = Some "M") /\
  (exists report, PrintReports d "bushy" = Done report) /\
  (exists comparison, PrintComparisonReport d "bushy" "bushy" = Done comparison).
Proof.
  split; [|split; [|split]].
  - intros H.
    specialize (H (nth 1 (results (db_short_category None))
                     {| r_id := 0; r_position := 0; r_name := "";
                        r_time_seconds := None; r_age_grade := None;
                        r_age_category := None; r_note := None;
                        r_total_runs := None; r_event_id := None |}) "M").
    simpl in H. assert (2 <= 1)%nat; [|lia].
    apply H; [tauto|reflexivity|discriminate].
  - eexists. split; [right; left; reflexivity|reflexivity].
  - eexists. by vm_compute.
  - eexists. by vm_compute.
Qed.

(** ** db.go: the rowid of a stored event *)

Lemma fold_max_ge seq ids :
  seq <= fold_right Z.max seq ids /\
  forall i, In i ids -> i <= fold_right Z.max seq ids.
Proof.
  induction ids as [|j ids [IH1 IH2]]; simpl.
  - split; [lia|tauto].
  - split; [lia|]. intros i [->|Hi]; [lia|]. specialize (IH2 i Hi). lia.
Qed.

(** [INSERT OR REPLACE] never keeps the rowid of the row it replaces: the
    new row's id is larger than every id in the table. *)
Lemma insert_or_replace_event_fresh ev d id d' :
  SQL.insert_or_replace_event ev d = Some (id, d') ->
  (forall e, In e (events d) -> e_id e < id) /\
  (exists row, events d' = (List.filter
                   (fun e => negb ((e_event_number e =? EventNumber ev)
                                   && (e_location_id e =? LocationID ev)))
                   (events d) ++ [row])%list /\ e_id row = id) /\
  results d' = results d.
Proof.
  unfold SQL.insert_or_replace_event, SQL.next_rowid.
  destruct (fold_right Z.max (seq_events d) (map e_id (events d)) <? GoInt.max_int);
    [|done].
  intros [= <- <-]. simpl. split; [|split; [by eexists|done]].
  intros e He. destruct (fold_max_ge (seq_events d) (map e_id (events d))) as [_ H].
  specialize (H (e_id e) (in_map e_id _ _ He)). lia.
Qed.

(** Running the ingest again on a location that is stored, the source
    answering 425 for the next event number, resumes after the last event
    and leaves the tables as they are. *)
Example ingest_again_resumes :
  let first :=
    snd (parseAndStoreResults "bushy" false
           [Responded 200 (Some page_1); Responded 425 None]
           {| db := empty_db; faults := []; trace := [] |}) in
  let again :=
    parseAndStoreResults "bushy" false [Responded 425 None]
      {| db := db first; faults := []; trace := [] |} in
  fst again = Ok (Returned {| eventID := 2; consecutiveErrors := 0 |}) /\
  db (snd again) = db first /\
  requests (trace (snd again)) = ["https://www.parkrun.com.au/bushy/results/2/"].
Proof. repeat split; by vm_compute. Qed.

(** Clearing one of two locations, as in the repository's test. *)
Example ClearLocationData_two_locations :
  let d :=
    {| locations :=
         [ {| l_id := 1; l_slug := "location-1"; l_name := None; l_country := "AUS" |};
           {| l_id := 2; l_slug := "location-2"; l_name := None; l_country := "AUS" |} ];
       events :=
         [ {| e_id := 1; e_event_number := 1; e_location_id := 1;
              e_date := {| Year := 2023; Month := 1; Day := 1 |}; e_url := "u1" |};
           {| e_id := 2; e_event_number := 1; e_location_id := 2;
              e_date := {| Year := 2023; Month := 1; Day := 1 |}; e_url := "u2" |} ];
       results :=
         [ {| r_id := 1; r_position := 1; r_name := "Runner A";
              r_time_seconds := Some 1200; r_age_grade := None;
              r_age_category := None; r_note := None; r_total_runs := None;
              r_event_id := Some 1 |};
           {| r_id := 2; r_position := 1; r_name := "Runner B";
              r_time_seconds := Some 1300; r_age_grade := None;
              r_age_category := None; r_note := None; r_total_runs := None;
              r_event_id := Some 2 |} ];
       seq_locations := 2; seq_events := 2; seq_results := 2 |} in
  let run faults := ClearLocationData "location-1"
                      {| db := d; faults := faults; trace := [] |} in
  fst (run []) = Ok None /\
  map l_slug (locations (db (snd (run [])))) = ["location-2"] /\
  map e_id (events (db (snd (run [])))) = [2] /\
  map r_name (results (db (snd (run [])))) = ["Runner B"] /\
  fst (run [false; false; false; true])
    = Ok (Some (Errorf "error deleting events")) /\
  db (snd (run [false; false; false; true])) = d /\
  fst (ClearLocationData "nowhere" {| db := d; faults := []; trace := [] |})
    = Ok None /\
  db (snd (ClearLocationData "nowhere" {| db := d; faults := []; trace := [] |})) = d.
Proof. repeat split; by vm_compute. Qed.

(** ** [secondsToTime] and [timeToSeconds] *)

Lemma digits_of_uint_acc d acc :
  Strconv.digits (Z.pos acc) (NilEmpty.string_of_uint d)
    = Some (Z.pos (Pos.of_uint_acc d acc)).
Proof.
  revert acc. induction d; intros acc;
    cbn [NilEmpty.string_of_uint Pos.of_uint_acc Strconv.digits]; [done|..];
    (match goal with
     | |- context [Strconv.is_digit ?c] =>
         change (Strconv.is_digit c) with true; cbv iota
     end;
     rewrite <- IHd; f_equal; unfold Strconv.digit_value; simpl N_of_ascii; lia).
Qed.

Lemma digits_of_uint d :
  Strconv.digits 0 (NilEmpty.string_of_uint d) = Some (Z.of_N (Pos.of_uint d)).
Proof.
  induction d; cbn [NilEmpty.string_of_uint Pos.of_uint Strconv.digits]; [done|..];
    match goal with
    | |- context [Strconv.is_digit ?c] =>
        change (Strconv.is_digit c) with true; cbv iota
    end;
    [exact IHd | cbn [Z.of_N]; rewrite <- digits_of_uint_acc; f_equal ..].
Qed.

(** [%d] of a number that is not negative is its decimal digits. *)
Lemma digits_Fmt_d z : 0 <= z -> Strconv.digits 0 (Fmt.d z) = Some z /\ Fmt.d z <> "".
Proof.
  intros Hz. unfold Fmt.d. destruct z as [|p|p]; [done| |lia].
  cbn [Z.to_int NilZero.string_of_int NilZero.string_of_uint].
  pose proof (Unsigned.to_uint_nonnil p) as Hn.
  destruct (Pos.to_uint p) eqn:E; [done|..];
    (unfold NilZero.string_of_uint; split;
     [rewrite <- E, digits_of_uint, Unsigned.of_to; done | done]).
Qed.

Lemma digits_Fmt_d02 z :
  0 <= z -> Strconv.digits 0 (Fmt.d02 z) = Some z /\ Fmt.d02 z <> "".
Proof.
  intros Hz. unfold Fmt.d02. destruct (digits_Fmt_d z Hz) as [Hd Hne].
  destruct ((0 <=? z) && (z <? 10)); [|done].
  split; [|done]. change ("0" +:+ Fmt.d z) with (String "0"%char (Fmt.d z)).
  cbn [Strconv.digits].
  change (Strconv.is_digit "0") with true. cbv iota. exact Hd.
Qed.

(** A run of digits holds no sign and no colon. *)
Lemma digits_Atoi s v :
  s <> "" -> Strconv.digits 0 s = Some v -> GoInt.in_range v = true ->
  Strconv.Atoi s = (v, None).
Proof.
  intros Hne Hd Hr. apply Atoi_accepts. exists false, s, v.
  split; [|done]. left. split; [done|]. split; [done|].
  split; intros r ->; cbn [Strconv.digits] in Hd; discriminate.
Qed.

Lemma digits_Split acc s v rest :
  Strconv.digits acc s = Some v ->
  GoStrings.Split s ":"%char = [s] /\
  GoStrings.Split (s ++ String ":"%char rest) ":"%char
    = s :: GoStrings.Split rest ":"%char.
Proof.
  revert acc. induction s as [|c s IH]; intros acc Hd; [done|].
  cbn [Strconv.digits] in Hd. destruct (Strconv.is_digit c) eqn:Ec; [|done].
  destruct (IH _ Hd) as [H1 H2].
  assert (Hc : Ascii.eqb c ":" = false).
  { destruct (Ascii.eqb_spec c ":"%char) as [->|]; [discriminate|done]. }
  split.
  - cbn [GoStrings.Split]. rewrite Hc, H1. done.
  - change (String c s +:+ String ":"%char rest)
      with (String c (s +:+ String ":"%char rest)).
    cbn [GoStrings.Split]. rewrite Hc, H2. done.
Qed.

Lemma Split_join a b v :
  Strconv.digits 0 a = Some v ->
  GoStrings.Split (a ++ ":" ++ b) ":"%char = a :: GoStrings.Split b ":"%char.
Proof. intros Hd. exact (proj2 (digits_Split 0 a v b Hd)). Qed.

Lemma Atoi_Fmt z :
  0 <= z <= GoInt.max_int ->
  Strconv.Atoi (Fmt.d z) = (z, None) /\ Strconv.Atoi (Fmt.d02 z) = (z, None).
Proof.
  intros Hz.
  assert (Hr : GoInt.in_range z = true).
  { unfold GoInt.in_range, GoInt.min_int, GoInt.max_int in *. lia. }
  destruct (digits_Fmt_d z) as [? ?]; [lia|].
  destruct (digits_Fmt_d02 z) as [? ?]; [lia|].
  split; by apply digits_Atoi.
Qed.

Lemma quot_rem_nonneg a b :
  0 <= a -> 0 < b -> GoInt.quot a b = a / b /\ GoInt.rem a b = a mod b.
Proof.
  intros Ha Hb. unfold GoInt.quot, GoInt.rem.
  replace (b =? -1) with false by lia. rewrite andb_false_r.
  split; [apply Z.quot_div_nonneg | apply Z.rem_mod_nonneg]; lia.
Qed.

(** A printed duration is read back. *)
Lemma secondsToTime_read_back s :
  0 <= s <= GoInt.max_int -> timeToSeconds (secondsToTime s) = inl s.
Proof.
  intros Hs. unfold secondsToTime.
  destruct (Z.eqb_spec s 0) as [->|Hs0]; [reflexivity|].
  destruct (quot_rem_nonneg s 3600) as [-> E1]; [lia..|]. rewrite E1.
  destruct (quot_rem_nonneg (s mod 3600) 60) as [-> _];
    [apply Z.mod_pos_bound; lia | lia |].
  destruct (quot_rem_nonneg s 60) as [_ ->]; [lia..|].
  set (h := s / 3600). set (m := s mod 3600 / 60). set (c := s mod 60).
  assert (Hh : 0 <= h <= GoInt.max_int /\ 0 <= m < 60 /\ 0 <= c < 60 /\
               s = h * 3600 + m * 60 + c).
  { assert (GoInt.max_int = 9223372036854775807) as Hmax by reflexivity.
    rewrite Hmax in *. subst h m c.
    pose proof (Z.div_mod s 3600). pose proof (Z.div_mod (s mod 3600) 60).
    pose proof (Z.mod_pos_bound s 3600). pose proof (Z.mod_pos_bound s 60).
    pose proof (Z.mod_pos_bound (s mod 3600) 60).
    pose proof (Z.div_pos s 3600). pose proof (Z.div_pos (s mod 3600) 60).
    assert (s mod 60 = (s mod 3600) mod 60) as ->.
    { symmetry. apply Z.mod_mod_divide. by exists 60. }
    lia. }
  destruct Hh as (Hh & Hm & Hc & Hsum).
  assert (Hm' : 0 <= m <= GoInt.max_int) by (unfold GoInt.max_int; lia).
  assert (Hc' : 0 <= c <= GoInt.max_int) by (unfold GoInt.max_int; lia).
  destruct (Atoi_Fmt h Hh) as [Ah _].
  destruct (Atoi_Fmt m Hm') as [Am Am2].
  destruct (Atoi_Fmt c Hc') as [_ Ac2].
  destruct (digits_Fmt_d h) as [Dh _]; [lia|].
  destruct (digits_Fmt_d m) as [Dm _]; [lia|].
  destruct (digits_Fmt_d02 m) as [Dm2 _]; [lia|].
  destruct (digits_Fmt_d02 c) as [Dc2 _]; [lia|].
  destruct (0 <? h) eqn:Eh.
  - assert (Sp : GoStrings.Split (Fmt.d h ++ ":" ++ Fmt.d02 m ++ ":" ++ Fmt.d02 c)
                   ":"%char = [Fmt.d h; Fmt.d02 m; Fmt.d02 c]).
    { rewrite (Split_join _ _ _ Dh), (Split_join _ _ _ Dm2).
      by rewrite (proj1 (digits_Split _ _ _ "" Dc2)). }
    destruct (Split_two_not_placeholder _ _ Sp) as [N1 N2]; [simpl; lia|].
    rewrite (timeToSeconds_split _ N1 N2), Sp, Ah, Am2, Ac2.
    unfold GoInt.max_int, GoInt.min_int in *.
    rewrite (mul_exact h), (mul_exact m), (add_exact (h * 3600)), add_exact;
      unfold GoInt.max_int, GoInt.min_int; try lia. f_equal. lia.
  - assert (h = 0) as Hh0 by lia.
    assert (Sp : GoStrings.Split (Fmt.d m ++ ":" ++ Fmt.d02 c) ":"%char
                 = [Fmt.d m; Fmt.d02 c]).
    { rewrite (Split_join _ _ _ Dm).
      by rewrite (proj1 (digits_Split _ _ _ "" Dc2)). }
    destruct (Split_two_not_placeholder _ _ Sp) as [N1 N2]; [simpl; lia|].
    rewrite (timeToSeconds_split _ N1 N2), Sp, Am, Ac2.
    rewrite (mul_exact m), add_exact;
      unfold GoInt.max_int, GoInt.min_int; try lia. f_equal. lia.
Qed.

(** X1: a duration that [secondsToTime] prints is read back by
    [timeToSeconds] as the same number of seconds, for every [int] that is
    not negative (0 goes through "Unknown"). *)
Theorem timeToSeconds_secondsToTime s :
  0 <= s <= GoInt.max_int -> timeToSeconds (secondsToTime s) = inl s.
Proof. apply secondsToTime_read_back. Qed.

Lemma timeToSeconds_secondsToTime_witness :
  timeToSeconds (secondsToTime 3725) = inl 3725.
Proof. apply timeToSeconds_secondsToTime. unfold GoInt.max_int. lia. Defined.

(** ** parser.go: the rows of [scrapeEvent] *)

Lemma scrapeRow_cases acc s :
  (exists r,
      results_ (scrapeRow acc s) = (results_ acc ++ [r])%list /\
      processedRows (scrapeRow acc s) = GoInt.add (processedRows acc) 1 /\
      skippedRows (scrapeRow acc s) = skippedRows acc /\
      warnings (scrapeRow acc s) = warnings acc /\
      EventID r = 0 /\
      Time_ r = GoStrings.TrimSpace (time_compact s) /\
      (Name r = "Unknown" -> TimeSeconds r = 0) /\
      (Name r <> "Unknown" -> timeToSeconds (Time_ r) = inl (TimeSeconds r))) \/
  (results_ (scrapeRow acc s) = results_ acc /\
   processedRows (scrapeRow acc s) = processedRows acc /\
   skippedRows (scrapeRow acc s) = GoInt.add (skippedRows acc) 1 /\
   (exists w, warnings (scrapeRow acc s) = (warnings acc ++ [w])%list) /\
   AttrOr (data_name s) "" <> "Unknown" /\
   exists err, timeToSeconds (GoStrings.TrimSpace (time_compact s)) = inr err).
Proof.
  unfold scrapeRow.
  destruct (String.eqb_spec (AttrOr (data_name s) "") "Unknown") as [E|E]; simpl.
  - left. eexists. repeat split; simpl; try done.
  - destruct (timeToSeconds (GoStrings.TrimSpace (time_compact s))) as [t|err] eqn:Et.
    + left. eexists. repeat split; simpl; try done.
    + right. simpl. repeat split; try done; by eexists.
Qed.

Lemma fold_scrapeRow rs : forall acc,
  0 <= processedRows acc -> 0 <= skippedRows acc ->
  processedRows acc + skippedRows acc + Z.of_nat (length rs) <= GoInt.max_int ->
  let sc := fold_left scrapeRow rs acc in
  exists kept skipped : nat,
    (kept + skipped)%nat = length rs /\
    length (results_ sc) = (length (results_ acc) + kept)%nat /\
    length (warnings sc) = (length (warnings acc) + skipped)%nat /\
    processedRows sc = processedRows acc + Z.of_nat kept /\
    skippedRows sc = skippedRows acc + Z.of_nat skipped.
Proof.
  assert (Hmin : GoInt.min_int <= 0) by (by vm_compute).
  induction rs as [|s rs IH]; intros acc Hp Hs Hb; cbn [fold_left].
  - exists 0%nat, 0%nat. simpl. repeat split; lia.
  - cbn [length] in Hb.
    destruct (scrapeRow_cases acc s)
      as [(r & Hr & Hpr & Hsk & Hw & _)|(Hr & Hpr & Hsk & [w Hw] & _)].
    + rewrite add_exact in Hpr by lia.
      destruct (IH (scrapeRow acc s)) as (k & sk & Hl & H1 & H2 & H3 & H4);
        [lia..|].
      exists (S k), sk. rewrite H1, H2, H3, H4, Hr, Hpr, Hsk, Hw, length_app.
      simpl. repeat split; lia.
    + rewrite add_exact in Hsk by lia.
      destruct (IH (scrapeRow acc s)) as (k & sk & Hl & H1 & H2 & H3 & H4);
        [lia..|].
      exists k, (S sk). rewrite H1, H2, H3, H4, Hr, Hpr, Hsk, Hw, length_app.
      simpl. repeat split; lia.
Qed.

(** X2: the two tallies of [scrapeEvent] account for every row of the page:
    the processed tally is the number of results returned, the skipped
    tally the number of warnings logged, and together they are the number
    of rows. *)
Theorem scrapeRows_tallies rs :
  Z.of_nat (length rs) <= GoInt.max_int ->
  let sc := scrapeRows rs in
  processedRows sc = Z.of_nat (length (results_ sc)) /\
  skippedRows sc = Z.of_nat (length (warnings sc)) /\
  processedRows sc + skippedRows sc = Z.of_nat (length rs).
Proof.
  intros Hb sc.
  destruct (fold_scrapeRow rs
              {| results_ := []; processedRows := 0; skippedRows := 0;
                 warnings := [] |})
    as (k & sk & Hl & H1 & H2 & H3 & H4); simpl; [lia..|].
  fold (scrapeRows rs) in H1, H2, H3, H4. fold sc in H1, H2, H3, H4.
  simpl in *. rewrite H1, H2, H3, H4. lia.
Qed.

Lemma scrapeRows_tallies_witness :
  let sc := scrapeRows (table_rows page_with_bad_positions) in
  processedRows sc = Z.of_nat (length (results_ sc)) /\
  skippedRows sc = Z.of_nat (length (warnings sc)) /\
  processedRows sc + skippedRows sc
    = Z.of_nat (length (table_rows page_with_bad_positions)).
Proof. apply scrapeRows_tallies. by vm_compute. Defined.

Lemma fold_scrapeRow_results (P : Result -> Prop) rs : forall acc,
  (forall acc s r, results_ (scrapeRow acc s) = (results_ acc ++ [r])%list ->
                   results_ (scrapeRow acc s) <> results_ acc -> P r) ->
  Forall P (results_ acc) ->
  Forall P (results_ (fold_left scrapeRow rs acc)).
Proof.
  intros acc Hstep. revert acc.
  induction rs as [|s rs IH]; intros acc Hacc; cbn [fold_left]; [done|].
  apply IH.
  destruct (scrapeRow_cases acc s) as [(r & Hr & _)|(Hr & _)].
  - rewrite Hr. apply Forall_app. split; [done|]. constructor; [|done].
    apply (Hstep acc s r Hr). rewrite Hr. intros E.
    apply (f_equal (@length _)) in E. rewrite length_app in E. simpl in E. lia.
  - by rewrite Hr.
Qed.

(** X3: in every result [scrapeEvent] returns, the seconds agree with the
    time string: an entrant named "Unknown" has 0 seconds whatever the time
    cell holds, any other has the value [timeToSeconds] gives for the
    string; the event id is still unset. *)
Theorem scrapeEvent_results_agree url eventNumber x event results r :
  fst (scrapeEvent url eventNumber x) = inl (event, results) ->
  In r results ->
  EventID r = 0 /\
  (Name r = "Unknown" -> TimeSeconds r = 0) /\
  (Name r <> "Unknown" -> timeToSeconds (Time_ r) = inl (TimeSeconds r)).
Proof.
  intros Hf Hin.
  assert (Hall : forall rs,
            Forall (fun r => EventID r = 0 /\
                      (Name r = "Unknown" -> TimeSeconds r = 0) /\
                      (Name r <> "Unknown" ->
                       timeToSeconds (Time_ r) = inl (TimeSeconds r)))
                   (results_ (scrapeRows rs))).
  { intros rs. apply fold_scrapeRow_results; [|by constructor].
    intros acc s r' Hr Hne.
    destruct (scrapeRow_cases acc s)
      as [(r'' & Hr' & _ & _ & _ & He & _ & Hu & Ht)|(Hr' & _)]; [|done].
    rewrite Hr in Hr'. apply app_inj_tail in Hr' as [_ ->]. done. }
  unfold scrapeEvent in Hf. destruct x as [| |status [doc|]]; try done.
  - destruct (400 <=? status); [done|].
    destruct (parseEventDate (format_date doc)); simpl in Hf;
      injection Hf as _ <-;
      exact (proj1 (List.Forall_forall _ _) (Hall _) r Hin).
  - by destruct (400 <=? status).
Qed.

Lemma scrapeEvent_results_agree_witness :
  let r := {| Position := 1; Name := "Runner A"; Time_ := "20:00";
              TimeSeconds := 1200; AgeGrade := "65.50";
              AgeCategory := "VM35-39"; Note := ""; TotalRuns := 10;
              EventID := 0 |} in
  EventID r = 0 /\
  (Name r = "Unknown" -> TimeSeconds r = 0) /\
  (Name r <> "Unknown" -> timeToSeconds (Time_ r) = inl (TimeSeconds r)).
Proof.
  intros r.
  apply (scrapeEvent_results_agree "u" 1 (Responded 200 (Some page_1))
           {| EventNumber := 1; LocationID := 0;
              Date := {| Year := 2023; Month := 1; Day := 1 |}; URL := "u" |}
           [r] r).
  - by vm_compute.
  - simpl. by left.
Defined.

(** ** parser.go: [ParseResults] *)


(** ** parser.go: [parseEventDate] *)

Lemma digit_value_bound c :
  Strconv.is_digit c = true -> 0 <= Strconv.digit_value c <= 9.
Proof.
  unfold Strconv.is_digit, Strconv.digit_value. cbv zeta.
  intros H. apply andb_true_iff in H as [H1 H2].
  apply N.leb_le in H1, H2. lia.
Qed.

Lemma getnum_bound s fixed n s' :
  GoTime.getnum s fixed = Some (n, s') -> 0 <= n <= 99.
Proof.
  unfold GoTime.getnum. intros H.
  destruct s as [|c0 s0]; [done|].
  destruct (Strconv.is_digit c0) eqn:E0; [|done].
  pose proof (digit_value_bound _ E0).
  destruct s0 as [|c1 s1].
  - destruct fixed; [done|]. injection H as <- _. lia.
  - destruct (Strconv.is_digit c1) eqn:E1.
    + pose proof (digit_value_bound _ E1). injection H as <- _. lia.
    + destruct fixed; [done|]. injection H as <- _. lia.
Qed.

Lemma digits_step acc c s :
  Strconv.digits acc (String c s) =
    if Strconv.is_digit c
    then Strconv.digits (acc * 10 + Strconv.digit_value c) s else None.
Proof. reflexivity. Qed.

(** The four bytes of a long year are digits: a year from 0 to 9999. *)
Lemma long_year_bound value p v' n :
  GoTime.take_prefix 4 value = Some (p, v') ->
  (exists c0 r, value = String c0 r /\ Strconv.is_digit c0 = true) ->
  GoTime.atoi p = Some n -> 0 <= n <= 9999.
Proof.
  intros Hp (c0 & r & -> & E0) Ha. unfold GoTime.take_prefix in Hp.
  destruct r as [|c1 [|c2 [|c3 r]]]; try done.
  cbn [String.length] in Hp.
  change (4 <=? S (S (S (S (String.length r)))))%nat with true in Hp.
  cbv iota in Hp. cbn [String.substring] in Hp.
  replace (String.substring 0 0 r) with "" in Hp by (by destruct r).
  injection Hp as <- _. unfold GoTime.atoi in Ha.
  assert (Hs : match String c0 (String c1 (String c2 (String c3 ""))) with
               | String "+"%char r0 => (false, r0)
               | String "-"%char r0 => (true, r0)
               | _ => (false, String c0 (String c1 (String c2 (String c3 ""))))
               end = (false, String c0 (String c1 (String c2 (String c3 ""))))).
  { destruct c0 as [[] [] [] [] [] [] [] []]; try reflexivity; discriminate. }
  rewrite Hs in Ha. rewrite !digits_step, E0 in Ha.
  destruct (Strconv.is_digit c1) eqn:E1; [|done].
  destruct (Strconv.is_digit c2) eqn:E2; [|done].
  destruct (Strconv.is_digit c3) eqn:E3; [|done].
  cbn [Strconv.digits] in Ha. injection Ha as <-.
  pose proof (digit_value_bound _ E0). pose proof (digit_value_bound _ E1).
  pose proof (digit_value_bound _ E2). pose proof (digit_value_bound _ E3).
  lia.
Qed.

(** The two bytes of a short year are two digits or a sign and a digit. *)
Lemma short_year_bound value p v' n :
  GoTime.take_prefix 2 value = Some (p, v') ->
  GoTime.atoi p = Some n -> -9 <= n <= 99.
Proof.
  intros Hp Ha. unfold GoTime.take_prefix in Hp.
  destruct value as [|c0 [|c1 r]]; try done.
  cbn [String.length] in Hp.
  change (2 <=? S (S (String.length r)))%nat with true in Hp.
  cbv iota in Hp. cbn [String.substring] in Hp.
  replace (String.substring 0 0 r) with "" in Hp by (by destruct r).
  injection Hp as <- _. unfold GoTime.atoi in Ha.
  destruct (Ascii.eqb_spec c0 "+"%char) as [->|Hp];
    [|destruct (Ascii.eqb_spec c0 "-"%char) as [->|Hm]].
  - rewrite digits_step in Ha.
    destruct (Strconv.is_digit c1) eqn:E1; [|done].
    cbn [Strconv.digits] in Ha. injection Ha as <-.
    pose proof (digit_value_bound _ E1). lia.
  - rewrite digits_step in Ha.
    destruct (Strconv.is_digit c1) eqn:E1; [|done].
    cbn [Strconv.digits] in Ha. injection Ha as <-.
    pose proof (digit_value_bound _ E1). lia.
  - assert (Hs : match String c0 (String c1 "") with
                 | String "+"%char r0 => (false, r0)
                 | String "-"%char r0 => (true, r0)
                 | _ => (false, String c0 (String c1 ""))
                 end = (false, String c0 (String c1 ""))).
    { destruct c0 as [[] [] [] [] [] [] [] []]; try reflexivity;
        exfalso; (by apply Hp) || (by apply Hm). }
    rewrite Hs in Ha. rewrite !digits_step in Ha.
    destruct (Strconv.is_digit c0) eqn:E0; [|done].
    destruct (Strconv.is_digit c1) eqn:E1; [|done].
    cbn [Strconv.digits] in Ha. injection Ha as <-.
    pose proof (digit_value_bound _ E0). pose proof (digit_value_bound _ E1).
    lia.
Qed.

Lemma parse_chunks_valid cs : forall value d m y t,
  GoTime.parse_chunks cs value d m y = Some t ->
  1 <= m <= 12 -> 0 <= y <= 9999 ->
  valid_date t.
Proof.
  induction cs as [|c cs IH]; intros value d m y t H Hm Hy.
  - cbn [GoTime.parse_chunks] in H. destruct value; [|done].
    destruct ((d <? 1) || (GoTime.daysIn m y <? d)) eqn:E; [done|].
    injection H as <-. apply orb_false_iff in E as [E1 E2].
    unfold valid_date. simpl. lia.
  - destruct c; cbn [GoTime.parse_chunks] in H.
    + destruct (GoTime.getnum value true) as [[n v']|]; [|done]. eauto.
    + destruct (GoTime.getnum value false) as [[n v']|]; [|done]. eauto.
    + destruct (GoTime.getnum value true) as [[n v']|]; [|done].
      destruct ((n <=? 0) || (12 <? n)) eqn:E; [done|].
      apply orb_false_iff in E as [E1 E2]. eapply IH; [exact H|lia|done].
    + destruct (GoTime.getnum value false) as [[n v']|]; [|done].
      destruct ((n <=? 0) || (12 <? n)) eqn:E; [done|].
      apply orb_false_iff in E as [E1 E2]. eapply IH; [exact H|lia|done].
    + destruct value as [|c0 r]; [done|].
      destruct (Strconv.is_digit c0) eqn:E0; [|done].
      destruct (GoTime.take_prefix 4 (String c0 r)) as [[p v']|] eqn:Ep; [|done].
      destruct (GoTime.atoi p) as [n|] eqn:Ea; [|done].
      eapply IH; [exact H|done|].
      eapply long_year_bound; [exact Ep| by eexists _, _ |exact Ea].
    + destruct (GoTime.take_prefix 2 value) as [[p v']|] eqn:Ep; [|done].
      destruct (GoTime.atoi p) as [n|] eqn:Ea; [|done].
      pose proof (short_year_bound _ _ _ _ Ep Ea).
      eapply IH; [exact H|done|]. destruct (69 <=? n); lia.
    + destruct value as [|c' v']; [done|].
      destruct (Ascii.eqb c c'); [|done]. eauto.
Qed.

(** X5: a date that [parseEventDate] accepts is a date of the calendar: a
    month from 1 to 12, a day that the month has in that year (29 February
    in leap years only) and a year from 0 to 9999. *)
Theorem parseEventDate_valid dateText t :
  parseEventDate dateText = inl t -> valid_date t.
Proof.
  unfold parseEventDate. generalize (GoStrings.TrimSpace dateText) as v.
  intros v H.
  assert (Hp : forall layout t',
            GoTime.Parse layout v = Some t' -> valid_date t').
  { intros layout t'. unfold GoTime.Parse.
    destruct (GoTime.chunks layout) as [cs|]; [|done].
    intros Hc. eapply parse_chunks_valid; [exact Hc|lia..]. }
  repeat match type of H with
         | context [GoTime.Parse ?l v] =>
             let E := fresh "E" in
             destruct (GoTime.Parse l v) as [?|] eqn:E;
               [injection H as <-; by eapply Hp|]
         end.
  done.
Qed.

Lemma parseEventDate_valid_witness :
  valid_date {| Year := 2024; Month := 2; Day := 29 |}.
Proof. apply (parseEventDate_valid "29/02/2024"). by vm_compute. Defined.

(** ** The schema is kept *)

Lemma NoDup_map_filter {A B} (f : A -> B) (p : A -> bool) (l : list A) :
  NoDup (map f l) -> NoDup (map f (List.filter p l)).
Proof.
  induction l as [|a l IH]; simpl; [done|].
  intros H. apply NoDup_cons in H as [Hn Hd].
  destruct (p a); simpl; [|by apply IH].
  apply NoDup_cons. split; [|by apply IH].
  rewrite list_elem_of_In, in_map_iff in *.
  intros (x & Hx & Hin). apply Hn. exists x. split; [done|].
  apply filter_In in Hin. tauto.
Qed.

Lemma NoDup_omap_filter {A B} (f : A -> option B) (p : A -> bool) (l : list A) :
  NoDup (omap f l) -> NoDup (omap f (List.filter p l)).
Proof.
  induction l as [|a l IH]; simpl; [done|].
  intros H. destruct (p a); simpl.
  - destruct (f a) as [b|] eqn:E; [|by apply IH].
    apply NoDup_cons in H as [Hn Hd]. apply NoDup_cons. split; [|by apply IH].
    rewrite list_elem_of_omap in *. intros (x & Hx & Hfx). apply Hn.
    exists x. split; [|done].
    rewrite list_elem_of_In in *. apply filter_In in Hx. tauto.
  - destruct (f a); [|by apply IH]. apply NoDup_cons in H as [_ Hd]. by apply IH.
Qed.

Lemma next_rowid_fresh seq ids id :
  SQL.next_rowid seq ids = Some id ->
  seq < id /\ forall i, In i ids -> i < id.
Proof.
  unfold SQL.next_rowid.
  destruct (fold_right Z.max seq ids <? GoInt.max_int); [|done].
  intros [= <-]. destruct (fold_max_ge seq ids) as [H1 H2].
  split; [lia|]. intros i Hi. specialize (H2 i Hi). lia.
Qed.

Lemma NoDup_snoc {A} (l : list A) (a : A) :
  NoDup l -> ~ In a l -> NoDup (l ++ [a]).
Proof.
  intros Hl Ha. apply NoDup_app. split; [done|]. split; [|apply NoDup_singleton].
  intros x Hx Hx'. apply list_elem_of_singleton in Hx' as ->.
  apply Ha. by rewrite <- list_elem_of_In.
Qed.

Lemma schema_insert_event ev d id d' :
  SQL.insert_or_replace_event ev d = Some (id, d') -> schema d -> schema d'.
Proof.
  unfold SQL.insert_or_replace_event.
  destruct (SQL.next_rowid (seq_events d) (map e_id (events d))) as [i|] eqn:En;
    [|done].
  intros [= <- <-]. apply next_rowid_fresh in En as [Hseq Hfresh].
  intros (L1 & L2 & E1 & E2 & R1 & R2 & S1 & S2 & S3).
  unfold schema. simpl. repeat split; try done.
  - rewrite map_app. simpl. apply NoDup_snoc; [by apply NoDup_map_filter|].
    rewrite in_map_iff. intros (e & He & Hin). apply filter_In in Hin as [Hin _].
    specialize (Hfresh (e_id e) (in_map e_id _ _ Hin)). lia.
  - rewrite map_app. simpl. apply NoDup_snoc; [by apply NoDup_map_filter|].
    rewrite in_map_iff. intros (e & He & Hin). apply filter_In in Hin as [_ Hk].
    unfold event_key in He. simpl in He. injection He as H1 H2.
    rewrite H1, H2, !Z.eqb_refl in Hk. done.
  - intros e He. apply in_app_iff in He as [He|[<-|[]]]; simpl; [|lia].
    apply filter_In in He as [He _].
    specialize (Hfresh (e_id e) (in_map e_id _ _ He)). lia.
Qed.

Lemma schema_insert_result position name timeSeconds ageGrade ageCategory note
    totalRuns eventID d d' :
  SQL.insert_or_replace_result position name timeSeconds ageGrade ageCategory
    note totalRuns eventID d = Some d' ->
  schema d -> schema d'.
Proof.
  unfold SQL.insert_or_replace_result.
  destruct (SQL.next_rowid (seq_results d) (map r_id (results d))) as [i|] eqn:En;
    [|done].
  intros [= <-]. apply next_rowid_fresh in En as [Hseq Hfresh].
  intros (L1 & L2 & E1 & E2 & R1 & R2 & S1 & S2 & S3).
  unfold schema. simpl. repeat split; try done.
  - rewrite map_app. simpl. apply NoDup_snoc; [by apply NoDup_map_filter|].
    rewrite in_map_iff. intros (r & Hr & Hin). apply filter_In in Hin as [Hin _].
    specialize (Hfresh (r_id r) (in_map r_id _ _ Hin)). lia.
  - rewrite omap_app. simpl. apply NoDup_snoc; [by apply NoDup_omap_filter|].
    rewrite <- list_elem_of_In, list_elem_of_omap. intros (r & Hin & Hk).
    rewrite list_elem_of_In in Hin. apply filter_In in Hin as [_ Hf].
    unfold result_key in Hk. destruct (r_event_id r) as [e|]; [|done].
    injection Hk as H1 H2. rewrite H1, H2, !Z.eqb_refl in Hf. done.
  - intros r Hr. apply in_app_iff in Hr as [Hr|[<-|[]]]; simpl; [|lia].
    apply filter_In in Hr as [Hr _].
    specialize (Hfresh (r_id r) (in_map r_id _ _ Hr)). lia.
Qed.

Lemma schema_insert_location slug country d id d' :
  SQL.insert_or_ignore_location slug country d = Some (id, d') ->
  schema d -> schema d'.
Proof.
  unfold SQL.insert_or_ignore_location.
  destruct (existsb _ (locations d)) eqn:Ex; [done|].
  destruct (SQL.next_rowid (seq_locations d) (map l_id (locations d)))
    as [i|] eqn:En; [|done].
  intros [= <- <-]. apply next_rowid_fresh in En as [Hseq Hfresh].
  intros (L1 & L2 & E1 & E2 & R1 & R2 & S1 & S2 & S3).
  unfold schema. simpl. repeat split; try done.
  - rewrite map_app. simpl. apply NoDup_snoc; [done|].
    intros Hin. specialize (Hfresh _ Hin). lia.
  - rewrite map_app. simpl. apply NoDup_snoc; [done|].
    rewrite in_map_iff. intros (l & Hl & Hin).
    assert (existsb (fun l => String.eqb (l_slug l) slug) (locations d) = true);
      [|congruence].
    apply existsb_exists. exists l. split; [done|]. by apply String.eqb_eq.
  - intros l Hl. apply in_app_iff in Hl as [Hl|[<-|[]]]; simpl; [|lia].
    specialize (Hfresh (l_id l) (in_map l_id _ _ Hl)). lia.
Qed.

Lemma schema_cleared locationID d : schema d -> schema (cleared locationID d).
Proof.
  intros (L1 & L2 & E1 & E2 & R1 & R2 & S1 & S2 & S3).
  unfold schema, cleared. simpl.
  repeat split; try (by apply NoDup_map_filter); try (by apply NoDup_omap_filter).
  - intros l Hl. apply filter_In in Hl as [Hl _]. by apply S1.
  - intros e He. apply filter_In in He as [He _]. by apply S2.
  - intros r Hr. apply filter_In in Hr as [Hr _]. by apply S3.
Qed.

(** *** What every statement keeps, the whole run keeps *)

Section Preservation.

Context (P : Database -> Prop).

Hypothesis P_insert_event : forall ev d id d',
  SQL.insert_or_replace_event ev d = Some (id, d') -> P d -> P d'.
Hypothesis P_insert_result :
  forall position name timeSeconds ageGrade ageCategory note totalRuns eventID d d',
  (forall t, timeSeconds = Some t -> 0 < t) ->
  SQL.insert_or_replace_result position name timeSeconds ageGrade ageCategory
    note totalRuns eventID d = Some d' ->
  P d -> P d'.
Hypothesis P_insert_location : forall slug country d id d',
  SQL.insert_or_ignore_location slug country d = Some (id, d') -> P d -> P d'.
Hypothesis P_cleared : forall locationID d, P d -> P (cleared locationID d).

Lemma preserves_ret {A} (a : A) : preserves P (ret a).
Proof. by intros w. Qed.

Lemma preserves_bind {A B} (m : M A) (k : A -> M B) :
  preserves P m -> (forall a, preserves P (k a)) -> preserves P (bind m k).
Proof.
  intros Hm Hk w Hw. unfold bind. specialize (Hm w Hw).
  destruct (m w) as [[a|msg] w']; simpl in *; [by apply Hk|done].
Qed.

Lemma preserves_bind_at {A B} (m : M A) (k : A -> M B) w :
  P (db (snd (m w))) -> (forall a, preserves P (k a)) ->
  P (db (snd (bind m k w))).
Proof.
  intros Hm Hk. unfold bind.
  destruct (m w) as [[a|msg] w']; simpl in *; [by apply Hk|done].
Qed.

Lemma preserves_emit es : preserves P (emit es).
Proof. by intros w. Qed.

Lemma preserves_log_Fatal {A} msg : preserves P (@log_Fatal A msg).
Proof. by intros w. Qed.

Lemma preserves_driver_call stmt : preserves P (driver_call stmt).
Proof. intros w Hw. unfold driver_call. by destruct (faults w). Qed.

(** Reading the database, then going on with what was read. *)
Lemma preserves_get_db {A} (k : Database -> M A) :
  (forall w, P (db w) -> P (db (snd (k (db w) w)))) ->
  preserves P (bind get_db k).
Proof. intros H w Hw. unfold bind, get_db. by apply H. Qed.

Lemma preserves_StoreEvent event : preserves P (StoreEvent event).
Proof.
  unfold StoreEvent. apply preserves_bind; [apply preserves_driver_call|].
  intros [|]; [apply preserves_ret|]. apply preserves_get_db. intros w Hw.
  destruct (SQL.insert_or_replace_event event (db w)) as [[id d']|] eqn:E;
    [|done].
  simpl. eapply P_insert_event; eauto.
Qed.

Lemma preserves_storeEach rs eventID : forall s e,
  preserves P (storeEach rs eventID s e).
Proof.
  induction rs as [|r rs IH]; intros s e; cbn [storeEach]; [apply preserves_ret|].
  apply preserves_bind; [apply preserves_driver_call|]. intros failed.
  apply preserves_get_db. intros w Hw.
  destruct (if failed then None else _) as [d'|] eqn:E.
  - destruct failed; [done|].
    unfold bind, put_db. simpl. apply IH. simpl.
    eapply P_insert_result; [|exact E|exact Hw].
    intros t. destruct (Z.ltb_spec 0 (TimeSeconds r)); [|done].
    intros [= <-]. done.
  - unfold bind, log_Printf, emit. simpl. by apply IH.
Qed.

Lemma preserves_StoreResults rs eventID : preserves P (StoreResults rs eventID).
Proof.
  unfold StoreResults. apply preserves_bind; [apply preserves_storeEach|].
  intros c. apply preserves_emit.
Qed.

Lemma preserves_GetNextEventNumber locationID :
  preserves P (GetNextEventNumber locationID).
Proof.
  unfold GetNextEventNumber. apply preserves_bind; [apply preserves_driver_call|].
  intros [|].
  - apply preserves_bind; [apply preserves_emit|]. intros _. apply preserves_ret.
  - apply preserves_get_db. by intros w Hw.
Qed.

Lemma preserves_ClearLocationData urlSlug :
  preserves P (ClearLocationData urlSlug).
Proof.
  unfold ClearLocationData.
  apply preserves_bind; [apply preserves_driver_call|].
  intros [|]; [apply preserves_ret|]. apply preserves_get_db. intros w Hw.
  destruct (SQL.select_location_id urlSlug (db w)) as [locationID|]; [|done].
  destruct w as [d fs tr]. simpl in *.
  unfold bind, driver_call, emit, put_db, ret. simpl.
  repeat (try done; try (by apply P_cleared); fault_step).
  all: try done; by apply P_cleared.
Qed.

Lemma preserves_countError st : preserves P (countError st).
Proof.
  unfold countError.
  destruct (_ <=? _);
    (apply preserves_bind; [apply preserves_emit|]; intros _; apply preserves_ret).
Qed.

Lemma preserves_loopBody urlSlug locationID x st :
  preserves P (loopBody urlSlug locationID x st).
Proof.
  unfold loopBody. destruct (ParseResults urlSlug (eventID st) x) as [fetched logs].
  apply preserves_bind; [apply preserves_emit|]. intros _.
  destruct fetched as [[event results]|err].
  - apply preserves_bind; [apply preserves_StoreEvent|].
    intros [dbEventID|err].
    + apply preserves_bind.
      { destruct (0 <? length results)%nat;
          [apply preserves_StoreResults|apply preserves_ret]. }
      intros _. apply preserves_bind; [apply preserves_emit|]. intros _.
      apply preserves_ret.
    + apply preserves_bind; [apply preserves_emit|]. intros _.
      apply preserves_ret.
  - apply preserves_bind; [apply preserves_emit|]. intros _.
    destruct err as [httpErr|msg]; [|apply preserves_countError].
    destruct (StatusCode httpErr =? 405).
    { apply preserves_bind; [apply preserves_emit|]. intros _.
      apply preserves_bind; [apply preserves_emit|]. intros _.
      apply preserves_ret. }
    destruct (StatusCode httpErr =? 425); [|apply preserves_countError].
    apply preserves_bind; [apply preserves_emit|]. intros _. apply preserves_ret.
Qed.

Lemma preserves_ingestLoop urlSlug locationID xs : forall st,
  preserves P (ingestLoop urlSlug locationID xs st).
Proof.
  induction xs as [|x xs IH]; intros st; cbn [ingestLoop]; [apply preserves_ret|].
  apply preserves_bind; [apply preserves_loopBody|]. intros [c st'].
  destruct c; simpl; [apply IH|apply preserves_ret..].
Qed.

Lemma preserves_CreateTables : preserves P CreateTables.
Proof.
  unfold CreateTables. apply preserves_bind; [|intros _; apply preserves_emit].
  repeat (apply preserves_bind; [apply preserves_driver_call|];
          intros [|]; [apply preserves_log_Fatal|]).
  apply preserves_ret.
Qed.

Lemma preserves_parseAndStoreResults urlSlug clearData xs :
  preserves P (parseAndStoreResults urlSlug clearData xs).
Proof.
  unfold parseAndStoreResults.
  apply preserves_bind; [apply preserves_driver_call|].
  intros [|]; [apply preserves_log_Fatal|].
  apply preserves_bind; [apply preserves_emit|]. intros _.
  apply preserves_bind; [apply preserves_CreateTables|]. intros _.
  apply preserves_bind.
  { destruct clearData; [|apply preserves_ret].
    apply preserves_bind; [apply preserves_ClearLocationData|].
    intros [err|]; [apply preserves_log_Fatal|apply preserves_emit]. }
  intros _. apply preserves_bind; [apply preserves_driver_call|]. intros failed.
  apply preserves_get_db. intros w Hw. apply preserves_bind_at.
  - destruct (if failed then None
              else SQL.insert_or_ignore_location urlSlug "AUS" (db w))
      as [[id d']|] eqn:E.
    + destruct failed; [done|]. simpl. eapply P_insert_location; eauto.
    + apply preserves_bind; [apply preserves_driver_call| |done].
      intros failed'.
      destruct (if failed' then None else SQL.select_location_id urlSlug (db w));
        [apply preserves_ret|apply preserves_log_Fatal].
  - intros locationID.
    apply preserves_bind; [apply preserves_emit|]. intros _.
    apply preserves_bind; [apply preserves_GetNextEventNumber|]. intros eventID0.
    apply preserves_bind; [apply preserves_emit|]. intros _.
    apply preserves_bind; [apply preserves_ingestLoop|].
    intros [st|st|st]; try apply preserves_ret.
    apply preserves_bind; [apply preserves_emit|]. intros _. apply preserves_ret.
Qed.

End Preservation.

Lemma schema_empty_db : schema empty_db.
Proof. unfold schema. simpl. repeat split; (constructor || by intros ? []). Qed.

(** X6: every write of db.go keeps the constraints the tables are created
    with (primary keys, the three UNIQUE constraints, the AUTOINCREMENT
    sequences), whichever driver calls fail. *)
Theorem db_writes_keep_schema event rs eventID urlSlug w :
  schema (db w) ->
  schema (db (snd (StoreEvent event w))) /\
  schema (db (snd (StoreResults rs eventID w))) /\
  schema (db (snd (ClearLocationData urlSlug w))).
Proof.
  intros Hw. split; [|split].
  - apply (preserves_StoreEvent schema schema_insert_event); done.
  - apply (preserves_StoreResults schema); [|done].
    intros ?????????? _. apply schema_insert_result.
  - apply (preserves_ClearLocationData schema schema_cleared); done.
Qed.

Lemma db_writes_keep_schema_witness :
  schema (db (snd (StoreEvent event_1 fresh_world))) /\
  schema (db (snd (StoreResults results_1 1 fresh_world))) /\
  schema (db (snd (ClearLocationData "bushy" fresh_world))).
Proof.
  apply db_writes_keep_schema. unfold schema. simpl.
  repeat split; try (apply NoDup_singleton || apply NoDup_nil_2);
    try (by intros ? []).
  intros l [<-|[]]. simpl. lia.
Defined.

(** X7: a whole run of [parseAndStoreResults] keeps the constraints of
    the tables, whatever the server answers and whichever driver calls
    fail; the empty database of a new file satisfies them. *)
Theorem parseAndStoreResults_keeps_schema :
  schema empty_db /\
  forall urlSlug clearData xs w,
    schema (db w) ->
    schema (db (snd (parseAndStoreResults urlSlug clearData xs w))).
Proof.
  split; [apply schema_empty_db|]. intros urlSlug clearData xs.
  apply (preserves_parseAndStoreResults schema);
    [apply schema_insert_event| |apply schema_insert_location|apply schema_cleared].
  intros ?????????? _. apply schema_insert_result.
Qed.

Lemma parseAndStoreResults_keeps_schema_witness :
  schema (db (snd (parseAndStoreResults "bushy" false
                     [Responded 200 (Some page_1); Responded 425 None]
                     {| db := empty_db; faults := []; trace := [] |}))).
Proof.
  destruct parseAndStoreResults_keeps_schema as [H0 H]. apply H. exact H0.
Defined.

(** *** Stored times *)

Lemma times_positive_insert_event ev d id d' :
  SQL.insert_or_replace_event ev d = Some (id, d') ->
  times_positive d -> times_positive d'.
Proof.
  unfold SQL.insert_or_replace_event.
  destruct (SQL.next_rowid _ _); [|done]. by intros [= <- <-].
Qed.

Lemma times_positive_insert_result
    position name timeSeconds ageGrade ageCategory note totalRuns eventID d d' :
  (forall t, timeSeconds = Some t -> 0 < t) ->
  SQL.insert_or_replace_result position name timeSeconds ageGrade ageCategory
    note totalRuns eventID d = Some d' ->
  times_positive d -> times_positive d'.
Proof.
  unfold SQL.insert_or_replace_result. intros Hts.
  destruct (SQL.next_rowid _ _); [|done]. intros [= <-] Hd r t Hr.
  simpl in Hr. apply in_app_iff in Hr as [Hr|[<-|[]]]; simpl.
  - apply filter_In in Hr as [Hr _]. by apply Hd.
  - apply Hts.
Qed.

Lemma times_positive_insert_location slug country d id d' :
  SQL.insert_or_ignore_location slug country d = Some (id, d') ->
  times_positive d -> times_positive d'.
Proof.
  unfold SQL.insert_or_ignore_location.
  destruct (existsb _ _); [done|].
  destruct (SQL.next_rowid _ _); [|done]. by intros [= <- <-].
Qed.

Lemma times_positive_cleared locationID d :
  times_positive d -> times_positive (cleared locationID d).
Proof.
  intros Hd r t Hr. simpl in Hr. apply filter_In in Hr as [Hr _]. by apply Hd.
Qed.

(** X8: the results table never comes to hold a time of zero seconds or
    less: [StoreResults] writes NULL for such a time (the placeholder
    entrants among them), and a whole run of [parseAndStoreResults] keeps
    the table so. *)
Theorem stored_times_stay_positive rs eventID urlSlug clearData xs w :
  times_positive (db w) ->
  times_positive (db (snd (StoreResults rs eventID w))) /\
  times_positive (db (snd (parseAndStoreResults urlSlug clearData xs w))).
Proof.
  intros Hw. split.
  - by apply (preserves_StoreResults times_positive times_positive_insert_result).
  - by apply (preserves_parseAndStoreResults times_positive
                times_positive_insert_event times_positive_insert_result
                times_positive_insert_location times_positive_cleared).
Qed.

Lemma stored_times_stay_positive_witness :
  let w := {| db := empty_db; faults := []; trace := [] |} in
  let zero := {| Position := 2; Name := "Unknown"; Time_ := "";
                 TimeSeconds := 0; AgeGrade := ""; AgeCategory := "";
                 Note := ""; TotalRuns := 0; EventID := 0 |} in
  times_positive (db (snd (StoreResults (zero :: results_1) 1 w))) /\
  times_positive (db (snd (parseAndStoreResults "bushy" true
                             [Responded 200 (Some page_1)] w))).
Proof.
  intros w zero. apply stored_times_stay_positive. by intros r t [].
Defined.

(** ** db.go: what [StoreEvent] leaves in the table *)

Lemma filter_filter_negb {A} (p : A -> bool) (l : list A) :
  List.filter p (List.filter (fun a => negb (p a)) l) = [].
Proof.
  induction l as [|a l IH]; simpl; [done|].
  destruct (p a) eqn:E; simpl; [done|]. by rewrite E.
Qed.

(** X9: [StoreEvent] returns an error and leaves the database alone, or
    returns an id larger than every id the events table had, and then the
    table holds exactly one event with that number at that location, the
    row with the returned id and the date and URL given; the other events,
    the results and the locations are as before. *)
Theorem StoreEvent_stores event w :
  exists out w',
    StoreEvent event w = (Ok out, w') /\
    match out with
    | inr _ => db w' = db w
    | inl id =>
        let same e := (e_event_number e =? EventNumber event)
                      && (e_location_id e =? LocationID event) in
        List.filter same (events (db w')) =
          [ {| e_id := id; e_event_number := EventNumber event;
               e_location_id := LocationID event; e_date := Date event;
               e_url := URL event |} ] /\
        List.filter (fun e => negb (same e)) (events (db w')) =
          List.filter (fun e => negb (same e)) (events (db w)) /\
        (forall e, In e (events (db w)) -> e_id e < id) /\
        seq_events (db w) < id /\
        results (db w') = results (db w) /\
        locations (db w') = locations (db w)
    end.
Proof.
  destruct (StoreEvent_cases event w)
    as [(id & d' & Hf & Hi & ->)|(err & ok & Hwhy & ->)];
    eexists _, _; (split; [reflexivity|]); [|done].
  simpl. unfold SQL.insert_or_replace_event in Hi.
  destruct (SQL.next_rowid _ _) as [i|] eqn:En; [|done].
  injection Hi as <- <-. apply next_rowid_fresh in En as [Hseq Hfresh]. simpl.
  rewrite !List.filter_app. simpl. rewrite !Z.eqb_refl. simpl.
  rewrite (filter_filter_negb
             (fun e => (e_event_number e =? EventNumber event)
                       && (e_location_id e =? LocationID event))).
  repeat split; try done.
  - rewrite app_nil_r.
    generalize (events (db w)). intros l.
    induction l as [|a l IH]; simpl; [done|].
    destruct (negb _) eqn:E; simpl; [|done]. rewrite E. by f_equal.
  - intros e He. apply Hfresh. by apply in_map.
Qed.

(** ** main.go: the loop and the next event number *)

Lemma MAX_eq zs n :
  In n zs -> (forall z, In z zs -> z <= n) -> SQL.MAX zs = Some n.
Proof.
  intros Hin Hle. destruct (SQL.MAX zs) as [m|] eqn:E.
  - destruct (MAX_spec _ _ E) as [Hm Hmax]. f_equal.
    specialize (Hle m Hm). specialize (Hmax n Hin). lia.
  - by destruct zs.
Qed.

Lemma last_event_number_le d locationID e :
  In e (events d) -> e_location_id e = locationID ->
  0 <= last_event_number d locationID ->
  e_event_number e <= last_event_number d locationID.
Proof.
  intros He Hl H0. unfold last_event_number in *.
  destruct (SQL.MAX _) as [m|] eqn:E.
  - destruct (MAX_spec _ _ E) as [_ Hmax]. simpl. apply Hmax.
    apply in_map. apply filter_In. split; [done|]. by apply Z.eqb_eq.
  - exfalso.
    destruct (List.filter _ (events d)) as [|a l] eqn:Ef; [|done].
    assert (Hin : In e (List.filter (fun e => e_location_id e =? locationID)
                          (events d))).
    { apply filter_In. split; [done|]. by apply Z.eqb_eq. }
    by rewrite Ef in Hin.
Qed.

(** Storing an event whose number is not below any stored one of the
    location makes it the last. *)
Lemma last_event_number_insert ev d id d' :
  SQL.insert_or_replace_event ev d = Some (id, d') ->
  (forall e, In e (events d) -> e_location_id e = LocationID ev ->
             e_event_number e <= EventNumber ev) ->
  last_event_number d' (LocationID ev) = EventNumber ev.
Proof.
  unfold SQL.insert_or_replace_event.
  destruct (SQL.next_rowid _ _) as [i|]; [|done]. intros [= <- <-] Hle.
  unfold last_event_number. simpl.
  rewrite List.filter_app, map_app. simpl. rewrite Z.eqb_refl. simpl.
  rewrite (MAX_eq _ (EventNumber ev)); [done|..].
  - apply in_app_iff. right. by left.
  - intros z Hz. apply in_app_iff in Hz as [Hz|[<-|[]]]; [|lia].
    apply in_map_iff in Hz as (e & <- & He).
    apply filter_In in He as [He Hl]. apply filter_In in He as [He _].
    apply Hle; [done|]. by apply Z.eqb_eq.
Qed.

Lemma StoreResults_events rs eventID w :
  exists w', StoreResults rs eventID w = (Ok tt, w') /\
             events (db w') = events (db w).
Proof.
  destruct (quiet_StoreResults rs eventID w) as ([] & w' & es & E & _).
  exists w'. split; [done|].
  assert (H : preserves (fun d => events d = events (db w))
                 (StoreResults rs eventID)).
  { apply preserves_StoreResults.
    intros position name ts ag ac note tr eid d d' _.
    unfold SQL.insert_or_replace_result.
    destruct (SQL.next_rowid _ _); [|done]. by intros [= <-]. }
  specialize (H w eq_refl). by rewrite E in H.
Qed.

Lemma ParseResults_event urlSlug eventNumber x event results logs :
  ParseResults urlSlug eventNumber x = (inl (event, results), logs) ->
  EventNumber event = eventNumber.
Proof.
  unfold ParseResults, scrapeEvent.
  destruct x as [| |status [doc|]]; try done.
  - destruct (400 <=? status); [done|].
    destruct (parseEventDate (format_date doc)); simpl; by intros [= <- _ _].
  - by destruct (400 <=? status).
Qed.

(** One pass keeps the event number of the loop one above the last stored
    number. *)
Lemma loopBody_next urlSlug locationID x st w :
  eventID st = last_event_number (db w) locationID + 1 ->
  0 < eventID st < GoInt.max_int ->
  exists c st' w',
    loopBody urlSlug locationID x st w = (Ok (c, st'), w') /\
    eventID st' = last_event_number (db w') locationID + 1 /\
    eventID st <= eventID st' <= eventID st + 1.
Proof.
  intros Hinv Hr. unfold loopBody.
  destruct (ParseResults urlSlug (eventID st) x) as [fetched logs] eqn:Ep.
  assert (Hmin : GoInt.min_int <= 0) by (by vm_compute).
  destruct fetched as [[event results]|err].
  - apply ParseResults_event in Ep.
    unfold bind at 1 2. unfold emit at 1. simpl.
    set (w1 := {| db := db w; faults := faults w;
                  trace := (trace w ++ logs)%list |}).
    set (ev := {| EventNumber := EventNumber event; LocationID := locationID;
                  Date := Date event; URL := URL event |}).
    destruct (StoreEvent_cases ev w1)
      as [(id & d' & Hf & Hi & E)|(err & ok & Hwhy & E)]; rewrite E.
    + set (w2 := {| db := d'; faults := tl (faults w1);
                    trace := (trace w1 ++
                      [Executed "INSERT OR REPLACE INTO events" true])%list |}).
      assert (Hq : exists w3,
                 (if (0 <? length results)%nat
                  then StoreResults results id else ret tt) w2 = (Ok tt, w3) /\
                 events (db w3) = events d').
      { destruct (0 <? length results)%nat; [apply StoreResults_events|].
        by exists w2. }
      destruct Hq as (w3 & E3 & Hev).
      unfold bind at 1. rewrite E3. simpl.
      eexists _, _, _. split; [reflexivity|]. simpl.
      rewrite add_exact by lia. split; [|lia].
      replace (last_event_number (db w3) locationID)
        with (last_event_number d' (LocationID ev)).
      2:{ unfold last_event_number. by rewrite Hev. }
      rewrite (last_event_number_insert ev (db w) id d' Hi); [simpl; lia|].
      intros e He Hl. simpl in Hl |- *.
      pose proof (last_event_number_le (db w) locationID e He Hl). lia.
    + simpl. eexists _, _, _. split; [reflexivity|]. simpl. split; [done|lia].
  - unfold bind, emit, log_Printf, time_Sleep, countError, emit, ret. simpl.
    destruct err as [httpErr|msg].
    + destruct (StatusCode httpErr =? 405); simpl.
      { eexists _, _, _. split; [reflexivity|]. simpl. split; [done|lia]. }
      destruct (StatusCode httpErr =? 425); simpl.
      { eexists _, _, _. split; [reflexivity|]. simpl. split; [done|lia]. }
      destruct (maxConsecutiveErrors <=? _); simpl;
        (eexists _, _, _; split; [reflexivity|]; simpl; split; [done|lia]).
    + destruct (maxConsecutiveErrors <=? _); simpl;
        (eexists _, _, _; split; [reflexivity|]; simpl; split; [done|lia]).
Qed.

(** X10: the loop keeps its event number one above the last number stored
    for the location, so a later run resumes where this one stopped:
    however the loop ends, [GetNextEventNumber] then returns the event
    number the loop was at.  The loop itself never ends the process. *)
Theorem ingestLoop_resumes urlSlug locationID xs : forall st w,
  eventID st = last_event_number (db w) locationID + 1 ->
  0 < eventID st ->
  eventID st + Z.of_nat (length xs) <= GoInt.max_int ->
  exists ended w',
    ingestLoop urlSlug locationID xs st w = (Ok ended, w') /\
    eventID st <= eventID (final_state ended)
      <= eventID st + Z.of_nat (length xs) /\
    forall w'', db w'' = db w' -> hd false (faults w'') = false ->
      fst (GetNextEventNumber locationID w'') = Ok (eventID (final_state ended)).
Proof.
  assert (Hnext : forall st w,
            eventID st = last_event_number (db w) locationID + 1 ->
            0 < eventID st <= GoInt.max_int ->
            forall w'', db w'' = db w -> hd false (faults w'') = false ->
              fst (GetNextEventNumber locationID w'') = Ok (eventID st)).
  { intros st w Hinv Hr w'' Hdb Hf.
    assert (Hmin : GoInt.min_int <= 0) by (by vm_compute).
    unfold GetNextEventNumber, bind, driver_call, get_db, ret.
    destruct w'' as [d fs tr]. simpl in Hdb, Hf. subst d.
    destruct fs as [|[] fs]; simpl in Hf |- *; try done;
      fold (last_event_number (db w) locationID);
      rewrite add_exact by lia; by rewrite Hinv. }
  induction xs as [|x xs IH]; intros st w Hinv H0 Hb; cbn [ingestLoop].
  - eexists _, _. split; [reflexivity|]. simpl. split; [lia|].
    apply (Hnext st w); [done|simpl in Hb; lia].
  - cbn [length] in Hb.
    destruct (loopBody_next urlSlug locationID x st w Hinv)
      as (c & st' & w' & E & Hinv' & Hst); [lia|].
    unfold bind. rewrite E. simpl. destruct c.
    + destruct (IH st' w' Hinv') as (ended & w2 & E2 & Hst2 & Hn); [lia..|].
      exists ended, w2. split; [done|]. split; [lia|done].
    + eexists _, _. split; [reflexivity|]. simpl. split; [lia|].
      apply (Hnext st' w'); [done|lia].
    + eexists _, _. split; [reflexivity|]. simpl. split; [lia|].
      apply (Hnext st' w'); [done|lia].
Qed.

Lemma ingestLoop_resumes_witness :
  exists ended w',
    ingestLoop "bushy" 1 [Responded 200 (Some page_1); Responded 425 None]
      {| eventID := 1; consecutiveErrors := 0 |} fresh_world = (Ok ended, w') /\
    1 <= eventID (final_state ended) <= 1 + 2 /\
    forall w'', db w'' = db w' -> hd false (faults w'') = false ->
      fst (GetNextEventNumber 1 w'') = Ok (eventID (final_state ended)).
Proof.
  apply (ingestLoop_resumes "bushy" 1
           [Responded 200 (Some page_1); Responded 425 None]
           {| eventID := 1; consecutiveErrors := 0 |} fresh_world).
  - reflexivity.
  - simpl. lia.
  - by vm_compute.
Defined.

(** ** [ClearLocationData] and the reports *)

Lemma filter_ext_in_bool {A} (p q : A -> bool) (l : list A) :
  (forall a, In a l -> p a = q a) -> List.filter p l = List.filter q l.
Proof.
  induction l as [|a l IH]; intros H; simpl; [done|].
  rewrite (H a) by (by left). rewrite IH; [done|]. intros b Hb. apply H. by right.
Qed.

Lemma NoDup_map_eq {A B} (f : A -> B) (l : list A) x y :
  NoDup (map f l) -> In x l -> In y l -> f x = f y -> x = y.
Proof.
  induction l as [|a l IH]; simpl; [done|].
  intros Hnd Hx Hy E. apply NoDup_cons in Hnd as [Hn Hnd].
  rewrite list_elem_of_In, in_map_iff in Hn.
  destruct Hx as [->|Hx], Hy as [->|Hy]; [done|..|by apply IH].
  - exfalso. apply Hn. by exists y.
  - exfalso. apply Hn. by exists x.
Qed.

Lemma events_cleared_same locationID d :
  List.filter (fun e => e_location_id e =? locationID)
    (events (cleared locationID d)) = [].
Proof.
  simpl. apply (filter_filter_negb (fun e => e_location_id e =? locationID)).
Qed.

Lemma events_cleared_other locationID other d :
  other <> locationID ->
  List.filter (fun e => e_location_id e =? other) (events (cleared locationID d))
    = List.filter (fun e => e_location_id e =? other) (events d).
Proof.
  intros Hne. simpl. generalize (events d). intros l.
  induction l as [|e l IH]; simpl; [done|].
  destruct (Z.eqb_spec (e_location_id e) locationID) as [E|E]; simpl.
  - replace (e_location_id e =? other) with false by lia. done.
  - by rewrite IH.
Qed.

Lemma results_at_unfold locationID d :
  SQL.results_at locationID d =
    r ← results d;
    e ← List.filter (fun e => e_location_id e =? locationID) (events d);
    if match r_event_id r with Some i => i =? e_id e | None => false end
    then [(r, e)] else [].
Proof. reflexivity. Qed.

Lemma results_at_cleared_same locationID d :
  SQL.results_at locationID (cleared locationID d) = [].
Proof.
  rewrite results_at_unfold, events_cleared_same.
  induction (results (cleared locationID d)) as [|r l IH]; [done|].
  csimpl. done.
Qed.

Lemma results_at_cleared_other locationID other d :
  NoDup (map e_id (events d)) -> other <> locationID ->
  SQL.results_at other (cleared locationID d) = SQL.results_at other d.
Proof.
  intros Hnd Hne. rewrite !results_at_unfold, events_cleared_other by done.
  set (evs := List.filter (fun e => e_location_id e =? other) (events d)).
  assert (Hevs : forall e, In e evs -> In e (events d) /\ e_location_id e = other).
  { intros e He. apply filter_In in He as [He Hl]. split; [done|lia]. }
  clearbody evs. simpl.
  induction (results d) as [|r l IH]; [done|]. simpl.
  destruct (negb _) eqn:Ek; csimpl; [by rewrite IH|]. rewrite IH.
  apply negb_false_iff in Ek.
  destruct (r_event_id r) as [i|] eqn:Ei; [|done].
  apply mem_event_ids in Ek as (ev & Hev & Hl & Hi).
  assert (Hnil : forall es : list EventRow,
            (forall e, In e es -> In e (events d) /\ e_location_id e = other) ->
            (e ← es; if i =? e_id e then [(r, e)] else []) = []).
  { induction es as [|e es IHes]; intros Hes; [done|]. csimpl.
    rewrite IHes by (intros e' He'; apply Hes; by right).
    destruct (Z.eqb_spec i (e_id e)) as [E|E]; [|done]. exfalso.
    destruct (Hes e) as [He Hle]; [by left|].
    assert (ev = e); [|congruence].
    apply (NoDup_map_eq e_id (events d)); [done..|congruence]. }
  by rewrite Hnil.
Qed.

Lemma ClearLocationData_done urlSlug w w' :
  ClearLocationData urlSlug w = (Ok None, w') ->
  match SQL.select_location_id urlSlug (db w) with
  | None => db w' = db w
  | Some locationID => db w' = cleared locationID (db w)
  end.
Proof.
  destruct w as [d fs tr]. simpl.
  destruct (SQL.select_location_id urlSlug d) as [locationID|] eqn:Hsel;
    unfold ClearLocationData, bind, driver_call, get_db, put_db, ret, emit;
    simpl.
  - repeat (first [fault_step | progress (rewrite Hsel; simpl)]);
      intros H; by inversion H.
  - destruct fs as [|[] fs]; simpl; rewrite ?Hsel;
      intros H; by inversion H.
Qed.

Lemma reports_of_results_at d1 d2 locationID :
  SQL.results_at locationID d1 = SQL.results_at locationID d2 ->
  List.filter (fun e => e_location_id e =? locationID) (events d1)
    = List.filter (fun e => e_location_id e =? locationID) (events d2) ->
  (forall limit, GetTopParticipants d1 locationID limit
                 = GetTopParticipants d2 locationID limit) /\
  GetMedianTimesByAgeCategory d1 locationID
    = GetMedianTimesByAgeCategory d2 locationID /\
  GetLocationStats d1 locationID = GetLocationStats d2 locationID /\
  last_event_number d1 locationID = last_event_number d2 locationID.
Proof.
  intros Hr He.
  unfold GetTopParticipants, GetMedianTimesByAgeCategory, median_rows,
    GetLocationStats, count_distinct_names, last_event_number.
  by rewrite Hr, He.
Qed.

(** X11: after [ClearLocationData] has returned nil in a database that
    meets its schema, the location cleared has nothing to report (no
    participants, no medians, [GetLocationStats] fails, its next event
    number is 1), and the reports of every other location are what they
    were. *)
Theorem ClearLocationData_reports urlSlug w w' locationID :
  ClearLocationData urlSlug w = (Ok None, w') ->
  schema (db w) ->
  (SQL.select_location_id urlSlug (db w) = Some locationID ->
   (forall limit, GetTopParticipants (db w') locationID limit = []) /\
   GetMedianTimesByAgeCategory (db w') locationID = [] /\
   (exists err, GetLocationStats (db w') locationID = inr err) /\
   forall w'', db w'' = db w' ->
     fst (GetNextEventNumber locationID w'') = Ok 1) /\
  (SQL.select_location_id urlSlug (db w) <> Some locationID ->
   (forall limit, GetTopParticipants (db w') locationID limit
                  = GetTopParticipants (db w) locationID limit) /\
   GetMedianTimesByAgeCategory (db w') locationID
     = GetMedianTimesByAgeCategory (db w) locationID /\
   GetLocationStats (db w') locationID = GetLocationStats (db w) locationID /\
   last_event_number (db w') locationID = last_event_number (db w) locationID).
Proof.
  intros Hc (_ & _ & Hnd & _). apply ClearLocationData_done in Hc. split.
  - intros Hsel. rewrite Hsel in Hc. rewrite Hc.
    pose proof (results_at_cleared_same locationID (db w)) as Hr.
    pose proof (events_cleared_same locationID (db w)) as He.
    split; [|split; [|split]].
    + intros limit. unfold GetTopParticipants. rewrite Hr.
      unfold SQL.LIMIT. destruct (limit <? 0); [done|].
      simpl. by rewrite firstn_nil.
    + unfold GetMedianTimesByAgeCategory, median_rows. rewrite Hr. csimpl.
      by rewrite map_to_list_empty.
    + unfold GetLocationStats. rewrite He. by eexists.
    + intros w'' Hdb.
      unfold GetNextEventNumber, bind, driver_call, get_db, ret, log_Printf, emit.
      destruct w'' as [d fs tr]. simpl in Hdb. subst d.
      generalize dependent (cleared locationID (db w)). intros d' _ _ He.
      destruct fs as [|[] fs]; simpl; rewrite ?He; done.
  - intros Hsel.
    destruct (SQL.select_location_id urlSlug (db w)) as [cleared_id|];
      rewrite Hc; [|apply reports_of_results_at; done].
    assert (locationID <> cleared_id) by congruence.
    apply reports_of_results_at.
    + by apply results_at_cleared_other.
    + by apply events_cleared_other.
Qed.

Lemma ClearLocationData_reports_witness :
  let w := snd (store event_1 results_1 fresh_world) in
  let w' := snd (ClearLocationData "bushy" w) in
  (SQL.select_location_id "bushy" (db w) = Some 1 ->
   (forall limit, GetTopParticipants (db w') 1 limit = []) /\
   GetMedianTimesByAgeCategory (db w') 1 = [] /\
   (exists err, GetLocationStats (db w') 1 = inr err) /\
   forall w'', db w'' = db w' -> fst (GetNextEventNumber 1 w'') = Ok 1) /\
  (SQL.select_location_id "bushy" (db w) <> Some 1 ->
   (forall limit, GetTopParticipants (db w') 1 limit
                  = GetTopParticipants (db w) 1 limit) /\
   GetMedianTimesByAgeCategory (db w') 1 = GetMedianTimesByAgeCategory (db w) 1 /\
   GetLocationStats (db w') 1 = GetLocationStats (db w) 1 /\
   last_event_number (db w') 1 = last_event_number (db w) 1).
Proof.
  intros w w'. apply (ClearLocationData_reports "bushy" w w' 1).
  - by vm_compute.
  - unfold schema. vm_compute.
    repeat split; try (apply NoDup_singleton || apply NoDup_nil_2);
      intros ? [<-|[]]; done.
Defined.

(** ** db.go: what [StoreResults] leaves in the table *)

(** One turn of the loop of [StoreResults]: the insert happens, or the
    database stays and the error is counted. *)
Lemma storeEach_cons r rs id s e w :
  let timeSeconds :=
    if 0 <? TimeSeconds r then Some (TimeSeconds r) else None in
  let inserted :=
    if hd false (faults w) then None
    else SQL.insert_or_replace_result (Position r) (Name r) timeSeconds
           (AgeGrade r) (AgeCategory r) (Note r) (TotalRuns r) id (db w) in
  exists s' e' w1,
    storeEach (r :: rs) id s e w = storeEach rs id s' e' w1 /\
    faults w1 = tl (faults w) /\
    match inserted with
    | Some d' => db w1 = d' /\ s' = GoInt.add s 1 /\ e' = e
    | None => db w1 = db w /\ s' = s /\ e' = GoInt.add e 1
    end.
Proof.
  intros timeSeconds inserted. subst inserted timeSeconds.
  destruct w as [d fs tr]. cbn [storeEach].
  unfold bind, driver_call, get_db, put_db, log_Printf, emit. simpl.
  destruct fs as [|[] fs]; simpl;
    try destruct (SQL.insert_or_replace_result _ _ _ _ _ _ _ _ d) as [d'|];
    eexists _, _, _; (split; [reflexivity|]); simpl; done.
Qed.

Lemma storeEach_counts rs id : forall s e w,
  0 <= s -> 0 <= e -> s + e + Z.of_nat (length rs) <= GoInt.max_int ->
  exists s' e' w',
    storeEach rs id s e w = (Ok (s', e'), w') /\
    s <= s' /\ e <= e' /\ s' + e' = s + e + Z.of_nat (length rs).
Proof.
  assert (Hmin : GoInt.min_int <= 0) by (by vm_compute).
  induction rs as [|r rs IH]; intros s e w Hs He Hb.
  - eexists _, _, _. split; [reflexivity|]. simpl. lia.
  - cbn [length] in Hb.
    destruct (storeEach_cons r rs id s e w) as (s' & e' & w1 & -> & _ & H).
    destruct (if hd false (faults w) then None else _) as [d'|];
      destruct H as (_ & -> & ->); rewrite add_exact by lia.
    + destruct (IH (s + 1) e w1) as (s2 & e2 & w2 & -> & ?); [lia..|].
      eexists _, _, _. split; [reflexivity|]. cbn [length]. lia.
    + destruct (IH s (e + 1) w1) as (s2 & e2 & w2 & -> & ?); [lia..|].
      eexists _, _, _. split; [reflexivity|]. cbn [length]. lia.
Qed.

Lemma at_position_other p q id r :
  p <> q -> at_position p id r = true -> negb (at_position q id r) = true.
Proof.
  unfold at_position. intros Hne H. apply andb_true_iff in H as [H _].
  replace (r_position r =? q) with false by lia. done.
Qed.

Lemma filter_filter_implied {A} (p q : A -> bool) (l : list A) :
  (forall a, p a = true -> q a = true) ->
  List.filter p (List.filter q l) = List.filter p l.
Proof.
  intros H. induction l as [|a l IH]; simpl; [done|].
  destruct (q a) eqn:Eq; simpl; [by rewrite IH|].
  destruct (p a) eqn:Ep; [|done]. rewrite (H a Ep) in Eq. done.
Qed.

(** Results at other positions leave the rows of a position alone. *)
Lemma storeEach_keeps_position rs id p : forall s e w,
  (forall b, In b rs -> Position b <> p) ->
  exists c w',
    storeEach rs id s e w = (Ok c, w') /\
    List.filter (at_position p id) (results (db w'))
      = List.filter (at_position p id) (results (db w)).
Proof.
  induction rs as [|r rs IH]; intros s e w Hp.
  - by eexists _, _.
  - destruct (storeEach_cons r rs id s e w) as (s' & e' & w1 & -> & _ & H).
    destruct (IH s' e' w1) as (c & w' & -> & Hf);
      [intros b Hb; apply Hp; by right|].
    exists c, w'. split; [done|]. rewrite Hf.
    destruct (if hd false (faults w) then None else _) as [d'|] eqn:Ei;
      destruct H as (-> & _); [|done].
    destruct (hd false (faults w)); [done|].
    unfold SQL.insert_or_replace_result in Ei.
    destruct (SQL.next_rowid _ _); [|done]. injection Ei as <-. simpl.
    rewrite List.filter_app. simpl.
    assert (Hne : Position r <> p) by (apply Hp; by left).
    unfold at_position at 2. simpl.
    replace (Position r =? p) with false by lia. simpl. rewrite app_nil_r.
    apply filter_filter_implied. intros a Ha.
    by apply (at_position_other p (Position r) id).
Qed.

Lemma storeEach_last rs1 : forall a rs2 id s e w,
  faults w = [] ->
  (forall r, In r (results (db w)) ->
     r_id r + Z.of_nat (length (rs1 ++ a :: rs2)) <= GoInt.max_int) ->
  seq_results (db w) + Z.of_nat (length (rs1 ++ a :: rs2)) <= GoInt.max_int ->
  (forall b, In b rs2 -> Position b <> Position a) ->
  exists c w' row,
    storeEach (rs1 ++ a :: rs2) id s e w = (Ok c, w') /\
    List.filter (at_position (Position a) id) (results (db w')) = [row] /\
    row_of a id row.
Proof.
  induction rs1 as [|b rs1 IH]; intros a rs2 id s e w Hf Hids Hseq Hlast.
  - cbn [app] in *.
    destruct (storeEach_cons a rs2 id s e w) as (s' & e' & w1 & -> & _ & H).
    rewrite Hf in H. cbn [hd] in H.
    destruct (storeEach_keeps_position rs2 id (Position a) s' e' w1 Hlast)
      as (c & w' & -> & Hk).
    unfold SQL.insert_or_replace_result in H.
    destruct (SQL.next_rowid _ _) as [i|] eqn:En.
    + destruct H as (H & _). eexists c, w', _. split; [done|].
      rewrite Hk, H. simpl. rewrite List.filter_app. simpl.
      unfold at_position at 2. simpl. rewrite !Z.eqb_refl. simpl.
      rewrite (filter_filter_negb (at_position (Position a) id)). simpl.
      split; [reflexivity|]. by unfold row_of.
    + exfalso. unfold SQL.next_rowid in En.
      destruct (Z.ltb_spec (fold_right Z.max (seq_results (db w))
                              (map r_id (results (db w)))) GoInt.max_int);
        [done|].
      destruct (fold_max_spec (seq_results (db w)) (map r_id (results (db w))))
        as [[Hm|Hm] _].
      * cbn [length] in Hseq. lia.
      * apply in_map_iff in Hm as (r & Hr & Hin). specialize (Hids r Hin).
        cbn [length] in Hids. lia.
  - cbn [app].
    destruct (storeEach_cons b (rs1 ++ a :: rs2) id s e w)
      as (s' & e' & w1 & -> & Hf1 & H).
    rewrite Hf in Hf1, H. cbn [hd tl] in Hf1, H.
    apply (IH a rs2 id s' e' w1 Hf1); [| |done].
    + intros r Hr. cbn [app length] in Hids, Hseq.
      unfold SQL.insert_or_replace_result in H.
      destruct (SQL.next_rowid _ _) as [i|] eqn:En; destruct H as (H & _);
        rewrite H in Hr; [|specialize (Hids r Hr); lia].
      simpl in Hr. apply in_app_iff in Hr as [Hr|[<-|[]]].
      * apply filter_In in Hr as [Hr _]. specialize (Hids r Hr). lia.
      * simpl. unfold SQL.next_rowid in En.
        destruct (_ <? _); [|done]. injection En as <-.
        destruct (fold_max_spec (seq_results (db w)) (map r_id (results (db w))))
          as [[Hm|Hm] _].
        -- lia.
        -- apply in_map_iff in Hm as (r & Hr & Hin). specialize (Hids r Hin). lia.
    + cbn [app length] in Hids, Hseq.
      unfold SQL.insert_or_replace_result in H.
      destruct (SQL.next_rowid _ _) as [i|] eqn:En; destruct H as (H & _);
        rewrite H; [|lia].
      simpl. unfold SQL.next_rowid in En.
      destruct (_ <? _); [|done]. injection En as <-.
      destruct (fold_max_spec (seq_results (db w)) (map r_id (results (db w))))
        as [[Hm|Hm] _].
      * lia.
      * apply in_map_iff in Hm as (r & Hr & Hin). specialize (Hids r Hin). lia.
Qed.

Lemma storeEach_frame rs id : forall s e w,
  exists c w',
    storeEach rs id s e w = (Ok c, w') /\
    events (db w') = events (db w) /\
    locations (db w') = locations (db w) /\
    List.filter (fun r => negb (of_event id r)) (results (db w'))
      = List.filter (fun r => negb (of_event id r)) (results (db w)) /\
    forall r, In r (results (db w')) ->
      In r (results (db w)) \/ exists a, In a rs /\ row_of a id r.
Proof.
  induction rs as [|a rs IH]; intros s e w.
  - eexists _, _. split; [reflexivity|]. repeat split; try done. by left.
  - destruct (storeEach_cons a rs id s e w) as (s' & e' & w1 & -> & _ & H).
    destruct (IH s' e' w1) as (c & w' & -> & He & Hl & Hf & Hr).
    exists c, w'. split; [done|]. rewrite He, Hl, Hf.
    destruct (if hd false (faults w) then None else _) as [d'|] eqn:Ei;
      destruct H as (H & _); rewrite H in *.
    + destruct (hd false (faults w)); [done|].
      unfold SQL.insert_or_replace_result in Ei.
      destruct (SQL.next_rowid _ _) as [i|]; [|done]. injection Ei as <-.
      simpl in *. split; [done|]. split; [done|]. split.
      * rewrite List.filter_app. simpl. unfold of_event at 2. simpl.
        rewrite Z.eqb_refl. simpl. rewrite app_nil_r.
        apply filter_filter_implied. intros r Hr'.
        unfold of_event in Hr'.
        destruct (r_event_id r); [apply negb_true_iff in Hr'; rewrite Hr'|];
          by rewrite andb_false_r.
      * intros r Hin. destruct (Hr r Hin) as [Hin'|(a0 & Ha0 & Hrow)].
        -- apply in_app_iff in Hin' as [Hin'|[<-|[]]].
           ++ apply filter_In in Hin' as [Hin' _]. by left.
           ++ right. exists a. split; [by left|]. by unfold row_of.
        -- right. exists a0. split; [by right|done].
    + repeat split; try done.
      intros r Hin. destruct (Hr r Hin) as [Hin'|(a0 & Ha0 & Hrow)];
        [by left|].
      right. exists a0. split; [by right|done].
Qed.

(** X12: whichever driver calls fail, [StoreResults] returns, touches
    neither the events nor the locations nor any result row of another
    event, and every row the table then holds was there before or is the
    row of one of the results given, under the event id given (a time of 0
    or less as NULL); the summary it logs counts every result once, as
    stored or as failed. *)
Theorem StoreResults_frame rs id w :
  Z.of_nat (length rs) <= GoInt.max_int ->
  exists w',
    StoreResults rs id w = (Ok tt, w') /\
    events (db w') = events (db w) /\
    locations (db w') = locations (db w) /\
    List.filter (fun r => negb (of_event id r)) (results (db w'))
      = List.filter (fun r => negb (of_event id r)) (results (db w)) /\
    (forall r, In r (results (db w')) ->
       In r (results (db w)) \/ exists a, In a rs /\ row_of a id r) /\
    exists successCount errorCount,
      0 <= successCount /\ 0 <= errorCount /\
      successCount + errorCount = Z.of_nat (length rs) /\
      last (trace w') =
        Some (Logged "Database storage complete: %d successful, %d failed"
                [IntArg successCount; IntArg errorCount]).
Proof.
  intros Hb. unfold StoreResults, bind.
  destruct (storeEach_frame rs id 0 0 w) as (c & w1 & E & He & Hl & Hf & Hr).
  destruct (storeEach_counts rs id 0 0 w) as (s' & e' & w2 & E2 & Hs & Hes & Hsum);
    [lia..|].
  rewrite E in E2. injection E2 as -> ->. rewrite E.
  unfold log_Printf, emit. simpl. eexists. split; [reflexivity|]. simpl.
  repeat split; try done.
  exists s', e'. repeat split; try lia. by rewrite last_snoc.
Qed.

Lemma StoreResults_frame_witness :
  exists w',
    StoreResults results_1 1 fresh_world = (Ok tt, w') /\
    events (db w') = events (db fresh_world) /\
    locations (db w') = locations (db fresh_world) /\
    List.filter (fun r => negb (of_event 1 r)) (results (db w'))
      = List.filter (fun r => negb (of_event 1 r)) (results (db fresh_world)) /\
    (forall r, In r (results (db w')) ->
       In r (results (db fresh_world)) \/
       exists a, In a results_1 /\ row_of a 1 r) /\
    exists successCount errorCount,
      0 <= successCount /\ 0 <= errorCount /\
      successCount + errorCount = Z.of_nat (length results_1) /\
      last (trace w') =
        Some (Logged "Database storage complete: %d successful, %d failed"
                [IntArg successCount; IntArg errorCount]).
Proof. apply StoreResults_frame. by vm_compute. Defined.

(** X13: with no driver failure and rowids left, [StoreResults] leaves for
    a position exactly one row of the event: the row of the last result of
    the batch with that position.  Earlier results with the same position
    (such as several rows whose position did not parse and became 0) are
    overwritten. *)
Theorem StoreResults_last_wins rs1 a rs2 id w :
  faults w = [] ->
  (forall r, In r (results (db w)) ->
     r_id r + Z.of_nat (length (rs1 ++ a :: rs2)) <= GoInt.max_int) ->
  seq_results (db w) + Z.of_nat (length (rs1 ++ a :: rs2)) <= GoInt.max_int ->
  (forall b, In b rs2 -> Position b <> Position a) ->
  exists w' row,
    StoreResults (rs1 ++ a :: rs2) id w = (Ok tt, w') /\
    List.filter (at_position (Position a) id) (results (db w')) = [row] /\
    row_of a id row.
Proof.
  intros Hf Hids Hseq Hlast. unfold StoreResults, bind.
  destruct (storeEach_last rs1 a rs2 id 0 0 w Hf Hids Hseq Hlast)
    as (c & w1 & row & -> & Hrow & Hof).
  unfold log_Printf, emit. simpl. by eexists _, row.
Qed.

Lemma StoreResults_last_wins_witness :
  let first := {| Position := 0; Name := "Runner X"; Time_ := "20:00";
                  TimeSeconds := 1200; AgeGrade := ""; AgeCategory := "VM35-39";
                  Note := ""; TotalRuns := 12; EventID := 0 |} in
  let second := {| Position := 0; Name := "Unknown"; Time_ := "";
                   TimeSeconds := 0; AgeGrade := ""; AgeCategory := "";
                   Note := ""; TotalRuns := 0; EventID := 0 |} in
  exists w' row,
    StoreResults ([first] ++ second :: []) 1 fresh_world = (Ok tt, w') /\
    List.filter (at_position (Position second) 1) (results (db w')) = [row] /\
    row_of second 1 row.
Proof.
  intros first second. apply StoreResults_last_wins.
  - reflexivity.
  - by intros r [].
  - by vm_compute.
  - by intros b [].
Defined.

(** ** reports.go: [GetTopParticipants] *)

#[local] Instance by_count_desc_total {A} : Total (@GoSort.by_count_desc A).
Proof. intros a b. unfold GoSort.by_count_desc. lia. Qed.

#[local] Instance by_count_desc_trans {A} : Transitive (@GoSort.by_count_desc A).
Proof. intros a b c. unfold GoSort.by_count_desc. lia. Qed.

Lemma count_named (rows : list (ResultRow * EventRow)) name :
  name <> "Unknown" ->
  length (List.filter (fun k' => bool_decide (k' = name))
            (map (fun re => r_name (fst re))
               (List.filter
                  (fun re => negb (String.eqb (r_name (fst re)) "Unknown")) rows)))
  = length (List.filter (fun re => String.eqb (r_name (fst re)) name) rows).
Proof.
  intros Hn. induction rows as [|re rows IH]; simpl; [done|].
  destruct (String.eqb_spec (r_name re.1) "Unknown") as [E|E]; simpl.
  - destruct (String.eqb_spec (r_name re.1) name) as [E'|E']; [congruence|done].
  - destruct (String.eqb_spec (r_name re.1) name) as [E'|E'].
    + rewrite bool_decide_eq_true_2 by done. simpl. by rewrite IH.
    + rewrite bool_decide_eq_false_2 by done. done.
Qed.

(** The groups of the query: the names other than the placeholder, each
    once, with its number of rows. *)
Lemma top_groups d locationID :
  let names :=
    map (fun re : ResultRow * EventRow => r_name (fst re))
      (List.filter (fun re => negb (String.eqb (r_name (fst re)) "Unknown"))
         (SQL.results_at locationID d)) in
  NoDup (map fst (group_count names)) /\
  (forall g, In g (group_count names) ->
     fst g <> "Unknown" /\ snd g = runs_of d locationID (fst g) /\ 0 < snd g) /\
  (forall name, name <> "Unknown" -> 0 < runs_of d locationID name ->
     In (name, runs_of d locationID name) (group_count names)).
Proof.
  intros names.
  assert (Hnames : forall name, In name names <->
            name <> "Unknown" /\ 0 < runs_of d locationID name).
  { intros name. subst names. rewrite in_map_iff. unfold runs_of. split.
    - intros (re & <- & Hre). apply filter_In in Hre as [Hre Hu].
      split; [by destruct (String.eqb_spec (r_name re.1) "Unknown")|].
      assert (Hin : In re (List.filter
                (fun re' : ResultRow * EventRow =>
                   String.eqb (r_name re'.1) (r_name re.1))
                (SQL.results_at locationID d))).
      { apply filter_In. split; [done|]. apply String.eqb_refl. }
      destruct (List.filter _ (SQL.results_at locationID d)); [done|].
      simpl. lia.
    - intros [Hu Hpos].
      destruct (List.filter _ (SQL.results_at locationID d)) as [|re l] eqn:Ef;
        [simpl in Hpos; lia|].
      assert (Hin : In re (List.filter
                (fun re' : ResultRow * EventRow => String.eqb (r_name re'.1) name)
                (SQL.results_at locationID d))) by (rewrite Ef; by left).
      apply filter_In in Hin as [Hin En]. apply String.eqb_eq in En.
      exists re. split; [done|]. apply filter_In. split; [done|].
      rewrite En. by destruct (String.eqb_spec name "Unknown"). }
  unfold group_count. split; [|split].
  - rewrite map_map. simpl. rewrite map_id. apply NoDup_remove_dups.
  - intros g Hg. apply in_map_iff in Hg as (k & <- & Hk). simpl.
    rewrite <- list_elem_of_In, elem_of_remove_dups, list_elem_of_In in Hk.
    apply Hnames in Hk as [Hu Hpos]. split; [done|].
    unfold names. rewrite count_named by done. done.
  - intros name Hu Hpos. apply in_map_iff. exists name. split.
    + f_equal. unfold names. by rewrite count_named.
    + rewrite <- list_elem_of_In, elem_of_remove_dups, list_elem_of_In.
      by apply Hnames.
Qed.

(** X14: [GetTopParticipants] lists each name at most once and never the
    placeholder, each with the number of result rows of the location's
    events under that name, in descending order of that number, and at most
    [limit] names (all when the limit is negative); a name it leaves out has
    no more rows than any name it lists. *)
Theorem GetTopParticipants_top d locationID limit :
  let top := GetTopParticipants d locationID limit in
  NoDup (map Name_ top) /\
  (0 <= limit -> (length top <= Z.to_nat limit)%nat) /\
  (forall stat, In stat top ->
     Name_ stat <> "Unknown" /\
     TotalRuns_ stat = runs_of d locationID (Name_ stat) /\
     0 < TotalRuns_ stat) /\
  StronglySorted (fun a b => TotalRuns_ b <= TotalRuns_ a) top /\
  (forall name, name <> "Unknown" -> 0 < runs_of d locationID name ->
     In name (map Name_ top) \/
     (0 <= limit /\ length top = Z.to_nat limit /\
      forall stat, In stat top -> runs_of d locationID name <= TotalRuns_ stat)).
Proof.
  intros top. subst top. unfold GetTopParticipants.
  destruct (top_groups d locationID) as (Hnd & Hg & Hall).
  set (groups := group_count _) in *.
  set (ordered := merge_sort GoSort.by_count_desc groups).
  assert (Hperm : ordered ≡ₚ groups) by apply merge_sort_Permutation.
  assert (Hss : StronglySorted GoSort.by_count_desc ordered)
    by apply (StronglySorted_merge_sort _).
  set (mk := fun g : string * Z => {| Name_ := fst g; TotalRuns_ := snd g |}).
  assert (Hsplit : exists rest, ordered = (SQL.LIMIT limit ordered ++ rest)%list /\
            (rest <> [] -> 0 <= limit /\
               length (SQL.LIMIT limit ordered) = Z.to_nat limit)).
  { unfold SQL.LIMIT. destruct (Z.ltb_spec limit 0).
    - exists []. split; [by rewrite app_nil_r|done].
    - exists (drop (Z.to_nat limit) ordered). split; [by rewrite take_drop|].
      intros Hne. split; [done|]. rewrite length_take.
      destruct (Nat.le_gt_cases (length ordered) (Z.to_nat limit)); [|lia].
      by rewrite drop_ge in Hne. }
  destruct Hsplit as (rest & Hsplit & Hrest).
  set (limited := SQL.LIMIT limit ordered) in *.
  assert (Hin : forall g, In g limited -> In g groups).
  { intros g Hg'. apply list_elem_of_In. rewrite <- Hperm, Hsplit.
    apply list_elem_of_In, in_app_iff. by left. }
  rewrite Hsplit in Hss. apply StronglySorted_app in Hss as (Hcross & Hss1 & _).
  split; [|split; [|split; [|split]]].
  - rewrite map_map. simpl.
    assert (Hsub : map fst limited `sublist_of` map fst ordered).
    { rewrite Hsplit, map_app. by apply sublist_inserts_r. }
    eapply sublist_NoDup; [|exact Hsub].
    change (NoDup (fst <$> ordered)). by rewrite Hperm.
  - intros Hl. rewrite length_map. unfold limited, SQL.LIMIT.
    replace (limit <? 0) with false by lia. rewrite length_take. lia.
  - intros stat Hs. apply in_map_iff in Hs as (g & <- & Hg').
    simpl. apply Hg. by apply Hin.
  - apply (StronglySorted_fmap mk GoSort.by_count_desc); [|done].
    by intros x y.
  - intros name Hu Hpos. specialize (Hall name Hu Hpos).
    apply list_elem_of_In in Hall. rewrite <- Hperm, Hsplit in Hall.
    apply list_elem_of_In, in_app_iff in Hall as [Hl|Hr].
    + left. rewrite map_map. simpl. apply in_map_iff. by exists (name, runs_of d locationID name).
    + right. destruct Hrest as [H0 Hlen]; [by destruct rest|].
      split; [done|]. split; [by rewrite length_map|].
      intros stat Hs. apply in_map_iff in Hs as (g & <- & Hg'). simpl.
      apply list_elem_of_In in Hg', Hr.
      apply (Hcross g (name, runs_of d locationID name) Hg' Hr).
Qed.

(** ** reports.go: the listing of [GetMedianTimesByAgeCategory] *)

#[local] Instance by_key_total {A} (key : A -> string) : Total (GoSort.by_key key).
Proof. intros a b. unfold GoSort.by_key, GoSort.str_le. apply String.leb_total. Qed.

(** The median of positive times lies between two of them. *)
Lemma median_of_between ts :
  ts <> [] -> Forall (fun t => 0 < t) ts ->
  (forall t, In t ts -> 2 * t <= GoInt.max_int) ->
  exists lo hi, In lo ts /\ In hi ts /\ lo <= median_of ts <= hi.
Proof.
  intros Hne Hpos Hfit.
  destruct (median_of_spec ts Hne Hpos) as (sorted & Hperm & _ & Hodd & Heven).
  assert (Hlen : (0 < length sorted)%nat).
  { rewrite Hperm. destruct ts; [done|simpl; lia]. }
  assert (Hlt : (Nat.div (length sorted) 2 < length sorted)%nat)
    by (apply Nat.div_lt; lia).
  assert (Hin : forall i, (i < length sorted)%nat -> In (nth i sorted 0) ts).
  { intros i Hi. apply list_elem_of_In. rewrite <- Hperm.
    apply list_elem_of_In. by apply nth_In. }
  destruct (Nat.even (length sorted)) eqn:E.
  - destruct (Heven eq_refl) as [_ Hm]. cbv zeta in Hm.
    set (a := nth (Nat.div (length sorted) 2 - 1) sorted 0) in *.
    set (b := nth (Nat.div (length sorted) 2) sorted 0) in *.
    assert (Ha : In a ts) by (apply Hin; lia).
    assert (Hb : In b ts) by (by apply Hin).
    pose proof (Hfit a Ha). pose proof (Hfit b Hb).
    rewrite Hm by lia.
    destruct (Z.le_ge_cases a b).
    + exists a, b. split; [done|]. split; [done|].
      split; [apply Z.div_le_lower_bound|apply Z.div_le_upper_bound]; lia.
    + exists b, a. split; [done|]. split; [done|].
      split; [apply Z.div_le_lower_bound|apply Z.div_le_upper_bound]; lia.
  - rewrite Hodd by (by rewrite <- Nat.negb_even, E).
    eexists _, _. split; [by apply Hin|]. split; [by apply Hin|]. lia.
Qed.

(** X15: [GetMedianTimesByAgeCategory] lists every category once, in
    ascending byte order of the names, never the empty category and never
    with a count of 0; where the times fit (twice a time is an [int]), the
    median it prints is a time that [timeToSeconds] reads back to a value
    between two times of the category, so never "Unknown". *)
Theorem GetMedianTimesByAgeCategory_listing d locationID :
  let stats := GetMedianTimesByAgeCategory d locationID in
  NoDup (map Category stats) /\
  Sorted (fun a b => String.leb (Category a) (Category b) = true) stats /\
  forall stat, In stat stats ->
    Category stat <> "" /\ 0 < Count stat /\
    ((forall t, In t (times_of d locationID (Category stat)) ->
        2 * t <= GoInt.max_int) ->
     Median stat <> "Unknown" /\
     exists m lo hi,
       timeToSeconds (Median stat) = inl m /\
       In lo (times_of d locationID (Category stat)) /\
       In hi (times_of d locationID (Category stat)) /\
       lo <= m <= hi).
Proof.
  intros stats. split; [|split].
  - subst stats. unfold GetMedianTimesByAgeCategory.
    change (NoDup (Category <$> merge_sort (GoSort.by_key Category)
                     ((fun ct : string * list Z =>
                         {| Category := fst ct;
                            Median := secondsToTime (median_of (snd ct));
                            Count := Z.of_nat (length (snd ct)) |}) <$>
                      map_to_list
                        (fold_left append_time (median_rows d locationID) ∅)))).
    rewrite merge_sort_Permutation, <- list_fmap_compose.
    apply NoDup_fst_map_to_list.
  - apply (Sorted_merge_sort (GoSort.by_key Category)).
  - intros stat Hin.
    apply GetMedianTimesByAgeCategory_In in Hin as (ts & Hl & Hm & Hc).
    apply categoryTimes_lookup in Hl as (Hne & Hts & Hperm).
    split; [done|]. split.
    { rewrite Hc. destruct ts; [done|simpl; lia]. }
    intros Hfit.
    assert (Hpos : Forall (fun t => 0 < t) ts).
    { rewrite Hperm. apply times_of_positive. }
    destruct (median_of_between ts Hts Hpos) as (lo & hi & Hlo & Hhi & Hb).
    { intros t Ht. apply Hfit. apply list_elem_of_In. rewrite <- Hperm.
      by apply list_elem_of_In. }
    assert (Hlo' : 0 < lo).
    { apply (proj1 (List.Forall_forall _ _) Hpos lo Hlo). }
    assert (Hhi' : 2 * hi <= GoInt.max_int).
    { apply Hfit. apply list_elem_of_In. rewrite <- Hperm.
      by apply list_elem_of_In. }
    assert (Hback : timeToSeconds (Median stat) = inl (median_of ts)).
    { rewrite Hm. apply secondsToTime_read_back. lia. }
    split.
    + intros E. rewrite E in Hback.
      change (timeToSeconds "Unknown") with (@inl Z error 0) in Hback.
      injection Hback as Hback. lia.
    + exists (median_of ts), lo, hi. split; [done|].
      split; [|split; [|done]]; apply list_elem_of_In; rewrite <- Hperm;
        by apply list_elem_of_In.
Qed.

(** ** reports.go: [GetLocationStats] *)

Lemma Time_leb_spec a b :
  Time_leb a b = true <->
  Year a < Year b \/
  (Year a = Year b /\ (Month a < Month b \/ (Month a = Month b /\ Day a <= Day b))).
Proof.
  unfold Time_leb.
  rewrite orb_true_iff, andb_true_iff, orb_true_iff, andb_true_iff.
  rewrite !Z.ltb_lt, !Z.eqb_eq, Z.leb_le. done.
Qed.

Lemma fold_Time_min_max t ts :
  Time_leb (fold_right Time_min t ts) t = true /\
  Time_leb t (fold_right Time_max t ts) = true.
Proof.
  induction ts as [|u ts [IH1 IH2]]; simpl.
  - split; apply Time_leb_spec; lia.
  - unfold Time_min at 1, Time_max at 1. split.
    + destruct (Time_leb u (fold_right Time_min t ts)) eqn:E; [|done].
      apply Time_leb_spec in E, IH1. apply Time_leb_spec. lia.
    + destruct (Time_leb u (fold_right Time_max t ts)) eqn:E; [done|].
      apply not_true_iff_false in E. rewrite Time_leb_spec in E.
      apply Time_leb_spec in IH2. apply Time_leb_spec. lia.
Qed.

(** The rows under the keys of a duplicate-free list, counted key by key. *)
Lemma sum_counts `{EqDecision K} (D : list K) (l : list K) :
  NoDup D ->
  fold_right Z.add 0
    (map (fun k => Z.of_nat (length (List.filter (fun k' => bool_decide (k' = k)) l))) D)
  = Z.of_nat (length (List.filter (fun k' => bool_decide (k' ∈ D)) l)).
Proof.
  induction 1 as [|k D Hk HD IH]; cbn [map fold_right].
  - induction l as [|a l IHl]; cbn [List.filter length]; [done|].
    rewrite (bool_decide_eq_false_2 (a ∈ [])) by (apply not_elem_of_nil). done.
  - rewrite IH. clear IH. induction l as [|a l IHl]; cbn [List.filter length]; [done|].
    destruct (decide (a = k)) as [->|Hne].
    + rewrite (bool_decide_eq_true_2 (k = k)) by done.
      rewrite (bool_decide_eq_true_2 (k ∈ k :: D)) by (by left).
      rewrite (bool_decide_eq_false_2 (k ∈ D)) by done. cbn [length]. lia.
    + rewrite (bool_decide_eq_false_2 (a = k)) by done.
      destruct (decide (a ∈ D)) as [Hin|Hin].
      * rewrite (bool_decide_eq_true_2 (a ∈ k :: D)) by (by right).
        rewrite (bool_decide_eq_true_2 (a ∈ D)) by done. cbn [length]. lia.
      * rewrite (bool_decide_eq_false_2 (a ∈ k :: D)).
        2:{ intros [->|?]%elem_of_cons; done. }
        rewrite (bool_decide_eq_false_2 (a ∈ D)) by done. done.
Qed.

Lemma filter_all {A} (p : A -> bool) (l : list A) :
  (forall a, In a l -> p a = true) -> List.filter p l = l.
Proof.
  induction l as [|a l IH]; intros H; simpl; [done|].
  rewrite (H a) by (by left). f_equal. apply IH. intros b Hb. apply H. by right.
Qed.

Lemma group_count_sum `{EqDecision K} (keys : list K) :
  fold_right Z.add 0 (map snd (group_count keys)) = Z.of_nat (length keys).
Proof.
  unfold group_count. rewrite map_map. cbn [snd].
  rewrite sum_counts by apply NoDup_remove_dups.
  rewrite filter_all; [done|]. intros a Ha.
  apply bool_decide_eq_true_2, elem_of_remove_dups. by apply list_elem_of_In.
Qed.

Lemma group_count_positive `{EqDecision K} (keys : list K) c :
  In c (map snd (group_count keys)) -> 1 <= c.
Proof.
  unfold group_count. rewrite map_map, in_map_iff. simpl.
  intros (k & <- & Hk).
  rewrite <- list_elem_of_In, elem_of_remove_dups, list_elem_of_In in Hk.
  assert (Hin : In k (List.filter (fun k' => bool_decide (k' = k)) keys)).
  { apply filter_In. split; [done|]. by apply bool_decide_eq_true_2. }
  destruct (List.filter _ keys); [done|]. simpl. lia.
Qed.

Lemma fold_min_max_bounds c cs :
  In (fold_right Z.min c cs) (c :: cs) /\
  (forall x, In x (c :: cs) ->
     fold_right Z.min c cs <= x <= fold_right Z.max c cs).
Proof.
  induction cs as [|y cs [IHin IH]]; simpl.
  - split; [by left|]. intros x [->|[]]. lia.
  - split.
    + destruct (Z.min_spec y (fold_right Z.min c cs)) as [[_ ->]|[_ ->]].
      * by right; left.
      * destruct IHin as [E|Hin]; [by left|by right; right].
    + intros x [->|[->|Hx]].
      * specialize (IH x (or_introl eq_refl)). lia.
      * lia.
      * specialize (IH x (or_intror Hx)). lia.
Qed.

Lemma sum_between lo hi (cs : list Z) :
  (forall x, In x cs -> lo <= x <= hi) ->
  lo * Z.of_nat (length cs) <= fold_right Z.add 0 cs <= hi * Z.of_nat (length cs).
Proof.
  induction cs as [|c cs IH]; intros H; simpl; [lia|].
  specialize (H c (or_introl eq_refl)) as Hc.
  destruct IH as [IH1 IH2]; [intros x Hx; apply H; by right|]. lia.
Qed.

Lemma remove_dups_length_le {A} `{EqDecision A} (l : list A) :
  (length (remove_dups l) <= length l)%nat.
Proof.
  induction l as [|a l IH]; simpl; [done|].
  destruct (decide_rel _ _ _); simpl; lia.
Qed.

(** X16: [GetLocationStats] fails exactly when the location has no event
    or none of its events has a result row; otherwise the first event is
    not after the last, the smallest event has at least one row and no more
    than the biggest, the events that have rows are at least one and at
    most all the events, the rows per event sum to the location's rows and
    average between the smallest and the biggest, and the distinct names
    are at least one and at most the rows. *)
Theorem GetLocationStats_consistent d locationID :
  let evs := List.filter (fun e => e_location_id e =? locationID) (events d) in
  let rows := SQL.results_at locationID d in
  ((exists err, GetLocationStats d locationID = inr err) <->
   evs = [] \/ rows = []) /\
  forall stats, GetLocationStats d locationID = inl stats ->
    Time_leb (first_event stats) (last_event stats) = true /\
    1 <= smallest_event_count stats <= biggest_event_count stats /\
    total_events stats = Z.of_nat (length evs) /\
    1 <= snd (avg_participants stats) <= total_events stats /\
    fst (avg_participants stats) = Z.of_nat (length rows) /\
    smallest_event_count stats * snd (avg_participants stats)
      <= fst (avg_participants stats)
      <= biggest_event_count stats * snd (avg_participants stats) /\
    1 <= total_runners stats <= Z.of_nat (length rows).
Proof.
  intros evs rows. unfold GetLocationStats. fold evs. fold rows.
  set (keys := map (fun re : ResultRow * EventRow => e_id (snd re)) rows).
  assert (Hkeys : map snd (group_count keys) = [] <-> rows = []).
  { unfold group_count. rewrite map_map. simpl. split.
    - intros H. apply map_eq_nil in H.
      destruct rows as [|re rows']; [done|]. exfalso.
      assert (Hin : e_id re.2 ∈ remove_dups keys).
      { apply elem_of_remove_dups. subst keys. simpl. by left. }
      rewrite H in Hin. by apply elem_of_nil in Hin.
    - intros ->. done. }
  split.
  - destruct evs as [|e evs']; simpl.
    + split; [by left|]. intros _. by eexists.
    + destruct (map snd (group_count keys)) as [|c cs] eqn:Ec.
      * split; [intros _; right; by apply Hkeys|]. intros _. by eexists.
      * split; [by intros [err ?]|]. intros [?|Hr]; [done|].
        apply Hkeys in Hr. done.
  - intros stats. destruct evs as [|e evs'] eqn:Eevs; simpl; [done|].
    destruct (map snd (group_count keys)) as [|c cs] eqn:Ec; [done|].
    intros [= <-]. simpl.
    destruct (fold_Time_min_max (e_date e) (map e_date evs')) as [Hmin Hmax].
    destruct (fold_min_max_bounds c cs) as [Hmin_in Hb].
    assert (Hpos : forall x, In x (c :: cs) -> 1 <= x).
    { intros x Hx. apply (group_count_positive keys). by rewrite Ec. }
    assert (Hsum : c + fold_right Z.add 0 cs = Z.of_nat (length rows)).
    { change (fold_right Z.add 0 (c :: cs) = Z.of_nat (length rows)).
      rewrite <- Ec, group_count_sum. subst keys. by rewrite length_map. }
    assert (Hn : (length (c :: cs) <= length (e :: evs'))%nat).
    { rewrite <- Ec, <- Eevs. unfold group_count. rewrite !length_map.
      assert (Hsub : remove_dups keys ⊆+ map e_id evs).
      { apply NoDup_submseteq; [apply NoDup_remove_dups|].
        intros k Hk. rewrite elem_of_remove_dups in Hk. subst keys.
        rewrite list_elem_of_In, in_map_iff in Hk.
        destruct Hk as ([r ev] & <- & Hre). simpl.
        rewrite list_elem_of_In, in_map_iff. exists ev. split; [done|].
        unfold rows, SQL.results_at in Hre.
        rewrite <- list_elem_of_In in Hre.
        apply list_elem_of_bind in Hre as (r' & Hre & _).
        apply list_elem_of_bind in Hre as (ev' & Hre & Hev').
        destruct (match r_event_id r' with Some i => i =? e_id ev' | None => false end);
          [|by apply elem_of_nil in Hre].
        apply list_elem_of_singleton in Hre. injection Hre as _ ->.
        by apply list_elem_of_In. }
      apply submseteq_length in Hsub. by rewrite length_map in Hsub. }
    split.
    { apply Time_leb_spec in Hmin, Hmax. apply Time_leb_spec. lia. }
    split.
    { pose proof (Hpos _ Hmin_in). pose proof (Hb c (or_introl eq_refl)). lia. }
    split; [done|]. split.
    { simpl in Hn |- *. lia. }
    split; [done|]. split.
    { exact (sum_between _ _ (c :: cs) Hb). }
    unfold count_distinct_names. fold rows.
    pose proof (remove_dups_length_le (map (fun re : ResultRow * EventRow => r_name re.1) rows)) as Hle.
    rewrite length_map in Hle. split; [|lia].
    assert (Hne : map (fun re : ResultRow * EventRow => r_name re.1) rows <> []).
    { intros E. apply map_eq_nil in E. by apply Hkeys in E. }
    remember (map (fun re : ResultRow * EventRow => r_name re.1) rows)
      as names0 eqn:En.
    destruct names0 as [|name names]; [done|].
    assert (Hin : name ∈ remove_dups (name :: names)).
    { apply elem_of_remove_dups. by left. }
    destruct (remove_dups _); [by apply elem_of_nil in Hin|]. simpl. lia.
Qed.

(** ** main.go: the loop while fetches fail *)

Lemma rate_limited_fetch urlSlug n x :
  rate_limited x = true ->
  exists e, fst (ParseResults urlSlug n x) = inr (ErrHTTP e) /\ StatusCode e = 405.
Proof.
  destruct x as [| |status body]; simpl; try done. intros E.
  apply Z.eqb_eq in E. subst status. unfold ParseResults, scrapeEvent. simpl.
  by eexists.
Qed.

Lemma counted_failure_fetch urlSlug n x :
  counted_failure x = true ->
  exists err, fst (ParseResults urlSlug n x) = inr err /\
    forall e, err = ErrHTTP e -> StatusCode e <> 405 /\ StatusCode e <> 425.
Proof.
  destruct x as [| |status body]; simpl.
  - intros _. by eexists.
  - intros _. by eexists.
  - unfold ParseResults, scrapeEvent. destruct (400 <=? status).
    + intros E. apply andb_true_iff in E as [E1 E2].
      apply negb_true_iff in E1, E2. simpl. eexists. split; [done|].
      intros e [= <-]. simpl. lia.
    + destruct body; [done|]. intros _. by eexists.
Qed.

(** While every fetch fails, nothing is stored and the event number stays;
    the counted failures add up, HTTP 405 in between changing nothing. *)
Lemma ingestLoop_failing urlSlug locationID xs : forall st w,
  Forall (fun x => rate_limited x || counted_failure x = true) xs ->
  0 <= consecutiveErrors st ->
  consecutiveErrors st + Z.of_nat (length (List.filter counted_failure xs))
    < maxConsecutiveErrors ->
  exists w' es,
    ingestLoop urlSlug locationID xs st w =
      (Ok (Waiting {| eventID := eventID st;
                      consecutiveErrors :=
                        consecutiveErrors st +
                        Z.of_nat (length (List.filter counted_failure xs)) |}),
       w') /\
    db w' = db w /\ trace w' = (trace w ++ es)%list /\
    sleeps es = map (fun x => if rate_limited x then rateLimitBackoff
                              else waitBetweenRequests) xs.
Proof.
  assert (Hmin : GoInt.min_int <= 0) by (by vm_compute).
  assert (Hmax : 3 <= GoInt.max_int) by (by vm_compute).
  induction xs as [|x xs IH]; intros st w Hall Hc Hlt; cbn [ingestLoop].
  - exists w, []. destruct st. simpl. rewrite Z.add_0_r, app_nil_r. done.
  - apply Forall_cons in Hall as [Hx Hall].
    destruct (loopBody_step urlSlug locationID x st w)
      as (c & st' & w1 & es1 & E & Htr & H405 & _ & Herr & _).
    unfold bind. rewrite E. cbn [fst snd].
    destruct (rate_limited x) eqn:Er.
    + destruct (rate_limited_fetch urlSlug (eventID st) x Er) as (e & Hf & He).
      destruct (H405 e Hf He) as (-> & -> & Hdb & Hs).
      assert (Hnc : counted_failure x = false).
      { destruct x as [| |status body]; try done. simpl in Er |- *.
        apply Z.eqb_eq in Er. by subst status. }
      cbn [List.filter] in Hlt |- *. rewrite Hnc in Hlt |- *.
      destruct (IH st w1 Hall Hc Hlt) as (w' & es & -> & Hdb' & Htr' & Hs').
      exists w', (es1 ++ es)%list. split; [done|]. split; [congruence|].
      split; [by rewrite Htr', Htr, app_assoc|].
      rewrite sleeps_app, Hs, Hs'. simpl. by rewrite Er.
    + simpl in Hx.
      destruct (counted_failure_fetch urlSlug (eventID st) x Hx) as (err & Hf & He).
      destruct (Herr err Hf He) as (Hid & Hcount & Hdb & _ & Hgo).
      cbn [List.filter length] in Hlt |- *. rewrite Hx in Hlt |- *.
      cbn [length] in Hlt |- *. unfold maxConsecutiveErrors in *.
      rewrite add_exact in Hcount by lia.
      destruct Hgo as (-> & Hs); [lia|].
      destruct (IH st' w1 Hall) as (w' & es & -> & Hdb' & Htr' & Hs'); [lia..|].
      exists w', (es1 ++ es)%list. rewrite Hid, Hcount. split.
      { by rewrite Nat2Z.inj_succ, <- Z.add_1_l, Z.add_assoc. }
      split; [congruence|]. split; [by rewrite Htr', Htr, app_assoc|].
      rewrite sleeps_app, Hs, Hs'. simpl. by rewrite Er.
Qed.

(** X17: while every fetch fails (no answer is a page or HTTP 425), the
    loop stores nothing and stays at its event number; it pauses 180 s
    after each HTTP 405 and 5 s after each other failure; HTTP 405 neither
    counts as an error nor resets the count, so the loop retries it without
    end, and the third other failure ends the loop, 405s in between or
    not. *)
Theorem ingestLoop_while_failing urlSlug locationID xs st w :
  Forall (fun x => rate_limited x || counted_failure x = true) xs ->
  0 <= consecutiveErrors st ->
  let failures := Z.of_nat (length (List.filter counted_failure xs)) in
  (consecutiveErrors st + failures < maxConsecutiveErrors ->
   exists w' es,
     ingestLoop urlSlug locationID xs st w =
       (Ok (Waiting {| eventID := eventID st;
                       consecutiveErrors := consecutiveErrors st + failures |}),
        w') /\
     db w' = db w /\ trace w' = (trace w ++ es)%list /\
     sleeps es = map (fun x => if rate_limited x then rateLimitBackoff
                               else waitBetweenRequests) xs) /\
  (consecutiveErrors st + failures = maxConsecutiveErrors - 1 ->
   forall x rest, counted_failure x = true ->
   exists w',
     ingestLoop urlSlug locationID (xs ++ x :: rest) st w =
       (Ok (Broke {| eventID := eventID st;
                     consecutiveErrors := maxConsecutiveErrors |}), w') /\
     db w' = db w).
Proof.
  intros Hall Hc failures. split.
  - intros Hlt. by apply ingestLoop_failing.
  - intros Heq x rest Hx.
    assert (Hmin : GoInt.min_int <= 0) by (by vm_compute).
    assert (Hmax : 3 <= GoInt.max_int) by (by vm_compute).
    unfold maxConsecutiveErrors in *.
    destruct (ingestLoop_failing urlSlug locationID xs st w Hall Hc)
      as (w1 & es & E & Hdb & _); [unfold maxConsecutiveErrors; fold failures; lia|].
    fold failures in E.
    assert (Happ : forall ys st0 w0 st1 w2,
              ingestLoop urlSlug locationID ys st0 w0 = (Ok (Waiting st1), w2) ->
              ingestLoop urlSlug locationID (ys ++ x :: rest) st0 w0
              = ingestLoop urlSlug locationID (x :: rest) st1 w2).
    { induction ys as [|y ys IHys]; intros st0 w0 st1 w2; cbn [ingestLoop app].
      - by intros [= -> ->].
      - unfold bind. destruct (loopBody urlSlug locationID y st0 w0) as [[[c s]|msg] w3];
          [|done].
        cbn [fst snd]. destruct c; [apply IHys|done..]. }
    rewrite (Happ _ _ _ _ _ E). cbn [ingestLoop].
    set (st1 := {| eventID := eventID st;
                   consecutiveErrors := consecutiveErrors st + failures |}).
    destruct (loopBody_step urlSlug locationID x st1 w1)
      as (c & st' & w2 & es1 & E2 & _ & _ & _ & Herr & _).
    unfold bind. rewrite E2. cbn [fst snd].
    destruct (counted_failure_fetch urlSlug (eventID st1) x Hx) as (err & Hf & He).
    destruct (Herr err Hf He) as (Hid & Hcount & Hdb2 & Hbreak & _).
    simpl in Hcount, Hid. rewrite add_exact in Hcount by lia.
    destruct Hbreak as (-> & _); [unfold maxConsecutiveErrors; lia|].
    exists w2. split; [|congruence].
    destruct st' as [i c]. simpl in Hid, Hcount. subst i c.
    unfold failures in Heq |- *. unfold maxConsecutiveErrors.
    by replace (consecutiveErrors st +
                Z.of_nat (length (List.filter counted_failure xs)) + 1)
      with 3 by lia.
Qed.

Lemma ingestLoop_while_failing_witness :
  let xs := [TransportFailed; Responded 405 None; Responded 500 None] in
  let st := {| eventID := 3; consecutiveErrors := 0 |} in
  let failures := Z.of_nat (length (List.filter counted_failure xs)) in
  (consecutiveErrors st + failures < maxConsecutiveErrors ->
   exists w' es,
     ingestLoop "bushy" 1 xs st fresh_world =
       (Ok (Waiting {| eventID := eventID st;
                       consecutiveErrors := consecutiveErrors st + failures |}),
        w') /\
     db w' = db fresh_world /\ trace w' = (trace fresh_world ++ es)%list /\
     sleeps es = map (fun x => if rate_limited x then rateLimitBackoff
                               else waitBetweenRequests) xs) /\
  (consecutiveErrors st + failures = maxConsecutiveErrors - 1 ->
   forall x rest, counted_failure x = true ->
   exists w',
     ingestLoop "bushy" 1 (xs ++ x :: rest) st fresh_world =
       (Ok (Broke {| eventID := eventID st;
                     consecutiveErrors := maxConsecutiveErrors |}), w') /\
     db w' = db fresh_world).
Proof.
  intros xs st. apply ingestLoop_while_failing.
  - repeat constructor.
  - simpl. lia.
Defined.

(** ** reports.go: the groups of [PrintReports] *)

Lemma group_times_app ss1 ss2 :
  group_times (ss1 ++ ss2) = (group_times ss1 ++ group_times ss2)%list.
Proof. unfold group_times. by rewrite bind_app. Qed.

(** The two maps of the grouping loop hold, name by name, the statistics
    of the group so far and their medians. *)
Lemma fold_group_step ts : forall g0 processed g,
  (forall name,
     default [] (groups g0 !! name) = List.filter (in_group name) processed /\
     default [] (groupTimes g0 !! name)
       = group_times (List.filter (in_group name) processed)) ->
  fold_left group_step ts (Some g0) = Some g ->
  (forall name,
     default [] (groups g !! name)
       = List.filter (in_group name) (processed ++ ts) /\
     default [] (groupTimes g !! name)
       = group_times (List.filter (in_group name) (processed ++ ts))) /\
  Forall (fun stat => groupName_of (Category stat) <> None) ts.
Proof.
  induction ts as [|stat ts IH]; intros g0 processed g Hinv; cbn [fold_left].
  - intros [= <-]. rewrite app_nil_r. done.
  - unfold group_step at 2.
    destruct (groupName_of (Category stat)) as [n|] eqn:En.
    2:{ intros H. exfalso. clear -H.
        induction ts as [|t ts IHts]; simpl in H; [done|by apply IHts]. }
    intros H. eapply (IH _ (processed ++ [stat])%list) in H.
    + destruct H as [H Hall]. split.
      * intros name. specialize (H name). by rewrite <- app_assoc in H.
      * constructor; [by rewrite En|done].
    + intros name. simpl. destruct (Hinv name) as [H1 H2].
      destruct (Hinv n) as [H1n H2n].
      rewrite List.filter_app. cbn [List.filter]. unfold in_group at 2 4.
      rewrite En. destruct (String.eqb_spec n name) as [->|Hne].
      * rewrite !lookup_insert_eq. simpl.
        rewrite group_times_app, H1, H2. split; [done|]. f_equal.
        unfold group_times. csimpl. by rewrite app_nil_r.
      * rewrite !lookup_insert_ne by done. by rewrite app_nil_r.
Qed.

Lemma groupName_of_names c n :
  groupName_of c = Some n -> In n ["Juniors"; "Men"; "Women"; "Other"].
Proof.
  unfold groupName_of. destruct (GoStrings.slice_to c 2) as [prefix|]; [|done].
  intros [= <-]. repeat case_match; simpl; tauto.
Qed.

(** The overall median of a group is one of the strings given. *)
Lemma calculateMedianTime_In times :
  times <> [] -> In (calculateMedianTime times) times.
Proof.
  intros Hne. unfold calculateMedianTime.
  destruct times as [|t ts]; [done|].
  set (l := t :: ts) in *. clearbody l.
  assert (Hperm : GoSort.Strings l ≡ₚ l) by apply merge_sort_Permutation.
  assert (Hlen : (0 < length (GoSort.Strings l))%nat).
  { rewrite Hperm. destruct l; [done|simpl; lia]. }
  assert (Hin : In (nth (Nat.div (length (GoSort.Strings l)) 2)
                     (GoSort.Strings l) "") (GoSort.Strings l)).
  { apply nth_In. apply Nat.div_lt; lia. }
  revert Hin. generalize (nth (Nat.div (length (GoSort.Strings l)) 2)
                            (GoSort.Strings l) "").
  intros m Hm. apply list_elem_of_In. rewrite <- Hperm.
  by apply list_elem_of_In.
Qed.

(** X18: when [PrintReports] prints a report, the grouping loop has split
    the listing of [GetMedianTimesByAgeCategory] by the first two bytes of
    the category: the groups come in the order Juniors, Men, Women, Other,
    the empty ones left out; each holds its categories in the order of the
    listing, so every category is printed once, in one group; and the
    overall median of a group is the median string of one of its
    categories. *)
Theorem PrintReports_groups d locationSlug rep :
  PrintReports d locationSlug = Done rep ->
  exists locationID,
    SQL.select_location_id locationSlug d = Some locationID /\
    let times := GetMedianTimesByAgeCategory d locationID in
    rep_groups rep =
      (groupName ← ["Juniors"; "Men"; "Women"; "Other"];
       match List.filter (in_group groupName) times with
       | [] => []
       | stats => [(groupName, calculateMedianTime (group_times stats), stats)]
       end) /\
    (forall stat, In stat times ->
       exists groupName median stats,
         In (groupName, median, stats) (rep_groups rep) /\ In stat stats /\
         groupName_of (Category stat) = Some groupName) /\
    (forall groupName median stats,
       In (groupName, median, stats) (rep_groups rep) ->
       exists stat, In stat stats /\ median = Median stat).
Proof.
  unfold PrintReports.
  destruct (SQL.select_location_id locationSlug d) as [locationID|]; [|done].
  destruct (GetLocationStats d locationID) as [stats|err]; [|done].
  destruct (fold_left group_step _ _) as [g|] eqn:Ef; [|done].
  intros [= Hrep]. exists locationID. split; [done|].
  set (times := GetMedianTimesByAgeCategory d locationID) in *.
  apply (fold_group_step times _ []) in Ef as [Hg Hall].
  2:{ intros name. simpl. by rewrite !lookup_empty. }
  cbn [app] in Hg.
  assert (Hform :
    rep_groups rep =
    (groupName ← ["Juniors"; "Men"; "Women"; "Other"];
     match List.filter (in_group groupName) times with
     | [] => []
     | stats => [(groupName, calculateMedianTime (group_times stats), stats)]
     end)).
  { assert (Heach : forall name,
      match groups g !! name with
      | Some (s :: ss) =>
          [(name, calculateMedianTime (default [] (groupTimes g !! name)), s :: ss)]
      | _ => []
      end =
      match List.filter (in_group name) times with
      | [] => []
      | stats0 => [(name, calculateMedianTime (group_times stats0), stats0)]
      end).
    { intros name. destruct (Hg name) as [H1 H2]. rewrite H2, <- H1.
      by destruct (groups g !! name) as [[|s ss]|]. }
    rewrite <- Hrep. cbn [rep_groups]. csimpl. by rewrite !Heach. }
  cbv zeta. rewrite Hform. split; [done|]. split.
  - intros stat Hin.
    assert (Hn : groupName_of (Category stat) <> None).
    { apply (proj1 (List.Forall_forall _ _) Hall stat Hin). }
    destruct (groupName_of (Category stat)) as [n|] eqn:En; [|done].
    assert (Hf : In stat (List.filter (in_group n) times)).
    { apply filter_In. split; [done|]. unfold in_group. rewrite En.
      apply String.eqb_refl. }
    exists n, (calculateMedianTime (group_times (List.filter (in_group n) times))),
      (List.filter (in_group n) times).
    split; [|done]. rewrite <- list_elem_of_In. apply list_elem_of_bind.
    exists n. split; [|apply list_elem_of_In; by apply groupName_of_names in En].
    destruct (List.filter (in_group n) times); [done|]. by left.
  - intros groupName median stats0 Hin.
    rewrite <- list_elem_of_In in Hin.
    apply list_elem_of_bind in Hin as (n & Hin & _).
    destruct (List.filter (in_group n) times) as [|s ss] eqn:Ef;
      [by apply elem_of_nil in Hin|].
    apply list_elem_of_singleton in Hin. injection Hin as -> -> ->.
    assert (Hs : In s times).
    { assert (H : In s (List.filter (in_group n) times)) by (rewrite Ef; by left).
      by apply filter_In in H as [H _]. }
    apply GetMedianTimesByAgeCategory_In in Hs as (ts & Hl & _ & Hc).
    apply categoryTimes_lookup in Hl as (_ & Hts & _).
    assert (Hne : group_times (s :: ss) <> []).
    { unfold group_times. csimpl. rewrite Hc, Nat2Z.id.
      destruct ts; [done|]. simpl. done. }
    apply calculateMedianTime_In in Hne.
    rewrite <- list_elem_of_In in Hne. unfold group_times at 2 in Hne.
    apply list_elem_of_bind in Hne as (stat & Hm & Hstat).
    apply elem_of_replicate in Hm as [Hm _].
    exists stat. split; [by apply list_elem_of_In|done].
Qed.

Lemma PrintReports_groups_witness :
  exists rep,
    PrintReports db_with_placeholder "bushy" = Done rep /\
    exists locationID,
      SQL.select_location_id "bushy" db_with_placeholder = Some locationID /\
      let times := GetMedianTimesByAgeCategory db_with_placeholder locationID in
      rep_groups rep =
        (groupName ← ["Juniors"; "Men"; "Women"; "Other"];
         match List.filter (in_group groupName) times with
         | [] => []
         | stats => [(groupName, calculateMedianTime (group_times stats), stats)]
         end) /\
      (forall stat, In stat times ->
         exists groupName median stats,
           In (groupName, median, stats) (rep_groups rep) /\ In stat stats /\
           groupName_of (Category stat) = Some groupName) /\
      (forall groupName median stats,
         In (groupName, median, stats) (rep_groups rep) ->
         exists stat, In stat stats /\ median = Median stat).
Proof.
  eexists. split; [by vm_compute|].
  apply PrintReports_groups. by vm_compute.
Defined.

(** ** reports.go: the sections of [PrintComparisonReport] *)

Lemma listing_NoDup d locationID :
  NoDup (map Category (GetMedianTimesByAgeCategory d locationID)).
Proof.
  unfold GetMedianTimesByAgeCategory.
  change (NoDup (Category <$> merge_sort (GoSort.by_key Category)
                   ((fun ct : string * list Z =>
                       {| Category := fst ct;
                          Median := secondsToTime (median_of (snd ct));
                          Count := Z.of_nat (length (snd ct)) |}) <$>
                    map_to_list
                      (fold_left append_time (median_rows d locationID) ∅)))).
  rewrite merge_sort_Permutation, <- list_fmap_compose.
  apply NoDup_fst_map_to_list.
Qed.

(** The lookup map of a listing without repeated categories. *)
Lemma medians_lookup ts : forall (m0 : gmap string TimeStats) c,
  NoDup (map Category ts) ->
  fold_left (fun m t => <[Category t := t]> m) ts m0 !! c =
    match List.find (fun t => String.eqb (Category t) c) ts with
    | Some t => Some t
    | None => m0 !! c
    end.
Proof.
  induction ts as [|t ts IH]; intros m0 c Hnd; simpl; [done|].
  apply NoDup_cons in Hnd as [Hn Hnd]. rewrite IH by done.
  destruct (String.eqb_spec (Category t) c) as [<-|Hne].
  - destruct (List.find _ ts) as [t'|] eqn:Ef.
    + exfalso. apply find_some in Ef as [Hin E]. apply String.eqb_eq in E.
      apply Hn. apply list_elem_of_In, in_map_iff. by exists t'.
    + by rewrite lookup_insert_eq.
  - destruct (List.find _ ts); [done|]. by rewrite lookup_insert_ne.
Qed.

Lemma find_Category ts c :
  match List.find (fun t => String.eqb (Category t) c) ts with
  | Some t => In t ts /\ Category t = c
  | None => ~ In c (map Category ts)
  end.
Proof.
  destruct (List.find _ ts) as [t|] eqn:Ef.
  - apply find_some in Ef as [Hin E]. by apply String.eqb_eq in E.
  - rewrite in_map_iff. intros (t & <- & Hin).
    apply (find_none _ _ Ef) in Hin. by rewrite String.eqb_refl in Hin.
Qed.

Lemma section_of_titles c t :
  section_of c = Some t -> In t ["Juniors:"; "Males:"; "Females:"; "Others:"].
Proof.
  unfold section_of. destruct (GoStrings.slice_to c 2) as [prefix|]; [|done].
  intros [= <-]. repeat case_match; simpl; tauto.
Qed.

(** The four slices of the grouping loop, section by section. *)
Lemma fold_bucket_step cats : forall b0 b,
  fold_left bucket_step cats (Some b0) = Some b ->
  (forall title, In title ["Juniors:"; "Males:"; "Females:"; "Others:"] ->
     bucket b title = (bucket b0 title ++ List.filter (in_section title) cats)%list) /\
  Forall (fun c => section_of c <> None) cats.
Proof.
  induction cats as [|c cats IH]; intros b0 b; cbn [fold_left].
  - intros [= <-]. split; [|done]. intros title _. by rewrite app_nil_r.
  - unfold bucket_step at 2. unfold in_section, section_of in *.
    destruct (GoStrings.slice_to c 2) as [prefix|] eqn:Ep.
    2:{ intros H. exfalso. clear -H.
        induction cats as [|t ts IHts]; simpl in H; [done|by apply IHts]. }
    intros H. apply IH in H as [H Hall].
    split; [|constructor; [by rewrite Ep|done]].
    intros title Ht. rewrite (H title Ht). cbn [List.filter]. rewrite Ep.
    simpl in Ht.
    destruct (String.eqb prefix "JM" || String.eqb prefix "JW");
      [|destruct (String.eqb prefix "SM" || String.eqb prefix "VM");
        [|destruct (String.eqb prefix "SW" || String.eqb prefix "VW")]];
      destruct Ht as [<-|[<-|[<-|[<-|[]]]]]; unfold bucket; simpl;
      by rewrite <- ?app_assoc.
Qed.

#[local] Instance str_le_total : Total GoSort.str_le.
Proof. intros a b. unfold GoSort.str_le. apply String.leb_total. Qed.

(** X19: when [PrintComparisonReport] prints a comparison, its sections
    come in the order Juniors, Males, Females, Others, the empty ones left
    out; every category that either location lists is printed once, in the
    section of its first two bytes, the lines of a section in ascending
    byte order; and each line shows for each location the median of its
    listing, "N/A" where the location does not list the category. *)
Theorem PrintComparisonReport_sections d location1 location2 cmp :
  PrintComparisonReport d location1 location2 = Done cmp ->
  exists id1 id2,
    SQL.select_location_id location1 d = Some id1 /\
    SQL.select_location_id location2 d = Some id2 /\
    let times1 := GetMedianTimesByAgeCategory d id1 in
    let times2 := GetMedianTimesByAgeCategory d id2 in
    let listed cat :=
      In cat (map Category times1) \/ In cat (map Category times2) in
    map fst (cmp_sections cmp)
      `sublist_of` ["Juniors:"; "Males:"; "Females:"; "Others:"] /\
    (forall title lines, In (title, lines) (cmp_sections cmp) ->
       lines <> [] /\
       Sorted GoSort.str_le (map (fun l => fst (fst l)) lines) /\
       NoDup (map (fun l => fst (fst l)) lines) /\
       forall cat m1 m2, In (cat, m1, m2) lines ->
         listed cat /\ section_of cat = Some title /\
         m1 = median_shown times1 cat /\ m2 = median_shown times2 cat) /\
    (forall cat, listed cat ->
       exists title lines,
         In (title, lines) (cmp_sections cmp) /\
         In (cat, median_shown times1 cat, median_shown times2 cat) lines).
Proof.
  unfold PrintComparisonReport, getLocationStats.
  destruct (SQL.select_location_id location1 d) as [id1|]; [|done].
  destruct (GetLocationStats d id1) as [stats1|]; [|done].
  destruct (SQL.select_location_id location2 d) as [id2|]; [|done].
  destruct (GetLocationStats d id2) as [stats2|]; [|done].
  set (times1 := GetMedianTimesByAgeCategory d id1).
  set (times2 := GetMedianTimesByAgeCategory d id2).
  set (medians1 := fold_left (fun m t => <[Category t := t]> m) times1 ∅).
  set (medians2 := fold_left (fun m t => <[Category t := t]> m) times2 ∅).
  set (elems := elements (list_to_set (map Category times1 ++ map Category times2)
                            : gset string)).
  destruct (fold_left bucket_step elems _) as [b|] eqn:Ef; [|done].
  intros [= Hcmp]. exists id1, id2. split; [done|]. split; [done|].
  set (listed := fun cat : string =>
         In cat (map Category times1) \/ In cat (map Category times2)).
  apply fold_bucket_step in Ef as [Hb Hall].
  assert (Helems : forall cat, In cat elems <-> listed cat).
  { intros cat. unfold elems, listed.
    rewrite <- list_elem_of_In, elem_of_elements, elem_of_list_to_set.
    rewrite list_elem_of_In, in_app_iff. done. }
  assert (Hnd : NoDup elems) by apply NoDup_elements.
  set (line := fun cat : string =>
         match medians1 !! cat, medians2 !! cat with
         | Some t1, Some t2 => (cat, Median t1, Median t2)
         | Some t1, None => (cat, Median t1, "N/A")
         | None, Some t2 => (cat, "N/A", Median t2)
         | None, None => (cat, "N/A", "")
         end).
  assert (Hline1 : forall cat, fst (fst (line cat)) = cat).
  { intros cat. unfold line.
    by destruct (medians1 !! cat), (medians2 !! cat). }
  assert (Hline : forall cat, listed cat ->
            line cat = (cat, median_shown times1 cat, median_shown times2 cat)).
  { intros cat Hl. unfold line, medians1, medians2, median_shown.
    rewrite !medians_lookup, !lookup_empty by apply listing_NoDup.
    pose proof (find_Category times1 cat) as H1.
    pose proof (find_Category times2 cat) as H2.
    destruct (List.find _ times1), (List.find _ times2); try done.
    destruct Hl; done. }
  assert (Hform : cmp_sections cmp =
    (title ← ["Juniors:"; "Males:"; "Females:"; "Others:"];
     match List.filter (in_section title) elems with
     | [] => []
     | cats => [(title, map line (GoSort.Strings cats))]
     end)).
  { rewrite <- Hcmp. cbn [cmp_sections]. csimpl.
    assert (HJ := Hb "Juniors:" ltac:(simpl; tauto)).
    assert (HM := Hb "Males:" ltac:(simpl; tauto)).
    assert (HF := Hb "Females:" ltac:(simpl; tauto)).
    assert (HO := Hb "Others:" ltac:(simpl; tauto)).
    unfold bucket in HJ, HM, HF, HO. simpl in HJ, HM, HF, HO.
    rewrite <- HJ, <- HM, <- HF, <- HO, app_nil_r.
    by destruct (juniors b), (males b), (females b), (others b). }
  rewrite Hform. clear Hform Hcmp. split; [|split].
  - csimpl.
    repeat (destruct (List.filter (in_section _) elems); simpl;
            [apply sublist_cons|apply sublist_skip]).
    all: apply sublist_nil_l || done.
  - intros title lines Hin. rewrite <- list_elem_of_In in Hin.
    apply list_elem_of_bind in Hin as (t & Hin & Ht).
    destruct (List.filter (in_section t) elems) as [|c cs] eqn:Ec;
      [by apply elem_of_nil in Hin|].
    apply list_elem_of_singleton in Hin. injection Hin as -> ->.
    assert (Hperm : GoSort.Strings (c :: cs) ≡ₚ c :: cs)
      by apply merge_sort_Permutation.
    assert (Hcats : map (fun l : string * string * string => l.1.1)
                      (map line (GoSort.Strings (c :: cs)))
                    = GoSort.Strings (c :: cs)).
    { rewrite map_map. rewrite <- (map_id (GoSort.Strings (c :: cs))) at 2.
      apply map_ext. intros a. apply Hline1. }
    split.
    { intros E. apply map_eq_nil in E. rewrite E in Hperm.
      by apply Permutation_nil_cons in Hperm. }
    rewrite Hcats. split; [apply (Sorted_merge_sort GoSort.str_le)|]. split.
    { rewrite Hperm, <- Ec, <- (map_id (List.filter _ elems)).
      apply NoDup_map_filter. by rewrite map_id. }
    intros cat m1 m2 Hl. apply in_map_iff in Hl as (cat' & Hl & Hcat').
    rewrite <- list_elem_of_In, Hperm, <- Ec, list_elem_of_In in Hcat'.
    apply filter_In in Hcat' as [Hcat' Hsec]. apply Helems in Hcat'.
    rewrite (Hline _ Hcat') in Hl. injection Hl as -> <- <-.
    split; [done|]. split; [|done].
    unfold in_section in Hsec. destruct (section_of cat) as [t'|]; [|done].
    apply String.eqb_eq in Hsec. by subst.
  - intros cat Hl. pose proof Hl as Hin. apply Helems in Hin.
    assert (Hs : section_of cat <> None).
    { apply (proj1 (List.Forall_forall _ _) Hall cat Hin). }
    destruct (section_of cat) as [title|] eqn:Es; [|done].
    assert (Hf : In cat (List.filter (in_section title) elems)).
    { apply filter_In. split; [done|]. unfold in_section. rewrite Es.
      apply String.eqb_refl. }
    exists title, (map line (GoSort.Strings (List.filter (in_section title) elems))).
    split.
    + rewrite <- list_elem_of_In. apply list_elem_of_bind. exists title.
      split; [|apply list_elem_of_In; by apply section_of_titles in Es].
      destruct (List.filter (in_section title) elems); [done|]. by left.
    + apply in_map_iff. exists cat. split; [by apply Hline|].
      apply list_elem_of_In. unfold GoSort.Strings.
      rewrite merge_sort_Permutation. by apply list_elem_of_In.
Qed.

Lemma PrintComparisonReport_sections_witness :
  exists cmp,
    PrintComparisonReport db_two_locations "bushy" "albert" = Done cmp /\
    exists id1 id2,
      SQL.select_location_id "bushy" db_two_locations = Some id1 /\
      SQL.select_location_id "albert" db_two_locations = Some id2 /\
      let times1 := GetMedianTimesByAgeCategory db_two_locations id1 in
      let times2 := GetMedianTimesByAgeCategory db_two_locations id2 in
      let listed cat :=
        In cat (map Category times1) \/ In cat (map Category times2) in
      map fst (cmp_sections cmp)
        `sublist_of` ["Juniors:"; "Males:"; "Females:"; "Others:"] /\
      (forall title lines, In (title, lines) (cmp_sections cmp) ->
         lines <> [] /\
         Sorted GoSort.str_le (map (fun l => fst (fst l)) lines) /\
         NoDup (map (fun l => fst (fst l)) lines) /\
         forall cat m1 m2, In (cat, m1, m2) lines ->
           listed cat /\ section_of cat = Some title /\
           m1 = median_shown times1 cat /\ m2 = median_shown times2 cat) /\
      (forall cat, listed cat ->
         exists title lines,
           In (title, lines) (cmp_sections cmp) /\
           In (cat, median_shown times1 cat, median_shown times2 cat) lines).
Proof.
  eexists. split; [by vm_compute|].
  apply PrintComparisonReport_sections. by vm_compute.
Defined.

(** ** main.go: [main] *)

Lemma parseOne_NoFlag s : flag_like s = false -> GoFlag.parseOne s = GoFlag.NoFlag.
Proof.
  unfold flag_like, GoFlag.parseOne. destruct s as [|c [|c1 r1]]; try done.
  - by destruct c as [[] [] [] [] [] [] [] []].
  - destruct c as [[] [] [] [] [] [] [] []]; done.
Qed.

(** X20: what [main] runs.  [parse] takes the first argument that is not a
    flag as the slug and ignores what follows it, so [--clear] after the
    slug does not clear, while [-clear] or [--clear] before it does;
    [report] takes its first argument and ignores the others; [compare]
    runs for exactly two arguments and no others; any other command, or
    none, prints the usage. *)
Theorem main_dispatch :
  (forall prog slug rest, flag_like slug = false ->
     main (prog :: "parse" :: slug :: rest) = RunParse slug false) /\
  (forall prog flag slug rest,
     flag = "-clear" \/ flag = "--clear" -> flag_like slug = false ->
     main (prog :: "parse" :: flag :: slug :: rest) = RunParse slug true) /\
  (forall prog slug rest, main (prog :: "report" :: slug :: rest) = RunReport slug) /\
  (forall args location1 location2,
     main args = RunCompare location1 location2 <->
     exists prog, args = [prog; "compare"; location1; location2]) /\
  (forall args,
     (forall prog command rest,
        args = prog :: command :: rest ->
        command <> "parse" /\ command <> "report" /\ command <> "compare") ->
     main args = PrintUsage).
Proof.
  split; [|split; [|split; [|split]]].
  - intros prog slug rest Hs. unfold main. simpl.
    by rewrite (parseOne_NoFlag slug Hs).
  - intros prog flag slug rest Hf Hs. unfold main.
    destruct Hf as [-> | ->]; simpl; by rewrite (parseOne_NoFlag slug Hs).
  - done.
  - intros args location1 location2. split.
    + unfold main. destruct args as [|prog [|command rest]]; try done.
      destruct (String.eqb_spec command "parse") as [->|Hp].
      { destruct (GoFlag.Parse rest false) as [[c [|s r]]|code]; done. }
      destruct (String.eqb_spec command "report") as [->|Hr].
      { by destruct rest. }
      destruct (String.eqb_spec command "compare") as [->|Hc]; [|done].
      destruct rest as [|l1 [|l2 [|l3 rest]]]; try done.
      intros [= -> ->]. by exists prog.
    + by intros [prog ->].
  - intros args H. unfold main.
    destruct args as [|prog [|command rest]]; try done.
    destruct (H prog command rest eq_refl) as (Hp & Hr & Hc).
    destruct (String.eqb_spec command "parse"); [done|].
    destruct (String.eqb_spec command "report"); [done|].
    by destruct (String.eqb_spec command "compare").
Qed.

Lemma main_dispatch_witness :
  main ["parkrun"; "parse"; "bushy"; "--clear"] = RunParse "bushy" false /\
  main ["parkrun"; "parse"; "--clear"; "bushy"] = RunParse "bushy" true.
Proof.
  destruct main_dispatch as (H1 & H2 & _). split.
  - by apply H1.
  - apply H2; [by right|done].
Defined.

(** ** main.go: a run with a working driver *)

Lemma bind_Ok {A B} (m : M A) (k : A -> M B) w a w' :
  m w = (Ok a, w') -> bind m k w = k a w'.
Proof. intros E. unfold bind. by rewrite E. Qed.

Lemma driver_call_Ok stmt w :
  faults w = [] ->
  exists w', driver_call stmt w = (Ok false, w') /\ db w' = db w /\ faults w' = [].
Proof. intros Hf. unfold driver_call. rewrite Hf. by eexists. Qed.

Lemma emit_Ok es w :
  exists w', emit es w = (Ok tt, w') /\ db w' = db w /\ faults w' = faults w.
Proof. by eexists. Qed.

Lemma CreateTables_Ok w :
  faults w = [] ->
  exists w', CreateTables w = (Ok tt, w') /\ db w' = db w /\ faults w' = [].
Proof.
  intros Hf. unfold CreateTables.
  destruct (driver_call_Ok "CREATE TABLE IF NOT EXISTS locations" w Hf)
    as (w1 & E1 & D1 & F1).
  destruct (driver_call_Ok "CREATE TABLE IF NOT EXISTS events" w1 F1)
    as (w2 & E2 & D2 & F2).
  destruct (driver_call_Ok "CREATE TABLE IF NOT EXISTS results" w2 F2)
    as (w3 & E3 & D3 & F3).
  unfold bind at 1. unfold bind at 1. rewrite E1.
  unfold bind at 1. rewrite E2. unfold bind at 1. rewrite E3.
  unfold ret, log_Printf, emit. simpl. eexists. split; [reflexivity|].
  simpl. split; congruence.
Qed.

Lemma ClearLocationData_Ok urlSlug w :
  faults w = [] ->
  exists w', ClearLocationData urlSlug w = (Ok None, w') /\ faults w' = [] /\
    seq_locations (db w') = seq_locations (db w) /\
    forall l, In l (locations (db w')) -> In l (locations (db w)).
Proof.
  intros Hf. destruct w as [d fs tr]. simpl in Hf. subst fs.
  unfold ClearLocationData, bind, driver_call, get_db, put_db, ret, emit. simpl.
  destruct (SQL.select_location_id urlSlug d) as [locationID|]; simpl.
  - eexists. split; [reflexivity|]. simpl. split; [done|]. split; [done|].
    intros l Hl. by apply filter_In in Hl as [Hl _].
  - eexists. split; [reflexivity|]. done.
Qed.

Lemma ingestLoop_Ok urlSlug locationID xs : forall st w,
  exists ended w', ingestLoop urlSlug locationID xs st w = (Ok ended, w').
Proof.
  induction xs as [|x xs IH]; intros st w; cbn [ingestLoop]; [by eexists _, _|].
  destruct (loopBody_step urlSlug locationID x st w) as (c & st' & w1 & es & E & _).
  rewrite (bind_Ok _ _ _ _ _ E). cbn [fst snd].
  destruct c; [apply IH|by eexists _, _..].
Qed.

Lemma GetNextEventNumber_Ok locationID w :
  exists n w', GetNextEventNumber locationID w = (Ok n, w') /\ db w' = db w.
Proof.
  unfold GetNextEventNumber, bind, driver_call, get_db, ret, log_Printf, emit.
  destruct (faults w) as [|[] fs]; simpl; by eexists _, _.
Qed.

Lemma select_inserted_location slug country d id d' :
  SQL.insert_or_ignore_location slug country d = Some (id, d') ->
  SQL.select_location_id slug d' = Some id.
Proof.
  unfold SQL.insert_or_ignore_location, SQL.select_location_id.
  destruct (existsb _ (locations d)) eqn:Ex; [done|].
  destruct (SQL.next_rowid _ _); [|done]. intros [= <- <-]. simpl.
  rewrite List.filter_app. simpl. rewrite String.eqb_refl.
  assert (List.filter (fun l => String.eqb (l_slug l) slug) (locations d) = [])
    as ->; [|done].
  induction (locations d) as [|l ls IH]; simpl in *; [done|].
  apply orb_false_iff in Ex as [-> Ex]. by apply IH.
Qed.

Lemma select_existing_location slug country d :
  SQL.insert_or_ignore_location slug country d = None ->
  SQL.next_rowid (seq_locations d) (map l_id (locations d)) <> None ->
  exists id, SQL.select_location_id slug d = Some id.
Proof.
  unfold SQL.insert_or_ignore_location, SQL.select_location_id.
  destruct (existsb _ (locations d)) eqn:Ex.
  - intros _ _. apply existsb_exists in Ex as (l & Hl & E).
    assert (Hin : In l (List.filter (fun l => String.eqb (l_slug l) slug)
                          (locations d))) by (by apply filter_In).
    destruct (List.filter _ (locations d)); [done|]. by eexists.
  - by destruct (SQL.next_rowid _ _).
Qed.

(** X21: with a driver that does not fail and a rowid left for the
    location, [parseAndStoreResults] never ends the process with
    [log.Fatal], whatever the server answers, and when it returns the slug
    is registered in the locations table. *)
Theorem parseAndStoreResults_registers urlSlug clearData xs w :
  faults w = [] ->
  seq_locations (db w) < GoInt.max_int ->
  (forall l, In l (locations (db w)) -> l_id l < GoInt.max_int) ->
  exists ended w' locationID,
    parseAndStoreResults urlSlug clearData xs w = (Ok ended, w') /\
    SQL.select_location_id urlSlug (db w') = Some locationID.
Proof.
  intros Hf Hseq Hids. unfold parseAndStoreResults.
  destruct (driver_call_Ok "sql.Open" w Hf) as (w1 & E1 & D1 & F1).
  rewrite (bind_Ok _ _ _ _ _ E1).
  destruct (emit_Ok [Logged "Successfully connected to database" []] w1)
    as (w2 & E2 & D2 & F2).
  unfold log_Printf at 1. rewrite (bind_Ok _ _ _ _ _ E2).
  destruct (CreateTables_Ok w2) as (w3 & E3 & D3 & F3); [congruence|].
  rewrite (bind_Ok _ _ _ _ _ E3).
  assert (Hclear : exists w4,
            (if clearData
             then err <- ClearLocationData urlSlug ;;
                  match err with
                  | Some _ => log_Fatal "Failed to clear existing data:"
                  | None => log_Printf "Cleared existing data for %s"
                              [StrArg urlSlug]
                  end
             else ret tt) w3 = (Ok tt, w4) /\ faults w4 = [] /\
            seq_locations (db w4) = seq_locations (db w) /\
            forall l, In l (locations (db w4)) -> In l (locations (db w))).
  { destruct clearData.
    - destruct (ClearLocationData_Ok urlSlug w3 F3) as (w4 & E4 & F4 & S4 & L4).
      rewrite (bind_Ok _ _ _ _ _ E4). unfold log_Printf, emit. eexists.
      split; [reflexivity|]. simpl. split; [done|]. split; [congruence|].
      intros l Hl. apply L4 in Hl. congruence.
    - exists w3. split; [done|]. split; [done|]. split; [congruence|].
      intros l Hl. congruence. }
  destruct Hclear as (w4 & E4 & F4 & S4 & L4).
  rewrite (bind_Ok _ _ _ _ _ E4).
  destruct (driver_call_Ok "INSERT OR IGNORE INTO locations RETURNING id" w4 F4)
    as (w5 & E5 & D5 & F5).
  rewrite (bind_Ok _ _ _ _ _ E5). unfold bind at 1, get_db at 1.
  assert (Hrow : SQL.next_rowid (seq_locations (db w5))
                   (map l_id (locations (db w5))) <> None).
  { rewrite D5. unfold SQL.next_rowid.
    destruct (Z.ltb_spec (fold_right Z.max (seq_locations (db w4))
                            (map l_id (locations (db w4)))) GoInt.max_int)
      as [|Hge]; [done|]. exfalso.
    destruct (fold_max_spec (seq_locations (db w4)) (map l_id (locations (db w4))))
      as [[Hm|Hm] _].
    - rewrite <- Hm, S4 in Hge. lia.
    - apply in_map_iff in Hm as (l & Hl & Hin).
      specialize (Hids l (L4 l Hin)). lia. }
  assert (Hloc : exists locationID w6,
            match SQL.insert_or_ignore_location urlSlug "AUS" (db w5) with
            | Some (id, d') => put_db d';; ret id
            | None =>
                failed <- driver_call "SELECT id FROM locations WHERE slug = ?";;
                match (if failed then None
                       else SQL.select_location_id urlSlug (db w5)) with
                | Some id => ret id
                | None => log_Fatal "Failed to get location ID:"
                end
            end w5 = (Ok locationID, w6) /\
            SQL.select_location_id urlSlug (db w6) = Some locationID).
  { destruct (SQL.insert_or_ignore_location urlSlug "AUS" (db w5))
      as [[id d']|] eqn:Ei.
    - eexists _, _. split; [reflexivity|]. simpl.
      by apply (select_inserted_location _ _ _ _ _ Ei).
    - destruct (select_existing_location _ _ _ Ei Hrow) as [id Hid].
      destruct (driver_call_Ok "SELECT id FROM locations WHERE slug = ?" w5 F5)
        as (w6 & E6 & D6 & F6).
      rewrite (bind_Ok _ _ _ _ _ E6), Hid. eexists _, _.
      split; [reflexivity|]. by rewrite D6. }
  destruct Hloc as (locationID & w6 & E6 & Hsel).
  cbv iota. rewrite (bind_Ok _ _ _ _ _ E6).
  unfold log_Printf at 1.
  destruct (emit_Ok [Logged "Using location ID: %d" [IntArg locationID]] w6)
    as (w7 & E7 & D7 & _).
  rewrite (bind_Ok _ _ _ _ _ E7).
  destruct (GetNextEventNumber_Ok locationID w7) as (n & w8 & E8 & D8).
  rewrite (bind_Ok _ _ _ _ _ E8). unfold log_Printf at 1.
  destruct (emit_Ok [Logged "Starting from event number: %d" [IntArg n]] w8)
    as (w9 & E9 & D9 & _).
  rewrite (bind_Ok _ _ _ _ _ E9).
  destruct (ingestLoop_Ok urlSlug locationID xs
              {| eventID := n; consecutiveErrors := 0 |} w9)
    as (ended & w10 & E10).
  rewrite (bind_Ok _ _ _ _ _ E10).
  assert (Hlocs : locations (db w10) = locations (db w6)).
  { assert (H : preserves (fun d => locations d = locations (db w6))
                  (ingestLoop urlSlug locationID xs
                     {| eventID := n; consecutiveErrors := 0 |})).
    { apply preserves_ingestLoop.
      - intros ev d id d' Hi Hd. unfold SQL.insert_or_replace_event in Hi.
        destruct (SQL.next_rowid _ _) in Hi; [|done]. by injection Hi as _ <-.
      - intros position name ts ag ac note tr eid d d' _ Hi Hd.
        unfold SQL.insert_or_replace_result in Hi.
        destruct (SQL.next_rowid _ _) in Hi; [|done]. by injection Hi as <-. }
    specialize (H w9). rewrite E10 in H. apply H. congruence. }
  assert (Hsel' : SQL.select_location_id urlSlug (db w10) = Some locationID).
  { unfold SQL.select_location_id in *. by rewrite Hlocs. }
  destruct ended as [st|st|st]; unfold log_Printf, emit, bind, ret; simpl;
    eexists _, _, locationID; (split; [reflexivity|]); done.
Qed.

Lemma parseAndStoreResults_registers_witness :
  exists ended w' locationID,
    parseAndStoreResults "bushy" true [Responded 200 (Some page_1)] fresh_world
      = (Ok ended, w') /\
    SQL.select_location_id "bushy" (db w') = Some locationID.
Proof.
  apply parseAndStoreResults_registers.
  - reflexivity.
  - by vm_compute.
  - intros l [<-|[]]. by vm_compute.
Defined.
